(** * Citation extraction and classification: a shallow embedding of
      [streamlit_app.py] and the properties of its record list.

    Conventions of the embedding:
    - a text is a [string] over 8-bit characters, read as the code points
      U+0000..U+00FF; the character classes are those of Python on these
      code points;
    - Python's [int] is [N] (the numbers come from [\d+], so they are never
      negative); [int()] raises on a string of more than 4300 digits, and
      [extract_citations_directly] is the list the function returns when
      every conversion it makes returns, which [conversions_return]
      decides (lemma [conversions_return_spec]);
      [extract_citations_checked] is the function with that failure;
    - the part of Python's [re] the program relies on is embedded as a
      backtracking matcher in continuation-passing style (module [Re]);
      the patterns are the ones of the source, with their flags;
    - a dict is an association list in insertion order; a set of integers
      is a list without repetition, and the loop over the set
      [seen_brackets] is proved independent of the order of the visit
      (lemma [extract_order_irrelevant]). *)

From Stdlib Require Import String Ascii List NArith Arith Lia Bool.
From Stdlib Require Import Sorted Permutation DecimalString DecimalN.
Import ListNotations.
Open Scope string_scope.

(* ------------------------------------------------------------------ *)
(** ** Characters and the [str] methods the program calls *)

Definition code (c : ascii) : N := N_of_ascii c.

Definition in_range (lo hi : N) (c : ascii) : bool :=
  (lo <=? code c)%N && (code c <=? hi)%N.

(** [str.isspace] on one code point; it is also what [\s] matches in a
    [str] pattern. *)
Definition is_space (c : ascii) : bool :=
  in_range 9 13 c || in_range 28 32 c
  || (code c =? 133)%N || (code c =? 160)%N.

(** [\d] in a [str] pattern: the decimal digits; below U+0100 those are
    [0-9]. *)
Definition is_decimal (c : ascii) : bool := in_range 48 57 c.

(** [str.isdigit] on one code point: decimal digits and the superscript
    digits U+00B2, U+00B3, U+00B9. *)
Definition is_digit_char (c : ascii) : bool :=
  is_decimal c || (code c =? 178)%N || (code c =? 179)%N || (code c =? 185)%N.

Definition is_lower (c : ascii) : bool := in_range 97 122 c.
Definition is_upper (c : ascii) : bool := in_range 65 90 c.

Definition to_lower (c : ascii) : ascii :=
  if is_upper c then ascii_of_N (code c + 32) else c.

Definition nl : ascii := "010"%char.
Definition cr : ascii := "013"%char.
Definition NL : string := String nl "".

Fixpoint all_chars (p : ascii -> bool) (s : string) : bool :=
  match s with
  | "" => true
  | String c s' => p c && all_chars p s'
  end.

(** [s.isdigit()]: every character is a digit and there is at least one. *)
Definition isdigit (s : string) : bool :=
  match s with
  | "" => false
  | _ => all_chars is_digit_char s
  end.

Fixpoint lstrip (s : string) : string :=
  match s with
  | String c s' => if is_space c then lstrip s' else s
  | "" => ""
  end.

(** Drops the trailing whitespace: a character stays when something that
    is kept follows it, or when it is not whitespace itself. *)
Fixpoint rstrip (s : string) : string :=
  match s with
  | "" => ""
  | String c s' =>
      match rstrip s' with
      | "" => if is_space c then "" else String c ""
      | t => String c t
      end
  end.

(** [s.strip()] *)
Definition strip (s : string) : string := rstrip (lstrip s).

Fixpoint starts_with (p s : string) : bool :=
  match p, s with
  | "", _ => true
  | String a p', String b s' => Ascii.eqb a b && starts_with p' s'
  | _, "" => false
  end.

Fixpoint drop (n : nat) (s : string) : string :=
  match n, s with
  | O, _ => s
  | S n', String _ s' => drop n' s'
  | S _, "" => ""
  end.

Fixpoint take (n : nat) (s : string) : string :=
  match n, s with
  | S n', String c s' => String c (take n' s')
  | _, _ => ""
  end.

(** [p in s] for strings. *)
Fixpoint contains (p s : string) : bool :=
  starts_with p s ||
  match s with
  | "" => false
  | String _ s' => contains p s'
  end.

(** [s.replace(old, new)] for a non-empty [old]: leftmost occurrences,
    not overlapping.  The fuel is the length of the text still to scan. *)
Fixpoint replace_fuel (fuel : nat) (old new s : string) : string :=
  match fuel with
  | O => s
  | S f =>
      match s with
      | "" => ""
      | String c s' =>
          if starts_with old s
          then new ++ replace_fuel (f - (String.length old - 1)) old new
                        (drop (String.length old) s)
          else String c (replace_fuel f old new s')
      end
  end.

Definition replace (old new s : string) : string :=
  replace_fuel (String.length s) old new s.

(** [split] on a newline: always at least one piece. *)
Fixpoint split_lines (s : string) : list string :=
  match s with
  | "" => [""]
  | String c s' =>
      if Ascii.eqb c nl then "" :: split_lines s'
      else match split_lines s' with
           | l :: ls => String c l :: ls
           | [] => [String c ""]
           end
  end.

(** [join] on a newline *)
Fixpoint join_lines (ls : list string) : string :=
  match ls with
  | [] => ""
  | [l] => l
  | l :: ls' => l ++ NL ++ join_lines ls'
  end.

(** [int(s)] for a string of decimal digits, where it returns: see
    [int_returns] below. *)
Definition digit_val (c : ascii) : N := (code c - 48)%N.

Definition int_of_string (s : string) : N :=
  (fix go (acc : N) (s : string) : N :=
     match s with
     | "" => acc
     | String c s' => go (acc * 10 + digit_val c)%N s'
     end) 0%N s.

(** [int()] refuses a string of more than 4300 digits, the default of
    [sys.int_max_str_digits], with a [ValueError]; leading zeros count.
    The program does not catch it. *)
Definition int_max_str_digits : nat := 4300.

Definition int_returns (s : string) : bool :=
  (String.length s <=? int_max_str_digits)%nat.

(** [int(s)] with its failure. *)
Definition int_checked (s : string) : option N :=
  if int_returns s then Some (int_of_string s) else None.

(** A non-negative integer formatted in an f-string. *)
Definition str_of_int (n : N) : string :=
  NilEmpty.string_of_uint (N.to_uint n).

(* ------------------------------------------------------------------ *)
(** ** The fragment of Python's [re] used by the program *)

Module Re.

Definition cls := ascii -> bool.

(** Patterns.  Repetition is only ever applied to a character class in the
    program, greedy ([p*]) or lazy ([p*?]); [p+] is [p] followed by [p*].
    Groups are numbered as [re] numbers them. *)
Inductive regex : Type :=
| Eps
| Chr (p : cls)
| Seq (r1 r2 : regex)
| Alt (r1 r2 : regex)
| Star (greedy : bool) (p : cls)
| Opt (r : regex)
| Grp (i : nat) (r : regex)
| Ahead (r : regex)
| EndZ
| Dollar.

Definition groups := list (nat * string).

(** [m.group(i)]; an absent group reads as the empty string, as in the
    tuples of [re.findall]. *)
Fixpoint group (i : nat) (g : groups) : string :=
  match g with
  | [] => ""
  | (j, v) :: g' => if Nat.eqb i j then v else group i g'
  end.

(** The part of [s] consumed when [rest] is what is left of it. *)
Definition consumed (s rest : string) : string :=
  take (String.length s - String.length rest) s.

Section Matcher.
Context {A : Type}.

Fixpoint star_greedy (p : cls) (s : string) (k : string -> option A)
  : option A :=
  match s with
  | String c s' =>
      if p c then
        match star_greedy p s' k with
        | Some x => Some x
        | None => k s
        end
      else k s
  | "" => k s
  end.

Fixpoint star_lazy (p : cls) (s : string) (k : string -> option A)
  : option A :=
  match k s with
  | Some x => Some x
  | None =>
      match s with
      | String c s' => if p c then star_lazy p s' k else None
      | "" => None
      end
  end.
End Matcher.

(** [Dollar] is [$] without [re.MULTILINE]: the end of the text, or just
    before a newline that ends the text. *)
Definition at_dollar (s : string) : bool :=
  match s with
  | "" => true
  | String c "" => Ascii.eqb c nl
  | _ => false
  end.

(** The matcher tries the alternatives in the order of Python's
    backtracking engine and hands the rest of the text and the groups to
    the continuation; [None] makes it backtrack. *)
Fixpoint rmatch (r : regex) {A : Type} (s : string) (g : groups)
  (k : string -> groups -> option A) {struct r} : option A :=
  match r with
  | Eps => k s g
  | Chr p =>
      match s with
      | String c s' => if p c then k s' g else None
      | "" => None
      end
  | Seq r1 r2 => rmatch r1 s g (fun s1 g1 => rmatch r2 s1 g1 k)
  | Alt r1 r2 =>
      match rmatch r1 s g k with
      | Some x => Some x
      | None => rmatch r2 s g k
      end
  | Star true p => star_greedy p s (fun s' => k s' g)
  | Star false p => star_lazy p s (fun s' => k s' g)
  | Opt r1 =>
      match rmatch r1 s g k with
      | Some x => Some x
      | None => k s g
      end
  | Grp i r1 => rmatch r1 s g (fun s' g' => k s' ((i, consumed s s') :: g'))
  | Ahead r1 =>
      match rmatch r1 s g (fun _ g' => Some g') with
      | Some g' => k s g'
      | None => None
      end
  | EndZ => match s with "" => k s g | _ => None end
  | Dollar => if at_dollar s then k s g else None
  end.

(** A match anchored at the start of [s]: the groups and the rest. *)
Definition match_here (r : regex) (s : string) : option (groups * string) :=
  rmatch r s [] (fun rest g => Some (g, rest)).

Record found : Type := Found {
  before : string;    (* the text skipped before the match *)
  whole : string;     (* group 0 *)
  grps : groups;
  after : string      (* the text after the match *)
}.

(** [re.search]: the leftmost position at which the pattern matches. *)
Fixpoint search_acc (r : regex) (skipped : string) (s : string)
  : option found :=
  match match_here r s with
  | Some (g, rest) => Some (Found skipped (consumed s rest) g rest)
  | None =>
      match s with
      | "" => None
      | String c s' => search_acc r (skipped ++ String c "") s'
      end
  end.

Definition search (r : regex) (s : string) : option found :=
  search_acc r "" s.

(** The matches of [re.findall] / [re.finditer], left to right and not
    overlapping.  After an empty match the scan moves on by one
    character.  The fuel bounds the number of matches by the length of
    the text. *)
Fixpoint finditer_fuel (fuel : nat) (r : regex) (s : string) : list found :=
  match fuel with
  | O => []
  | S f =>
      match search r s with
      | None => []
      | Some m =>
          m :: match whole m, after m with
               | "", "" => []
               | "", String _ s' => finditer_fuel f r s'
               | _, s' => finditer_fuel f r s'
               end
      end
  end.

Definition finditer (r : regex) (s : string) : list found :=
  finditer_fuel (S (String.length s)) r s.

(** [re.sub(r, repl, s)] with the replacement given as a function of the
    groups. *)
Fixpoint sub_fuel (fuel : nat) (r : regex) (repl : groups -> string)
  (s : string) : string :=
  match fuel with
  | O => s
  | S f =>
      match search r s with
      | None => s
      | Some m =>
          before m ++ repl (grps m) ++
          match whole m, after m with
          | "", "" => ""
          | "", String c s' => String c (sub_fuel f r repl s')
          | _, s' => sub_fuel f r repl s'
          end
      end
  end.

Definition sub (r : regex) (repl : groups -> string) (s : string) : string :=
  sub_fuel (S (String.length s)) r repl s.

(** *** Building patterns *)

Definition chr (c : ascii) : cls := Ascii.eqb c.
Definition chr_i (c : ascii) : cls := fun x => Ascii.eqb (to_lower x) (to_lower c).
Definition any : cls := fun _ => true.
Definition neg (p : cls) : cls := fun c => negb (p c).

Definition Plus (greedy : bool) (p : cls) : regex :=
  Seq (Chr p) (Star greedy p).

Fixpoint seqs (rs : list regex) : regex :=
  match rs with
  | [] => Eps
  | [r] => r
  | r :: rs' => Seq r (seqs rs')
  end.

(** A literal, case-sensitive or (under [re.IGNORECASE]) not. *)
Fixpoint lit (s : string) : regex :=
  match s with
  | "" => Eps
  | String c "" => Chr (chr c)
  | String c s' => Seq (Chr (chr c)) (lit s')
  end.

Fixpoint lit_i (s : string) : regex :=
  match s with
  | "" => Eps
  | String c "" => Chr (chr_i c)
  | String c s' => Seq (Chr (chr_i c)) (lit_i s')
  end.

End Re.

Import Re.

(** [re.findall] for a pattern with [n] groups: the tuple of the groups of
    every match. *)
Definition findall (r : regex) (n : nat) (s : string) : list (list string) :=
  map (fun m => map (fun i => group i (grps m)) (seq 1 n)) (finditer r s).

(* ------------------------------------------------------------------ *)
(** ** The patterns of the program *)

Definition ws_star : regex := Star true is_space.
Definition not_ws : cls := neg is_space.

(** [https?://[^\s]+], case-sensitive or not. *)
Definition url_re : regex :=
  seqs [lit "http"; Opt (lit "s"); lit "://"; Plus true not_ws].
Definition url_re_i : regex :=
  seqs [lit_i "http"; Opt (lit_i "s"); lit_i "://"; Plus true not_ws].

(** [\[([^\]]+)\]] *)
Definition tag_re (i : nat) : regex :=
  seqs [lit "["; Grp i (Plus true (neg (chr "]"))); lit "]"].

(** [(?=\n\[|\Z)] *)
Definition next_entry_or_end : regex :=
  Ahead (Alt (Seq (Chr (chr nl)) (lit "[")) EndZ).

Module Pat.

(** The heading patterns: the word, then [\s*\n], then a group that
    takes the rest of the text.  Both are searched with
    [re.IGNORECASE | re.DOTALL]. *)
Definition heading (word : string) : regex :=
  seqs [lit_i word; ws_star; Chr (chr nl); Grp 1 (Star true any)].
Definition references_patterns : list regex :=
  [heading "References"; heading "REFERENCES"].

(** [\n\s*\n\s*\n+] *)
Definition blank_run : regex :=
  seqs [Chr (chr nl); ws_star; Chr (chr nl); ws_star; Plus true (chr nl)].
(** [([a-z])([A-Z])] *)
Definition camel : regex := Seq (Grp 1 (Chr is_lower)) (Grp 2 (Chr is_upper)).
(** [([.!?])([A-Z])] *)
Definition is_sentence_end (c : ascii) : bool :=
  Ascii.eqb c "." || Ascii.eqb c "!" || Ascii.eqb c "?".
Definition sentence : regex :=
  Seq (Grp 1 (Chr is_sentence_end)) (Grp 2 (Chr is_upper)).
(** [\[(\d+)\]\s*\[([^\]]+)\]\s*([^:]+):\s*(https?://[^\s]+)] *)
Definition citation_line : regex :=
  seqs [lit "["; Grp 1 (Plus true is_decimal); lit "]"; ws_star; tag_re 2;
        ws_star; Grp 3 (Plus true (neg (chr ":"))); lit ":"; ws_star;
        Grp 4 url_re].

(** [\[(\d+)\]\s*\[([^\]]+)\]\s*([^:]+?):\s*(.*?)(?=\n\[|\Z)] *)
Definition citation_pattern : regex :=
  seqs [lit "["; Grp 1 (Plus true is_decimal); lit "]"; ws_star; tag_re 2;
        ws_star; Grp 3 (Plus false (neg (chr ":"))); lit ":"; ws_star;
        Grp 4 (Star false any); next_entry_or_end].
(** [\[15\]\s*\[([^\]]+)\]\s*([^:]+?):\s*(.*?)(?=\n\[|\Z)] *)
Definition test_pattern : regex :=
  seqs [lit "[15]"; ws_star; tag_re 1;
        ws_star; Grp 2 (Plus false (neg (chr ":"))); lit ":"; ws_star;
        Grp 3 (Star false any); next_entry_or_end].

(** [\s+] *)
Definition ws_plus : regex := Plus true is_space.
(** [(https?://[^\s]+)] *)
Definition url_group : regex := Grp 1 url_re.
(** [\[(\d+)\]] *)
Definition bracket_pattern : regex :=
  seqs [lit "["; Grp 1 (Plus true is_decimal); lit "]"].

(** [\[{citation_num}\]] *)
Definition bracketed (n : N) : regex := lit ("[" ++ str_of_int n ++ "]").

(** The head of every gap-filling pattern:
    [\[{citation_num}\]\s*\[([^\]]+)\]\s*]. *)
Definition entry_head (n : N) : list regex :=
  [bracketed n; ws_star; tag_re 1; ws_star].

Definition not_colon_plus : regex := Plus true (neg (chr ":")).

(** The four [citation_context_patterns], with the number of groups of
    each: the length of the tuples [re.findall] returns. *)
Definition context1 (n : N) : regex :=
  seqs (entry_head n ++ [Grp 2 not_colon_plus; lit ":"; ws_star; Grp 3 url_re_i]).
Definition context2 (n : N) : regex :=
  seqs (entry_head n ++ [Grp 2 (Plus false any); Chr (chr nl); Grp 3 url_re_i]).
Definition context3 (n : N) : regex :=
  seqs (entry_head n ++ [Grp 2 not_colon_plus; lit ":"; ws_star; Dollar]).
Definition context4 (n : N) : regex :=
  seqs (entry_head n ++
        [Grp 2 (Plus false any);
         Opt (seqs [ws_star; lit_i "http"; Opt (lit_i "s"); lit_i "://";
                    Plus true (fun c => not_ws c && negb (Ascii.eqb c ")"))])]).
Definition citation_context_patterns (n : N) : list (regex * nat) :=
  [(context1 n, 3); (context2 n, 3); (context3 n, 2); (context4 n, 2)]%nat.

(** [next_line_pattern] and [simple_pattern] *)
Definition next_line_pattern (n : N) : regex :=
  seqs (entry_head n ++ [Grp 2 not_colon_plus; lit ":"; ws_star;
                         Chr (chr nl); ws_star; Grp 3 url_re_i]).
Definition simple_pattern (n : N) : regex :=
  seqs (entry_head n ++ [Grp 2 not_colon_plus; lit ":"; ws_star;
                         Chr (chr nl); Grp 3 url_re_i]).
End Pat.

(* ------------------------------------------------------------------ *)
(** ** Classification *)

Definition get_sql_urls : list string :=
  [ "https://dashboard.msme.gov.in/Udyam_Statewise.aspx";
    "https://data.adb.org/dataset/2023-asia-small-and-medium-sized-enterprise-monitor";
    "https://data.adb.org/media/10421/download";
    "https://data.rbi.org.in/#/dbie/indicators";
    "https://eaindustry.nic.in/download_data_1112.asp";
    "https://esankhyiki.mospi.gov.in/";
    "https://esankhyiki.mospi.gov.in/catalogue-main/catalogue?index=&page=0&product=NAS";
    "https://esankhyiki.mospi.gov.in/catalogue-main/catalogue?page=0&search=&product=NAS&q=NSDP";
    "https://esankhyiki.mospi.gov.in/macroindicators-main/macroindicators?product=asi";
    "https://esankhyiki.mospi.gov.in/macroindicators-main/macroindicators?product=asuse";
    "https://esankhyiki.mospi.gov.in/macroindicators-main/macroindicators?product=nss77&tab=table";
    "https://esankhyiki.mospi.gov.in/macroindicators-main/macroindicators?product=nss78";
    "https://esankhyiki.mospi.gov.in/macroindicators-main/macroindicators?product=plfs";
    "https://esankhyiki.mospi.gov.in/macroindicators?product=cpi";
    "https://labourbureau.gov.in/uploads/public/notice/MIL-07-2024pdf-bd246163a1b7f2b4515a6eedd5df650d.pdf";
    "https://mospi.gov.in/GSVA-NSVA";
    "https://niryat.gov.in/india";
    "https://residex.nhbonline.org.in/";
    "https://www.data.gov.in/resource/kisan-call-centre-kcc-transcripts-farmers-queries-answers";
    "https://www.gst.gov.in/download/gststatistics";
    "https://www.indiabudget.gov.in/budget2022-23/economicsurvey/doc/stat/tab43.pdf";
    "https://www.indiabudget.gov.in/economicsurvey/doc/Statistical-Appendix-in-English.pdf";
    "https://www.niftyindices.com/indices/equity/thematic-indices/nifty-sme-emerge";
    "https://www.rbi.org.in/scripts/Data_Sectoral_Deployment.aspx" ].

Definition nonempty (s : string) : bool :=
  match s with "" => false | _ => true end.

Definition classify_citation_type (citation_url : string) : string :=
  if negb (nonempty citation_url) then "Vector"
  else if existsb (String.eqb citation_url) get_sql_urls then "SQL"
  else "Vector".

(* ------------------------------------------------------------------ *)
(** ** Text normalisation and the reference section *)

Definition clean_text (text : string) : string :=
  let text := sub Pat.blank_run (fun _ => NL ++ NL) text in
  let text := sub Pat.camel (fun g => group 1 g ++ " " ++ group 2 g) text in
  let text := sub Pat.sentence (fun g => group 1 g ++ " " ++ group 2 g) text in
  sub Pat.citation_line
      (fun g => "[" ++ group 1 g ++ "] [" ++ group 2 g ++ "] "
                ++ group 3 g ++ ": " ++ group 4 g) text.

(** The first pattern of the list that is found decides. *)
Fixpoint first_heading (pats : list regex) (text : string) : option string :=
  match pats with
  | [] => None
  | p :: pats' =>
      match search p text with
      | Some m => Some (strip (group 1 (grps m)))
      | None => first_heading pats' text
      end
  end.

Definition is_marker_line (line : string) : bool :=
  contains "References" line || contains "REFERENCES" line.

(** The loop over [enumerate(lines)]: it returns at the first line that
    holds the word. *)
Fixpoint after_marker (lines : list string) : option string :=
  match lines with
  | [] => None
  | line :: rest =>
      if is_marker_line line then Some (strip (join_lines rest))
      else after_marker rest
  end.

Definition find_references_section (text : string) : string :=
  match first_heading Pat.references_patterns text with
  | Some refs => refs
  | None =>
      match after_marker (split_lines text) with
      | Some refs => refs
      | None => text
      end
  end.

(** [len(re.findall(pattern, text))] *)
Definition count_citation_occurrences (citation_num : N) (text : string) : nat :=
  List.length (finditer (Pat.bracketed citation_num) text).

(* ------------------------------------------------------------------ *)
(** ** Citation records *)

Record citation : Type := Citation {
  citation_number : N;
  citation_headline : string;
  citation_link : string;
  web_internal : string;
  total_occurrences : nat;
  vector_sql : string
}.

(** A raw match: the tuple (number, tag, headline, URL tail) of
    [re.findall] on the citation pattern. *)
Definition raw_match : Type := string * string * string * string.

Definition raw_number (m : raw_match) : string :=
  let '(citation_num, _, _, _) := m in citation_num.

Definition findall4 (r : regex) (s : string) : list raw_match :=
  map (fun m => let g := grps m in (group 1 g, group 2 g, group 3 g, group 4 g))
      (finditer r s).

Definition findall3 (r : regex) (s : string) : list (string * string * string) :=
  map (fun m => let g := grps m in (group 1 g, group 2 g, group 3 g))
      (finditer r s).

Definition findall1 (r : regex) (s : string) : list string :=
  map (fun m => group 1 (grps m)) (finditer r s).

(** [re.sub] of [\s+] by nothing and by one space *)
Definition remove_ws (s : string) : string := sub Pat.ws_plus (fun _ => "") s.
Definition collapse_ws (s : string) : string := sub Pat.ws_plus (fun _ => " ") s.

Definition CR : string := String cr "".

(** The raw matches of the reference section, with the entry added for
    citation 15 when no match carries the text [15]. *)
Definition citation_15_found (matches1 : list raw_match) : bool :=
  existsb (fun m => String.eqb (raw_number m) "15") matches1.

Definition raw_matches (references_content : string) : list raw_match :=
  let matches1 := findall4 Pat.citation_pattern references_content in
  if negb (citation_15_found matches1) then
    match findall3 Pat.test_pattern references_content with
    | (tag, headline, url) :: _ =>
        (matches1 ++ [("15", tag, headline, url)])%list
    | [] => matches1
    end
  else matches1.

(** The first loop: the URL tail loses its whitespace, the marker
    [Govtsource:] and whatever surrounds the URL proper. *)
Definition clean_match (m : raw_match) : raw_match :=
  let '(citation_num, web_internal, headline, url) := m in
  let clean_url := remove_ws (strip url) in
  let clean_url :=
    if contains "Govtsource:" clean_url
    then replace "Govtsource:" "" clean_url else clean_url in
  let clean_url :=
    match search Pat.url_group clean_url with
    | Some url_match => group 1 (grps url_match)
    | None => clean_url
    end in
  (citation_num, web_internal, headline, clean_url).

(** The body of the second loop up to [citation_data]. *)
Definition primary_record (text : string) (m : raw_match) : citation :=
  let '(citation_num, web_internal, headline, url) := m in
  let citation_num := int_of_string citation_num in
  let headline := collapse_ws (strip headline) in
  let url_clean := if nonempty url then remove_ws (strip url) else "" in
  let headline := replace CR " " (replace NL " " headline) in
  let url_clean := replace CR "" (replace NL "" url_clean) in
  let web_internal_label :=
    if contains "Web" web_internal then "Web"
    else if contains "Internal" web_internal then "Internal"
    else if nonempty url_clean then "Web" else "Internal" in
  let total_occurrences := count_citation_occurrences citation_num text in
  let citation_type :=
    if String.eqb web_internal_label "Internal"
    then classify_citation_type url_clean
    else "N/A" in
  Citation citation_num headline url_clean web_internal_label
           total_occurrences citation_type.

(** [citation_dict]: a dict keeps its keys in the order of their first
    insertion, and assigning to a key that is present keeps its place. *)
Definition dict : Type := list (N * citation).

Fixpoint dict_get (k : N) (d : dict) : option citation :=
  match d with
  | [] => None
  | (k', v) :: d' => if N.eqb k k' then Some v else dict_get k d'
  end.

Fixpoint dict_set (k : N) (v : citation) (d : dict) : dict :=
  match d with
  | [] => [(k, v)]
  | (k', v') :: d' =>
      if N.eqb k k' then (k, v) :: d' else (k', v') :: dict_set k v d'
  end.

Definition dict_values (d : dict) : list citation := map snd d.

(** The choice of the best candidate for a number. *)
Definition choose_best (citation_dict : dict) (citation_data : citation) : dict :=
  let citation_num := citation_number citation_data in
  match dict_get citation_num citation_dict with
  | None => dict_set citation_num citation_data citation_dict
  | Some current =>
      if nonempty (citation_link citation_data)
         && negb (nonempty (citation_link current))
      then dict_set citation_num citation_data citation_dict
      else if (String.length (citation_headline current)
               <? String.length (citation_headline citation_data))%nat
      then dict_set citation_num citation_data citation_dict
      else citation_dict
  end.

Definition primary_dict (text : string) (matches1 : list raw_match) : dict :=
  fold_left (fun d m => choose_best d (primary_record text m)) matches1 [].

(** *** Filling the gaps *)

(** Sets of integers, as lists without repetition. *)
Definition mem (n : N) (s : list N) : bool := existsb (N.eqb n) s.
Definition set_add (n : N) (s : list N) : list N :=
  if mem n s then s else (s ++ [n])%list.
Definition set_of_list (l : list N) : list N :=
  fold_left (fun s n => set_add n s) l [].

Definition bracket_numbers (references_content : string) : list N :=
  set_of_list
    (map int_of_string
       (filter (fun m => isdigit m && (int_of_string m <=? 100)%N)
               (findall1 Pat.bracket_pattern references_content))).

(** [max(seen_brackets) if seen_brackets else 0] *)
Definition max_of (s : list N) : N := fold_left N.max s 0%N.

(** [range(1, n + 1)] *)
Definition range1 (n : N) : list N := map N.of_nat (seq 1 (N.to_nat n)).

(** The numbers that need a record: the bracket numbers and every number
    from 1 to their maximum that the parser has not produced. *)
Definition numbers_needed (seen_citations seen_brackets : list N) : list N :=
  fold_left
    (fun s n => if negb (mem n seen_citations) then set_add n s else s)
    (range1 (max_of seen_brackets)) seen_brackets.

Definition label_of_class (web_internal_class : string) : string :=
  if contains "Web" web_internal_class then "Web" else "Internal".

(** The URL looked for on the next line, by two patterns in turn. *)
Definition next_line_link (n : N) (references_content : string) : string :=
  match findall (Pat.next_line_pattern n) 3 references_content with
  | m :: _ => strip (nth 2 m "")
  | [] =>
      match findall (Pat.simple_pattern n) 3 references_content with
      | m :: _ => strip (nth 2 m "")
      | [] => ""
      end
  end.

(** Headline, link and origin of a number without a parsed entry: the
    first context pattern with a match decides; the defaults stand when
    there is none. *)
Fixpoint find_context (pats : list (regex * nat)) (n : N)
  (references_content : string) : string * string * string :=
  match pats with
  | [] => ("Missing citation", "", "Internal")
  | (pattern, k) :: pats' =>
      match findall pattern k references_content with
      | [] => find_context pats' n references_content
      | context :: _ =>
          match context with
          | [web_internal_class; extracted_headline; url] =>
              (strip extracted_headline,
               if nonempty url then strip url else "",
               label_of_class web_internal_class)
          | [web_internal_class; extracted_headline] =>
              (strip extracted_headline,
               next_line_link n references_content,
               label_of_class web_internal_class)
          | _ => ("Missing citation", "", "Internal")
          end
      end
  end.

Definition gap_context (n : N) (references_content : string)
  : string * string * string :=
  find_context (Pat.citation_context_patterns n) n references_content.

(** The guard on a headline: too short, or nothing but digits. *)
Definition malformed (headline : string) : bool :=
  (String.length (strip headline) <? 3)%nat || isdigit (strip headline).

(** The record of one number in the gap-filling loop; [None] when the
    guard makes the loop [continue]. *)
Definition gap_record (text references_content : string) (citation_num : N)
  : option citation :=
  let '(headline, citation_link, web_internal_label) :=
    gap_context citation_num references_content in
  if malformed headline then None
  else
    let headline := collapse_ws (strip headline) in
    let citation_link :=
      if nonempty citation_link then remove_ws (strip citation_link) else "" in
    let headline := replace CR " " (replace NL " " headline) in
    let citation_link := replace CR "" (replace NL "" citation_link) in
    let total_occurrences := count_citation_occurrences citation_num text in
    let citation_type := classify_citation_type citation_link in
    Some (Citation citation_num headline citation_link web_internal_label
                   total_occurrences citation_type).

(** One turn of the loop over [seen_brackets]; the state is
    [seen_citations] and [citations]. *)
Definition gap_step (text references_content : string)
  (st : list N * list citation) (citation_num : N) : list N * list citation :=
  let '(seen_citations, citations) := st in
  if negb (mem citation_num seen_citations) then
    let seen_citations := set_add citation_num seen_citations in
    match gap_record text references_content citation_num with
    | None => (seen_citations, citations)
    | Some citation_data => (seen_citations, (citations ++ [citation_data])%list)
    end
  else st.

(** *** Sorting: [list.sort] is stable *)

Fixpoint insert_by_number (x : citation) (l : list citation) : list citation :=
  match l with
  | [] => [x]
  | y :: l' =>
      if (citation_number x <=? citation_number y)%N then x :: l
      else y :: insert_by_number x l'
  end.

Definition sort_by_number (l : list citation) : list citation :=
  fold_right insert_by_number [] l.

(** *** The extraction *)

(** [order] is the order in which the loop visits [seen_brackets], a
    Python set: any enumeration of it. *)
Definition extract_with_order (order : list N -> list N) (text : string)
  : list citation :=
  let references_content := find_references_section text in
  let matches1 := map clean_match (raw_matches references_content) in
  let citation_dict := primary_dict text matches1 in
  let citations := dict_values citation_dict in
  let seen_citations := set_of_list (map citation_number citations) in
  let seen_brackets :=
    numbers_needed seen_citations (bracket_numbers references_content) in
  let '(_, citations) :=
    fold_left (gap_step text references_content) (order seen_brackets)
              (seen_citations, citations) in
  sort_by_number citations.

Definition extract_citations_directly (text : string) : list citation :=
  extract_with_order (fun s => s) text.

(** The conversions the function makes: the number of every cleaned
    match, in the loop that builds [citation_dict], and every match of
    the bracket pattern, when [seen_brackets] is built.  When one of them
    raises, the function returns nothing. *)
Definition conversions_return (text : string) : bool :=
  let references_content := find_references_section text in
  forallb (fun m => int_returns (raw_number m))
          (map clean_match (raw_matches references_content))
  && forallb int_returns (findall1 Pat.bracket_pattern references_content).

(** The function with its failure: [None] stands for the [ValueError]. *)
Definition extract_citations_checked (text : string)
  : option (list citation) :=
  if conversions_return text then Some (extract_citations_directly text)
  else None.

(* ------------------------------------------------------------------ *)
(** ** The analytics of [main] *)

Definition is_web (c : citation) : bool := String.eqb (web_internal c) "Web".
Definition is_internal (c : citation) : bool :=
  String.eqb (web_internal c) "Internal".
Definition is_vector (c : citation) : bool := String.eqb (vector_sql c) "Vector".
Definition is_sql (c : citation) : bool := String.eqb (vector_sql c) "SQL".

Definition sum_occurrences (cs : list citation) : nat :=
  fold_right (fun c acc => total_occurrences c + acc) 0 cs.

Definition unique_internal_count (citations : list citation) : nat :=
  List.length (filter is_internal citations).
Definition total_internal_occurrences (citations : list citation) : nat :=
  sum_occurrences (filter is_internal citations).
Definition internal_vector_citations (citations : list citation) : list citation :=
  filter (fun c => is_internal c && is_vector c) citations.
Definition internal_sql_citations (citations : list citation) : list citation :=
  filter (fun c => is_internal c && is_sql c) citations.
Definition internal_vector_occurrences (citations : list citation) : nat :=
  sum_occurrences (internal_vector_citations citations).
Definition internal_sql_occurrences (citations : list citation) : nat :=
  sum_occurrences (internal_sql_citations citations).

Definition internal_total_check (citations : list citation) : bool :=
  Nat.eqb (total_internal_occurrences citations)
          (internal_sql_occurrences citations
           + internal_vector_occurrences citations).
Definition internal_unique_check (citations : list citation) : bool :=
  Nat.eqb (unique_internal_count citations)
          (List.length (internal_sql_citations citations)
           + List.length (internal_vector_citations citations)).

(** [True] when [main] reports that the validation passed, [False] when
    it reports the validation error. *)
Definition validation_passed (citations : list citation) : bool :=
  negb (negb (internal_total_check citations)
        || negb (internal_unique_check citations)).


(* ------------------------------------------------------------------ *)
(** ** Invariants used in the proofs *)

(** The dict of the parser: every key once, every record under its own
    number. *)
Definition dict_ok (d : dict) : Prop :=
  NoDup (map fst d) /\ Forall (fun kv => citation_number (snd kv) = fst kv) d.

(** The loop over [seen_brackets]. *)
Definition gap_loop (text refs : string) (l : list N)
  (st : list N * list citation) : list N * list citation :=
  fold_left (gap_step text refs) l st.

(** What the loop keeps true of its state: no number twice among the
    records, and every record's number is marked as seen. *)
Definition gap_inv (st : list N * list citation) : Prop :=
  NoDup (map citation_number (snd st))
  /\ forall c, In c (snd st) -> In (citation_number c) (fst st).

Definition number_le (a b : citation) : Prop :=
  (citation_number a <= citation_number b)%N.


(* ------------------------------------------------------------------ *)
(** ** Notions the properties are stated with *)

(** The occurrences of a token in a text, counted from left to right
    without overlap ([tok] is not empty).  The fuel is the length of the
    text still to scan. *)
Fixpoint count_token_fuel (fuel : nat) (tok s : string) : nat :=
  match fuel with
  | O => O
  | S f =>
      match s with
      | "" => O
      | String _ s' =>
          if starts_with tok s
          then S (count_token_fuel f tok (drop (String.length tok) s))
          else count_token_fuel f tok s'
      end
  end.

Definition count_token (tok s : string) : nat :=
  count_token_fuel (S (String.length s)) tok s.

(** The token of a citation number: the number in brackets. *)
Definition bracket_token (n : N) : string := "[" ++ str_of_int n ++ "]".

(** [max_citation_num]: the largest bracket number of the reference
    section, 0 without any. *)
Definition max_citation_num (references_content : string) : N :=
  max_of (bracket_numbers references_content).

(** The numbers the parser has a record of. *)
Definition parsed_numbers (text : string) : list N :=
  map citation_number
    (dict_values
       (primary_dict text
          (map clean_match (raw_matches (find_references_section text))))).

(** The headline the gap filler finds for a number. *)
Definition gap_headline (n : N) (references_content : string) : string :=
  fst (fst (gap_context n references_content)).

(** An Internal record is classified SQL or Vector. *)
Definition internal_classified (c : citation) : Prop :=
  web_internal c = "Internal" -> vector_sql c = "SQL" \/ vector_sql c = "Vector".


(** The numbers the gap filler makes a record for or discards: those of
    [seen_brackets], completed from 1 to the maximum, that the parser has
    no record of. *)
Definition visited_by_gap_filler (text : string) (n : N) : Prop :=
  In n (numbers_needed (set_of_list (parsed_numbers text))
          (bracket_numbers (find_references_section text)))
  /\ ~ In n (parsed_numbers text).

(** The characters of a string that are not whitespace. *)
Fixpoint count_non_space (s : string) : nat :=
  match s with
  | "" => 0
  | String c s' => (if is_space c then 0 else 1) + count_non_space s'
  end.

(** The lines after the last line that holds the heading word. *)
Fixpoint after_last_marker (lines : list string) : option (list string) :=
  match lines with
  | [] => None
  | line :: rest =>
      match after_last_marker rest with
      | Some post => Some post
      | None => if is_marker_line line then Some rest else None
      end
  end.

(* ------------------------------------------------------------------ *)
(** ** Example texts *)

(** Scenario A: one Web entry, cited twice in the body. *)
Definition text_scenario_A : string :=
  "Body [1] and [1]." ++ NL ++ "References" ++ NL
  ++ "[1] [Web] Example Title: https://example.com".

(** A bare [[5]] under the heading. *)
Definition text_bare_bracket : string :=
  "Intro [5]." ++ NL ++ "References" ++ NL ++ "[5]".

(** A Web entry whose tag is followed by a colon at once and whose URL is
    on the next line: the citation pattern does not match it, the second
    context pattern does. *)
Definition text_gap_web : string :=
  "[1] [Web]: Title" ++ NL ++ "https://example.com".

(** The same shape with a headline of three characters, one of them a
    space. *)
Definition text_short_headline : string :=
  "[1] [Web]: a" ++ NL ++ "http://x.y".

(** Two entries for citation 1: the first with a link and a short
    headline, the second without a link and with a longer headline. *)
Definition text_duplicate : string :=
  "[1] [Web] Ab: https://a.com" ++ NL ++ "[1] [Web] Longer title:".

(** Two lines hold the word References, neither as a heading. *)
Definition text_two_markers : string :=
  "References: a" ++ NL ++ "x" ++ NL ++ "References: b" ++ NL ++ "y".

(** Citation 15 written [[015]], and an entry [[15]] inside the URL tail
    of entry 1. *)
Definition text_leading_zero : string :=
  "[015] [Web] A: http://u" ++ NL ++ "[1] [Web] T: see [15] [Web] X: http://y".

(** An entry [[15]] inside the URL tail of entry 1 and no other. *)
Definition text_hidden_15 : string :=
  "[1] [Web] T: see [15] [Web] X: http://y".

(* ------------------------------------------------------------------ *)
(** ** Notions for the study of the text normaliser *)

Fixpoint take_while (p : ascii -> bool) (s : string) : string :=
  match s with
  | String c s' => if p c then String c (take_while p s') else ""
  | "" => ""
  end.

Fixpoint drop_while (p : ascii -> bool) (s : string) : string :=
  match s with
  | String c s' => if p c then drop_while p s' else s
  | "" => ""
  end.

(** Every match of the pattern consumes something. *)
Definition nonempty_matches (r : regex) : Prop :=
  forall s g rest, match_here r s = Some (g, rest) ->
                   String.length rest < String.length s.

(** One pass of [re.sub] seen as a relation between the text and the
    result: a character at which the pattern does not match is copied, a
    match is replaced and the scan goes on after it. *)
Inductive sub_rel (r : regex) (repl : groups -> string)
  : string -> string -> Prop :=
| sub_nil : sub_rel r repl "" ""
| sub_skip (c : ascii) (s out : string) :
    match_here r (String c s) = None ->
    sub_rel r repl s out ->
    sub_rel r repl (String c s) (String c out)
| sub_hit (s : string) (g : groups) (rest out : string) :
    match_here r s = Some (g, rest) ->
    sub_rel r repl rest out ->
    sub_rel r repl s (repl g ++ out).

(** The replacement functions of [clean_text]. *)
Definition blank_repl (g : groups) : string := NL ++ NL.
Definition spaced_repl (g : groups) : string := group 1 g ++ " " ++ group 2 g.
Definition citation_repl (g : groups) : string :=
  "[" ++ group 1 g ++ "] [" ++ group 2 g ++ "] "
  ++ group 3 g ++ ": " ++ group 4 g.

(** The newlines in the whitespace a string starts with. *)
Fixpoint nl_count_ws (s : string) : nat :=
  match s with
  | String c s' =>
      if is_space c
      then (if Ascii.eqb c nl then 1 else 0) + nl_count_ws s'
      else 0
  | "" => 0
  end.

(** What follows the last newline of the whitespace a string starts
    with. *)
Fixpoint after_last_nl (s : string) : option string :=
  match s with
  | String c s' =>
      if is_space c then
        match after_last_nl s' with
        | Some rest => Some rest
        | None => if Ascii.eqb c nl then Some s' else None
        end
      else None
  | "" => None
  end.

(** A run of whitespace with three newlines from its first newline on;
    [k] is the number of newlines of the current run read so far. *)
Fixpoint blank_bad (k : nat) (s : string) : bool :=
  match s with
  | "" => false
  | String c s' =>
      if Ascii.eqb c nl then (2 <=? k)%nat || blank_bad (S k) s'
      else if is_space c then blank_bad k s'
      else blank_bad 0 s'
  end.

(** A character of the class [hi] right after one of the class [lo];
    [prev] tells whether the character just read is of the class
    [lo]. *)
Fixpoint pair_bad (lo hi : ascii -> bool) (prev : bool) (s : string) : bool :=
  match s with
  | "" => false
  | String c s' => (prev && hi c) || pair_bad lo hi (lo c) s'
  end.

(** A text in which runs of whitespace were replaced by one space, or
    one space inserted, each time right after a character [c] for which
    [ok c w b] holds, [w] being the run and [b] what follows it. *)
Inductive relaxed (ok : ascii -> string -> string -> Prop)
  : string -> string -> Prop :=
| rl_refl (s : string) : relaxed ok s s
| rl_char (c : ascii) (s s' : string) :
    relaxed ok s s' -> relaxed ok (String c s) (String c s')
| rl_site (c : ascii) (w b b' : string) :
    all_chars is_space w = true -> ok c w b -> relaxed ok b b' ->
    relaxed ok (String c (w ++ b)) (String c (String " " b')).

(** The continuations met inside the blank-run pattern: the final run of
    newlines, and the second newline with what follows it. *)
Definition k_newlines (s : string) : option (groups * string) :=
  match s with
  | String c s' =>
      if chr nl c then Some ([], drop_while (chr nl) s') else None
  | "" => None
  end.

Definition k_second (s : string) : option (groups * string) :=
  match s with
  | String c s' =>
      if chr nl c then option_map (pair []) (after_last_nl s') else None
  | "" => None
  end.


(** The shape of the second and third pattern of [clean_text]: a
    character of one class, then a character of another. *)
Definition pair_pattern (lo hi : ascii -> bool) : regex :=
  Seq (Grp 1 (Chr lo)) (Grp 2 (Chr hi)).

Definition starts_in (hi : ascii -> bool) (s : string) : bool :=
  match s with
  | String c _ => hi c
  | "" => false
  end.

Definition any_site (c : ascii) (w b : string) : Prop := True.

(** *** The citation pattern of the normaliser read as a parser *)

Definition obind {A B : Type} (x : option A) (f : A -> option B) : option B :=
  match x with
  | Some a => f a
  | None => None
  end.

(** The text after a given first character. *)
Definition expect (c : ascii) (s : string) : option string :=
  match s with
  | String d s' => if Ascii.eqb c d then Some s' else None
  | "" => None
  end.

(** A run of the class that is not empty, and what follows it. *)
Definition run1 (p : ascii -> bool) (s : string) : option (string * string) :=
  match take_while p s with
  | "" => None
  | t => Some (t, drop_while p s)
  end.

Definition not_rbracket : cls := neg (chr "]").
Definition not_colon : cls := neg (chr ":").

(** What follows a URL at the start of the string. *)
Definition parse_url (s : string) : option string :=
  if starts_with "http" s then
    let t := drop 4 s in
    let t := if starts_with "s" t then drop 1 t else t in
    if starts_with "://" t then
      match drop 3 t with
      | String c u => if not_ws c then Some (drop_while not_ws u) else None
      | "" => None
      end
    else None
  else None.

Fixpoint last_char (s : string) : string :=
  match s with
  | "" => ""
  | String c "" => String c ""
  | String _ s' => last_char s'
  end.

(** The third group within the text between the tag and the colon: the
    text without the whitespace it starts with, or its last character
    when it is all whitespace. *)
Definition headline_of (pre : string) : string :=
  match drop_while is_space pre with
  | "" => last_char pre
  | h => h
  end.

(** From the colon on: the whitespace, the URL as group 4. *)
Definition parse_tail (g : groups) (s : string) : option (groups * string) :=
  obind (expect ":" s) (fun s5 =>
  let s6 := drop_while is_space s5 in
  obind (parse_url s6) (fun rest =>
  Some ((4, consumed s6 rest) :: g, rest))).

Definition parse_citation (s : string) : option (groups * string) :=
  obind (expect "[" s) (fun s1 =>
  obind (run1 is_decimal s1) (fun d =>
  obind (expect "]" (snd d)) (fun s2 =>
  obind (expect "[" (drop_while is_space s2)) (fun s3 =>
  obind (run1 not_rbracket s3) (fun t =>
  obind (expect "]" (snd t)) (fun s4 =>
  obind (run1 not_colon s4) (fun pre =>
  parse_tail [(3, headline_of (fst pre)); (2, fst t); (1, fst d)]
             (snd pre)))))))).

(** The parts of the pattern from some point on. *)
Definition url_part : regex := Seq ws_star (Grp 4 url_re).
Definition colon_part : regex := Seq (lit ":") url_part.
Definition headline_part : regex :=
  Seq (Grp 3 (Plus true (neg (chr ":")))) colon_part.

(** The continuation at the end of a pattern: the match is found. *)
Definition final (rest : string) (g : groups) : option (groups * string) :=
  Some (g, rest).


(** A URL as the pattern takes it: the scheme and a run without
    whitespace. *)
Definition is_url (url : string) : Prop :=
  exists scheme u,
    url = scheme ++ u
    /\ (scheme = "http://" \/ scheme = "https://")
    /\ u <> "" /\ all_chars not_ws u = true.

(** *** The language of the citation pattern as an automaton *)

Inductive cstate : Type :=
| Q_open        (* the opening bracket of the number is awaited *)
| Q_digit0      (* the first digit *)
| Q_digits      (* more digits or the closing bracket *)
| Q_gap         (* whitespace, then the opening bracket of the tag *)
| Q_tag0        (* the first character of the tag *)
| Q_tag         (* more of the tag or its closing bracket *)
| Q_head0       (* the first character before the colon *)
| Q_head        (* more of it or the colon *)
| Q_gap3        (* whitespace, then the h of the scheme *)
| Q_h | Q_ht | Q_htt | Q_http | Q_https | Q_colon | Q_slash
| Q_url0        (* the first character after the scheme *)
| Q_acc
| Q_fail.

Definition cstep (st : cstate) (c : ascii) : cstate :=
  match st with
  | Q_open => if Ascii.eqb "[" c then Q_digit0 else Q_fail
  | Q_digit0 => if is_decimal c then Q_digits else Q_fail
  | Q_digits =>
      if is_decimal c then Q_digits
      else if Ascii.eqb "]" c then Q_gap else Q_fail
  | Q_gap =>
      if is_space c then Q_gap
      else if Ascii.eqb "[" c then Q_tag0 else Q_fail
  | Q_tag0 => if Ascii.eqb "]" c then Q_fail else Q_tag
  | Q_tag => if Ascii.eqb "]" c then Q_head0 else Q_tag
  | Q_head0 => if Ascii.eqb ":" c then Q_fail else Q_head
  | Q_head => if Ascii.eqb ":" c then Q_gap3 else Q_head
  | Q_gap3 =>
      if is_space c then Q_gap3
      else if Ascii.eqb "h" c then Q_h else Q_fail
  | Q_h => if Ascii.eqb "t" c then Q_ht else Q_fail
  | Q_ht => if Ascii.eqb "t" c then Q_htt else Q_fail
  | Q_htt => if Ascii.eqb "p" c then Q_http else Q_fail
  | Q_http =>
      if Ascii.eqb "s" c then Q_https
      else if Ascii.eqb ":" c then Q_colon else Q_fail
  | Q_https => if Ascii.eqb ":" c then Q_colon else Q_fail
  | Q_colon => if Ascii.eqb "/" c then Q_slash else Q_fail
  | Q_slash => if Ascii.eqb "/" c then Q_url0 else Q_fail
  | Q_url0 => if not_ws c then Q_acc else Q_fail
  | Q_acc => Q_acc
  | Q_fail => Q_fail
  end.

Fixpoint crun (st : cstate) (s : string) : cstate :=
  match s with
  | "" => st
  | String c s' => crun (cstep st c) s'
  end.

Definition is_acc (st : cstate) : bool :=
  match st with Q_acc => true | _ => false end.

(** The automaton accepts as soon as a prefix of the text is in the
    language of the pattern. *)
Definition accepts (st : cstate) (s : string) : bool := is_acc (crun st s).

Definition matched {A : Type} (x : option A) : bool :=
  match x with Some _ => true | None => false end.

(** The places at which the fourth pass puts its single spaces: after a
    closing bracket or a colon, before something that is not a colon. *)
Definition cite_site (c : ascii) (w b : string) : Prop :=
  (c = "]"%char \/ c = ":"%char) /\ starts_in (chr ":") b = false.

(** The four states that loop on whitespace. *)
Definition ws_stable (st : cstate) : Prop :=
  st = Q_gap \/ st = Q_tag \/ st = Q_head \/ st = Q_gap3.

Definition oacc {A : Type} (x : option A) (f : A -> bool) : bool :=
  match x with
  | Some a => f a
  | None => false
  end.

(** A run of a class that is not empty. *)
Definition run_of (p : ascii -> bool) (s : string) : Prop :=
  s <> "" /\ all_chars p s = true.

(* ------------------------------------------------------------------ *)
(** ** Notions for the order of the gap-filling loop *)

(** What one number adds to the records, given the numbers seen when the
    loop starts. *)
Definition gap_new (text refs : string) (seen : list N) (n : N) : list citation :=
  if mem n seen then []
  else match gap_record text refs n with
       | Some c => [c]
       | None => []
       end.

Definition number_lt (a b : citation) : Prop :=
  (citation_number a < citation_number b)%N.

(* ------------------------------------------------------------------ *)
(** ** Notions for the bracket numbers of the reference section *)

(** The groups of the matches of [re.findall], seen as a relation: the
    scan copies nothing, it only collects. *)
Inductive matches_rel (r : regex) : string -> list groups -> Prop :=
| mr_nil : matches_rel r "" []
| mr_skip (c : ascii) (s : string) (l : list groups) :
    match_here r (String c s) = None ->
    matches_rel r s l -> matches_rel r (String c s) l
| mr_hit (s : string) (g : groups) (rest : string) (l : list groups) :
    match_here r s = Some (g, rest) ->
    matches_rel r rest l -> matches_rel r s (g :: l).

(** An occurrence of a bracket number in a text. *)
Definition bracket_occurs (ds : string) (s : string) : Prop :=
  exists a b, s = a ++ String "[" (ds ++ String "]" b)
              /\ run_of is_decimal ds.

(* ------------------------------------------------------------------ *)
(** ** More of the analytics of [main] *)

Definition unique_web_count (citations : list citation) : nat :=
  List.length (filter is_web citations).
Definition total_web_occurrences (citations : list citation) : nat :=
  sum_occurrences (filter is_web citations).
Definition total_citations (citations : list citation) : nat :=
  List.length citations.
Definition total_occurrences_all (citations : list citation) : nat :=
  sum_occurrences citations.

(** The values a record may hold in its two labels. *)
Definition labels_ok (c : citation) : Prop :=
  (web_internal c = "Web" \/ web_internal c = "Internal")
  /\ (vector_sql c = "SQL" \/ vector_sql c = "Vector" \/ vector_sql c = "N/A")
  /\ (vector_sql c = "N/A" -> web_internal c = "Web").

(** The group numbers of a pattern. *)
Fixpoint gids (r : regex) : list nat :=
  match r with
  | Seq r1 r2 | Alt r1 r2 => (gids r1 ++ gids r2)%list
  | Opt r1 | Ahead r1 => gids r1
  | Grp i r1 => i :: gids r1
  | _ => []
  end.

(** [a] is a contiguous part of [s]. *)
Definition substring (a s : string) : Prop :=
  exists pre post, s = pre ++ a ++ post.

(** A character that is no whitespace other than the plain space. *)
Definition plain (c : ascii) : bool := negb (is_space c) || Ascii.eqb c " ".

(* ------------------------------------------------------------------ *)
(** ** The rows [main] hands to the CSV writer *)

(** A cell is an integer or a text. *)
Inductive cell : Type :=
| CInt (n : N)
| CText (s : string).

Definition count_cell (n : nat) : cell := CInt (N.of_nat n).

Definition is_na (c : citation) : bool := String.eqb (vector_sql c) "N/A".

Section Csv.
(** The text of a percentage, [a / b * 100] with one decimal and a
    percent sign, 0 when [b] is 0; the rows do not depend on how a float
    is printed. *)
Variable percent : nat -> nat -> string.

Definition main_headers : list cell :=
  [CText "Citation Number"; CText "Citation Headline"; CText "Citation Link";
   CText "Web/Internal"; CText "Total Occurrences"; CText "Vector/SQL"].
Definition analytics_headers : list cell := [CText "Metric"; CText "Value"].

Definition analytics_rows (citations : list citation) : list (list cell) :=
  let total := total_occurrences_all citations in
  [ [CText "Total Citations"; count_cell (total_citations citations)];
    [CText "Web Citations"; count_cell (unique_web_count citations)];
    [CText "Internal Citations"; count_cell (unique_internal_count citations)];
    [CText "Vector Citations";
     count_cell (List.length (internal_vector_citations citations))];
    [CText "SQL Citations";
     count_cell (List.length (internal_sql_citations citations))];
    [CText "N/A Citations"; count_cell (List.length (filter is_na citations))];
    [CText "Total Occurrences"; count_cell total];
    [CText "Web Occurrences"; count_cell (total_web_occurrences citations)];
    [CText "Internal Occurrences";
     count_cell (total_internal_occurrences citations)];
    [CText "Vector Occurrences";
     count_cell (internal_vector_occurrences citations)];
    [CText "SQL Occurrences"; count_cell (internal_sql_occurrences citations)];
    [CText "N/A Occurrences";
     count_cell (sum_occurrences (filter is_na citations))];
    [CText "Internal %";
     CText (percent (total_internal_occurrences citations) total)];
    [CText "Web %"; CText (percent (total_web_occurrences citations) total)];
    [CText "Vector %";
     CText (percent (internal_vector_occurrences citations) total)];
    [CText "SQL %"; CText (percent (internal_sql_occurrences citations) total)];
    [CText "N/A %";
     CText (percent (sum_occurrences (filter is_na citations)) total)] ].

(** The left side of a row: the six fields of a record. *)
Definition left_cells (c : citation) : list cell :=
  [CInt (citation_number c); CText (citation_headline c);
   CText (citation_link c); CText (web_internal c);
   count_cell (total_occurrences c); CText (vector_sql c)].

Definition blanks (n : nat) : list cell := repeat (CText "") n.

(** The body of the loop over [range(max_rows)]. *)
Definition csv_row (citations : list citation) (rows : list (list cell))
  (i : nat) : list cell :=
  let left :=
    match nth_error citations i with
    | Some c => left_cells c
    | None => blanks (List.length main_headers)
    end in
  let right :=
    match nth_error rows i with
    | Some r => r
    | None => blanks (List.length analytics_headers)
    end in
  (left ++ [CText ""] ++ right)%list.

(** The rows written, the header first. *)
Definition csv_rows (citations : list citation) : list (list cell) :=
  let rows := analytics_rows citations in
  let max_rows := Nat.max (List.length citations) (List.length rows) in
  (main_headers ++ [CText ""] ++ analytics_headers)%list
  :: map (csv_row citations rows) (seq 0 max_rows).
End Csv.

(** Reading a record back from the left side of a row. *)
Definition read_cells (cells : list cell) : option citation :=
  match cells with
  | [CInt n; CText h; CText l; CText w; CInt k; CText v] =>
      Some (Citation n h l w (N.to_nat k) v)
  | _ => None
  end.

(* ------------------------------------------------------------------ *)
(** ** Entries of a reference list as they are meant to be written *)

(** An entry: number, tag, headline and URL. *)
Record entry : Type := Entry {
  entry_number : N;
  entry_tag : string;
  entry_headline : string;
  entry_url : string
}.

(** The line of an entry: the number and the tag in brackets, the
    headline, a colon and the URL. *)
Definition render (e : entry) : string :=
  "[" ++ str_of_int (entry_number e) ++ "] [" ++ entry_tag e ++ "] "
  ++ entry_headline e ++ ": " ++ entry_url e.

(** A URL with a scheme and something after it. *)
Definition url_shaped (u : string) : bool :=
  (starts_with "http://" u && (7 <? String.length u)%nat)
  || (starts_with "https://" u && (8 <? String.length u)%nat).

(** The tag is not empty and holds no closing bracket; the headline is
    not empty, holds no colon and does not begin with whitespace; the URL
    is a URL without whitespace and without the marker the cleanup
    removes. *)
Definition well_formed (e : entry) : bool :=
  nonempty (entry_tag e) && all_chars (neg (chr "]")) (entry_tag e)
  && nonempty (entry_headline e)
  && all_chars (neg (chr ":")) (entry_headline e)
  && negb (starts_in is_space (entry_headline e))
  && url_shaped (entry_url e) && all_chars not_ws (entry_url e)
  && negb (contains "Govtsource:" (entry_url e)).

(** The raw match of an entry. *)
Definition entry_fields (e : entry) : raw_match :=
  (str_of_int (entry_number e), entry_tag e, entry_headline e, entry_url e).

Definition entry_groups (e : entry) : groups :=
  [(4, entry_url e); (3, entry_headline e); (2, entry_tag e);
   (1, str_of_int (entry_number e))]%nat.

(** The record an entry is meant to give. *)
Definition entry_record (text : string) (e : entry) : citation :=
  let label :=
    if contains "Web" (entry_tag e) then "Web"
    else if contains "Internal" (entry_tag e) then "Internal"
    else "Web" in
  Citation (entry_number e)
           (collapse_ws (strip (entry_headline e)))
           (entry_url e)
           label
           (count_citation_occurrences (entry_number e) text)
           (if String.eqb label "Internal"
            then classify_citation_type (entry_url e) else "N/A").

(** A continuation that fails on every text that begins with a character
    of the class. *)
Definition averse {A : Type} (q : cls)
  (k : string -> groups -> option A) : Prop :=
  forall c s g, q c = true -> k (String c s) g = None.

(** Where an entry may end: at the end of the text or before the line of
    the next entry. *)
Definition entry_end (rest : string) : Prop :=
  rest = "" \/ exists r, rest = String nl (String "[" r).

(** A text with a reference list of two well-written entries. *)
Definition entries_two : list entry :=
  [Entry 1 "Web" "First  title" "https://a.example/x";
   Entry 2 "Internal" "Second one" "https://mospi.gov.in/GSVA-NSVA"].

Definition text_two_entries : string :=
  "Body [1] and [2], again [1]." ++ NL ++ "References" ++ NL
  ++ join_lines (map render entries_two).

(** A well-formed entry whose fields hold no opening bracket and whose
    tag does not begin with a digit. *)
Definition plainly_written (e : entry) : bool :=
  well_formed e
  && all_chars (neg (chr "[")) (entry_tag e)
  && all_chars (neg (chr "[")) (entry_headline e)
  && all_chars (neg (chr "[")) (entry_url e)
  && negb (starts_in is_decimal (entry_tag e)).

(** The number of an entry in brackets and the rest of its line. *)
Definition entry_head_text (e : entry) : string :=
  str_of_int (entry_number e) ++ "] ".
Definition entry_tail_text (e : entry) : string :=
  entry_tag e ++ "] " ++ entry_headline e ++ ": " ++ entry_url e.

(* ------------------------------------------------------------------ *)
(** ** The heading of the reference section, read directly *)

(** [s] begins with [p], the letter case left aside. *)
Fixpoint starts_with_i (p s : string) {struct p} : bool :=
  match p with
  | "" => true
  | String a p' =>
      match s with
      | String b s' => chr_i a b && starts_with_i p' s'
      | "" => false
      end
  end.

(** The heading stands at the start of [s]: the word, in any letter
    case, and then whitespace that holds a newline. *)
Definition heading_here (s : string) : bool :=
  starts_with_i "References" s
  && matched (after_last_nl (drop (String.length "References") s)).

(** What the heading pattern hands to its continuation after the
    whitespace: the rest of the text, when a newline comes first. *)
Definition k_rest (s : string) : option (groups * string) :=
  match s with
  | String c s' => if chr nl c then Some ([(1, s')]%nat, "") else None
  | "" => None
  end.

(** An entry whose URL is missing: the line ends with the colon. *)
Definition render_without_url (e : entry) : string :=
  "[" ++ str_of_int (entry_number e) ++ "] [" ++ entry_tag e ++ "] "
  ++ entry_headline e ++ ":".

(** The conditions of [well_formed] on the tag and the headline. *)
Definition head_formed (e : entry) : bool :=
  nonempty (entry_tag e) && all_chars (neg (chr "]")) (entry_tag e)
  && nonempty (entry_headline e)
  && all_chars (neg (chr ":")) (entry_headline e)
  && negb (starts_in is_space (entry_headline e)).

Definition not_nl (c : ascii) : bool := negb (Ascii.eqb c nl).

(* ------------------------------------------------------------------ *)
(** ** The text of a document and what [main] does with it *)

(** The characters of a text that are not whitespace. *)
Fixpoint visible (s : string) : string :=
  match s with
  | "" => ""
  | String c s' => if is_space c then visible s' else String c (visible s')
  end.

(** [join] on a blank line *)
Fixpoint join_pages (pages : list string) : string :=
  match pages with
  | [] => ""
  | [p] => p
  | p :: pages' => p ++ NL ++ NL ++ join_pages pages'
  end.

(** The document is the list of the texts of its pages, as the PDF
    library gives them; [None] stands for an exception while the document
    is read, which the function reports and turns into [None]. *)
Definition extract_text_from_pdf (doc : option (list string)) : option string :=
  option_map (fun pages => join_pages (map clean_text pages)) doc.

(** What [main] shows: the prompt to upload a file, the failure of the
    extraction, the warning that no citation was found, or the records
    with the rows of the CSV. *)
Inductive outcome : Type :=
| Prompt
| Failed
| NoCitations
| Report (citations : list citation) (rows : list (list cell)).

Definition main (percent : nat -> nat -> string)
  (uploaded_file : option (option (list string))) : outcome :=
  match uploaded_file with
  | None => Prompt
  | Some doc =>
      match extract_text_from_pdf doc with
      | Some extracted_text =>
          if nonempty extracted_text then
            match extract_citations_directly extracted_text with
            | [] => NoCitations
            | citations => Report citations (csv_rows percent citations)
            end
          else Failed
      | None => Failed
      end
  end.

(** Three entries, the first and the last for citation 1, the one of
    citation 2 between them. *)
Definition text_three_matches : string :=
  "[1] [Web] Ab: https://a.com" ++ NL
  ++ "[2] [Internal] Other: http://b.org" ++ NL
  ++ "[1] [Web] Longer title:".

(** A text whose second bracket number has 4301 digits. *)
Fixpoint replicate (n : nat) (c : ascii) : string :=
  match n with
  | O => ""
  | S n' => String c (replicate n' c)
  end.

Definition long_number : string := replicate (S int_max_str_digits) "1".

Definition text_long_number : string :=
  "[1] [Web] T: http://x" ++ NL ++ "[" ++ long_number ++ "]".
(* ------------------------------------------------------------------ *)
(** ** Sets and the dict *)

Lemma mem_In (n : N) (s : list N) : mem n s = true <-> In n s.
Proof.
  unfold mem. rewrite existsb_exists. split.
  - intros [x [Hx He]]. apply N.eqb_eq in He. now subst.
  - intro H. exists n. split; [assumption | apply N.eqb_refl].
Qed.

Lemma mem_false (n : N) (s : list N) : mem n s = false <-> ~ In n s.
Proof.
  rewrite <- mem_In. destruct (mem n s); split; intros; congruence.
Qed.

Lemma set_add_In (x n : N) (s : list N) :
  In x (set_add n s) <-> x = n \/ In x s.
Proof.
  unfold set_add. destruct (mem n s) eqn:E.
  - apply mem_In in E. split; [now right | intros [-> | H]; assumption].
  - rewrite in_app_iff. simpl. intuition congruence.
Qed.

Lemma set_add_NoDup (n : N) (s : list N) : NoDup s -> NoDup (set_add n s).
Proof.
  intro H. unfold set_add. destruct (mem n s) eqn:E; [assumption |].
  apply mem_false in E. apply NoDup_app; [assumption | repeat constructor; auto |].
  intros x Hx [<- | []]. contradiction.
Qed.

Lemma set_of_list_acc (l : list N) : forall acc x,
  In x (fold_left (fun s n => set_add n s) l acc) <-> In x acc \/ In x l.
Proof.
  induction l as [|a l IH]; intros acc x; simpl.
  - tauto.
  - rewrite IH, set_add_In. intuition congruence.
Qed.

Lemma set_of_list_In (l : list N) (x : N) : In x (set_of_list l) <-> In x l.
Proof. unfold set_of_list. rewrite set_of_list_acc. simpl. tauto. Qed.

Lemma set_of_list_NoDup_acc (l : list N) : forall acc,
  NoDup acc -> NoDup (fold_left (fun s n => set_add n s) l acc).
Proof.
  induction l as [|a l IH]; intros acc H; simpl; [assumption |].
  apply IH. now apply set_add_NoDup.
Qed.

Lemma set_of_list_NoDup (l : list N) : NoDup (set_of_list l).
Proof. apply set_of_list_NoDup_acc. constructor. Qed.

Lemma dict_get_None (k : N) (d : dict) :
  dict_get k d = None <-> ~ In k (map fst d).
Proof.
  induction d as [|[k' v] d IH]; simpl.
  - tauto.
  - destruct (N.eqb_spec k k') as [->|Hne].
    + split; [discriminate | intros H; exfalso; apply H; now left].
    + rewrite IH. intuition congruence.
Qed.

Lemma dict_get_Some (k : N) (d : dict) (v : citation) :
  dict_get k d = Some v -> In (k, v) d.
Proof.
  induction d as [|[k' v'] d IH]; simpl; [discriminate |].
  destruct (N.eqb_spec k k') as [->|Hne].
  - intros [= ->]. now left.
  - intro H. right. auto.
Qed.

Lemma dict_set_keys_present (k : N) (v : citation) (d : dict) :
  In k (map fst d) -> map fst (dict_set k v d) = map fst d.
Proof.
  induction d as [|[k' v'] d IH]; simpl; [tauto |].
  destruct (N.eqb_spec k k') as [->|Hne]; simpl; [reflexivity |].
  intros [H | H]; [congruence | now rewrite IH].
Qed.

Lemma dict_set_keys_absent (k : N) (v : citation) (d : dict) :
  ~ In k (map fst d) -> map fst (dict_set k v d) = (map fst d ++ [k])%list.
Proof.
  induction d as [|[k' v'] d IH]; simpl; [reflexivity |].
  destruct (N.eqb_spec k k') as [->|Hne]; simpl.
  - intro H. exfalso. apply H. now left.
  - intro H. rewrite IH; [reflexivity | tauto].
Qed.

Lemma dict_set_In (k : N) (v : citation) (d : dict) (kv : N * citation) :
  In kv (dict_set k v d) -> kv = (k, v) \/ In kv d.
Proof.
  induction d as [|[k' v'] d IH]; simpl.
  - intuition.
  - destruct (N.eqb_spec k k') as [->|Hne]; simpl; intuition.
Qed.

Lemma dict_set_ok (v : citation) (d : dict) :
  dict_ok d -> dict_ok (dict_set (citation_number v) v d).
Proof.
  intros [Hnd Hall]. split.
  - destruct (in_dec N.eq_dec (citation_number v) (map fst d)) as [Hin | Hnin].
    + now rewrite dict_set_keys_present.
    + rewrite dict_set_keys_absent by assumption.
      apply NoDup_app; [assumption | repeat constructor; auto |].
      intros x Hx [<- | []]. contradiction.
  - rewrite Forall_forall in *. intros kv Hkv.
    apply dict_set_In in Hkv. destruct Hkv as [-> | Hkv]; [reflexivity | auto].
Qed.

Lemma choose_best_ok (d : dict) (c : citation) :
  dict_ok d -> dict_ok (choose_best d c).
Proof.
  intro H. unfold choose_best.
  destruct (dict_get (citation_number c) d);
    repeat match goal with |- context [if ?b then _ else _] => destruct b end;
    auto using dict_set_ok.
Qed.

Lemma choose_best_In (d : dict) (c : citation) (kv : N * citation) :
  In kv (choose_best d c) -> kv = (citation_number c, c) \/ In kv d.
Proof.
  unfold choose_best.
  destruct (dict_get (citation_number c) d);
    repeat match goal with |- context [if ?b then _ else _] => destruct b end;
    intro H; auto using dict_set_In.
Qed.

Lemma choose_best_keys (d : dict) (c : citation) (k : N) :
  In k (map fst (choose_best d c)) <-> k = citation_number c \/ In k (map fst d).
Proof.
  assert (Hset : In k (map fst (dict_set (citation_number c) c d))
                 <-> k = citation_number c \/ In k (map fst d)).
  { destruct (in_dec N.eq_dec (citation_number c) (map fst d)) as [Hin | Hnin].
    - rewrite dict_set_keys_present by assumption. intuition congruence.
    - rewrite dict_set_keys_absent, in_app_iff by assumption. simpl.
      intuition congruence. }
  unfold choose_best. destruct (dict_get (citation_number c) d) eqn:E.
  - assert (Hin : In (citation_number c) (map fst d)).
    { apply dict_get_Some in E. now apply (in_map fst) in E. }
    repeat match goal with |- context [if ?b then _ else _] => destruct b end;
      try assumption; intuition congruence.
  - assumption.
Qed.

Section PrimaryDict.
Variable text : string.

Lemma primary_fold_ok (ms : list raw_match) : forall d,
  dict_ok d ->
  dict_ok (fold_left (fun d m => choose_best d (primary_record text m)) ms d).
Proof.
  induction ms as [|m ms IH]; intros d H; simpl; [assumption |].
  apply IH. now apply choose_best_ok.
Qed.

Lemma primary_fold_In (ms : list raw_match) : forall d kv,
  In kv (fold_left (fun d m => choose_best d (primary_record text m)) ms d) ->
  In kv d \/ exists m, In m ms /\ snd kv = primary_record text m.
Proof.
  induction ms as [|m ms IH]; intros d kv H; simpl in *; [now left |].
  apply IH in H. destruct H as [H | [m' [Hm' He]]].
  - apply choose_best_In in H. destruct H as [-> | H]; [| now left].
    right. exists m. split; [now left | reflexivity].
  - right. exists m'. split; [now right | assumption].
Qed.

Lemma primary_fold_keys (ms : list raw_match) : forall d k,
  In k (map fst (fold_left (fun d m => choose_best d (primary_record text m)) ms d))
  <-> In k (map fst d)
      \/ In k (map (fun m => citation_number (primary_record text m)) ms).
Proof.
  induction ms as [|m ms IH]; intros d k; simpl; [tauto |].
  rewrite IH, choose_best_keys. intuition congruence.
Qed.

Lemma primary_dict_ok (ms : list raw_match) : dict_ok (primary_dict text ms).
Proof.
  apply primary_fold_ok. split; constructor.
Qed.

Lemma primary_dict_In (ms : list raw_match) (c : citation) :
  In c (dict_values (primary_dict text ms)) ->
  exists m, In m ms /\ c = primary_record text m.
Proof.
  unfold dict_values. rewrite in_map_iff. intros [kv [<- H]].
  apply primary_fold_In in H. destruct H as [[] | H]. exact H.
Qed.

Lemma primary_dict_numbers (ms : list raw_match) :
  map citation_number (dict_values (primary_dict text ms))
  = map fst (primary_dict text ms).
Proof.
  destruct (primary_dict_ok ms) as [_ H]. unfold dict_values.
  rewrite map_map. apply map_ext_in. intros kv Hkv.
  rewrite Forall_forall in H. now apply H.
Qed.
End PrimaryDict.

(* ------------------------------------------------------------------ *)
(** ** The gap-filling loop *)

Lemma gap_record_number (text refs : string) (n : N) (c : citation) :
  gap_record text refs n = Some c -> citation_number c = n.
Proof.
  unfold gap_record. destruct (gap_context n refs) as [[h l] w].
  destruct (malformed h); [discriminate |]. now intros [= <-].
Qed.

Section GapLoop.
Variables text refs : string.

Lemma gap_step_inv (st : list N * list citation) (n : N) :
  gap_inv st -> gap_inv (gap_step text refs st n).
Proof.
  destruct st as [seen cs]. intros [Hnd Hsub]. unfold gap_step. simpl in *.
  destruct (mem n seen) eqn:Em; simpl; [now split |].
  apply mem_false in Em.
  destruct (gap_record text refs n) as [c|] eqn:Eg; split; simpl.
  - rewrite map_app. simpl. apply gap_record_number in Eg.
    apply NoDup_app; [assumption | repeat constructor; auto |].
    intros x Hx [<- | []]. apply in_map_iff in Hx.
    destruct Hx as [c' [Hc' Hin]]. apply Hsub in Hin. congruence.
  - intros c' Hc'. apply set_add_In. apply in_app_iff in Hc'.
    destruct Hc' as [Hc' | [<- | []]]; [right; auto |].
    left. now apply gap_record_number in Eg.
  - assumption.
  - intros c' Hc'. apply set_add_In. right. auto.
Qed.

Lemma gap_loop_inv (l : list N) : forall st,
  gap_inv st -> gap_inv (gap_loop text refs l st).
Proof.
  induction l as [|n l IH]; intros st H; simpl; [assumption |].
  apply IH. now apply gap_step_inv.
Qed.

Lemma gap_step_seen (st : list N * list citation) (n x : N) :
  In x (fst (gap_step text refs st n)) <-> In x (fst st) \/ x = n.
Proof.
  destruct st as [seen cs]. unfold gap_step.
  destruct (mem n seen) eqn:Em; simpl.
  - apply mem_In in Em. intuition congruence.
  - destruct (gap_record text refs n); simpl; rewrite set_add_In; tauto.
Qed.

(** Every record of the final state was there at the start or was made
    by [gap_record] for a number of the list. *)
Lemma gap_loop_In (l : list N) : forall st c,
  In c (snd (gap_loop text refs l st)) ->
  In c (snd st) \/ exists n, In n l /\ ~ In n (fst st)
                             /\ gap_record text refs n = Some c.
Proof.
  induction l as [|n l IH]; intros st c H; simpl in *; [now left |].
  apply IH in H. destruct H as [H | [n' [Hn' [Hseen He]]]].
  - destruct st as [seen cs]. unfold gap_step in H.
    destruct (mem n seen) eqn:Em; simpl in *; [now left |].
    apply mem_false in Em.
    destruct (gap_record text refs n) as [c'|] eqn:Eg; simpl in *.
    + apply in_app_iff in H. destruct H as [H | [<- | []]]; [now left |].
      right. exists n. auto.
    + now left.
  - right. exists n'. repeat split; auto.
    intro Hin. apply Hseen. apply gap_step_seen. now left.
Qed.

Lemma gap_step_keeps (st : list N * list citation) (n : N) (c : citation) :
  In c (snd st) -> In c (snd (gap_step text refs st n)).
Proof.
  destruct st as [seen cs]. unfold gap_step. intro H.
  destruct (mem n seen); simpl; [assumption |].
  destruct (gap_record text refs n); simpl; [| assumption].
  apply in_app_iff. now left.
Qed.

Lemma gap_loop_keeps (l : list N) : forall st c,
  In c (snd st) -> In c (snd (gap_loop text refs l st)).
Proof.
  induction l as [|n l IH]; intros st c H; simpl; [assumption |].
  apply IH. now apply gap_step_keeps.
Qed.

(** A number of the list that was not seen before gets its record, if
    [gap_record] makes one. *)
Lemma gap_loop_adds (l : list N) : forall st n c,
  In n l -> ~ In n (fst st) -> gap_record text refs n = Some c ->
  In c (snd (gap_loop text refs l st)).
Proof.
  induction l as [|a l IH]; intros st n c Hin Hseen Hg; simpl in *; [tauto |].
  destruct (N.eq_dec a n) as [-> | Hne].
  - apply gap_loop_keeps. destruct st as [seen cs]. unfold gap_step.
    simpl in Hseen. apply mem_false in Hseen. rewrite Hseen. simpl.
    rewrite Hg. simpl. apply in_app_iff. right. now left.
  - destruct Hin as [Hin | Hin]; [congruence |].
    apply (IH _ n c Hin); [| assumption].
    rewrite gap_step_seen. intros [H | H]; [contradiction | congruence].
Qed.
End GapLoop.

(* ------------------------------------------------------------------ *)
(** ** Sorting by number *)

Lemma insert_by_number_perm (x : citation) (l : list citation) :
  Permutation (x :: l) (insert_by_number x l).
Proof.
  induction l as [|y l IH]; simpl; [reflexivity |].
  destruct (citation_number x <=? citation_number y)%N; [reflexivity |].
  rewrite perm_swap. now apply perm_skip.
Qed.

Lemma sort_by_number_perm (l : list citation) :
  Permutation l (sort_by_number l).
Proof.
  induction l as [|x l IH]; simpl; [reflexivity |].
  rewrite <- insert_by_number_perm. now apply perm_skip.
Qed.

Lemma insert_by_number_sorted (x : citation) (l : list citation) :
  Sorted number_le l -> Sorted number_le (insert_by_number x l).
Proof.
  induction l as [|y l IH]; intro H; simpl.
  - repeat constructor.
  - destruct (N.leb_spec (citation_number x) (citation_number y)) as [Hle | Hgt].
    + constructor; [assumption | now constructor].
    + inversion H as [| ? ? Hs Hh]; subst. constructor; [now apply IH |].
      destruct l as [|z l]; simpl.
      * constructor. unfold number_le. lia.
      * destruct (N.leb_spec (citation_number x) (citation_number z)).
        -- constructor. unfold number_le. lia.
        -- inversion Hh; subst. now constructor.
Qed.

Lemma sort_by_number_sorted (l : list citation) :
  Sorted number_le (sort_by_number l).
Proof.
  induction l as [|x l IH]; simpl; [constructor |].
  now apply insert_by_number_sorted.
Qed.

Lemma sort_by_number_In (l : list citation) (c : citation) :
  In c (sort_by_number l) <-> In c l.
Proof.
  split; apply Permutation_in;
    [symmetry |]; apply sort_by_number_perm.
Qed.

(** A list of numbers in non-decreasing order without repetition is in
    strictly increasing order. *)
Lemma sorted_nodup_strict (l : list N) :
  StronglySorted N.le l -> NoDup l -> StronglySorted N.lt l.
Proof.
  induction 1 as [|a l Hs IH Hall]; intro Hnd; constructor.
  - apply IH. now inversion Hnd.
  - inversion Hnd as [|? ? Hnin _]; subst.
    rewrite Forall_forall in *. intros x Hx.
    specialize (Hall x Hx). assert (a <> x) by (intros ->; contradiction). lia.
Qed.

Lemma sorted_numbers (l : list citation) :
  Sorted number_le l -> StronglySorted N.le (map citation_number l).
Proof.
  intro H. apply Sorted_StronglySorted in H.
  - induction H as [|a l Hs IH Hall]; simpl; constructor; [assumption |].
    rewrite Forall_forall in *. intros x Hx. apply in_map_iff in Hx.
    destruct Hx as [c [<- Hc]]. now apply Hall.
  - intros a b c. unfold number_le. lia.
Qed.

(* ------------------------------------------------------------------ *)
(** ** Where the records of the output come from *)

Section Extraction.
Variable order : list N -> list N.
Variable text : string.

Let refs := find_references_section text.
Let matches1 := map clean_match (raw_matches refs).
Let parsed := dict_values (primary_dict text matches1).
Let seen0 := set_of_list (map citation_number parsed).
Let needed := numbers_needed seen0 (bracket_numbers refs).
Let final := gap_loop text refs (order needed) (seen0, parsed).

Lemma extract_unfold :
  extract_with_order order text = sort_by_number (snd final).
Proof.
  unfold extract_with_order, final, gap_loop, needed, seen0, parsed,
    matches1, refs.
  now destruct (fold_left _ _ _).
Qed.

Lemma start_inv : gap_inv (seen0, parsed).
Proof.
  split; simpl.
  - unfold parsed. rewrite primary_dict_numbers.
    apply (primary_dict_ok text matches1).
  - intros c Hc. apply set_of_list_In. now apply in_map.
Qed.

(** Every record of the output was made by the parser from a cleaned
    raw match, or by the gap filler for a number the parser has no
    record of. *)
Lemma extract_provenance (c : citation) :
  In c (extract_with_order order text) ->
  (exists m, In m matches1 /\ c = primary_record text m)
  \/ (exists n, ~ In n (map citation_number parsed)
                /\ gap_record text refs n = Some c).
Proof.
  rewrite extract_unfold, sort_by_number_In. intro H.
  apply gap_loop_In in H. simpl in H. destruct H as [H | [n [_ [Hn Hg]]]].
  - left. now apply primary_dict_In.
  - right. exists n. split; [| assumption].
    intro Hin. apply Hn. now apply set_of_list_In.
Qed.

Lemma extract_numbers_nodup :
  NoDup (map citation_number (extract_with_order order text)).
Proof.
  rewrite extract_unfold.
  apply (Permutation_NoDup
           (l := map citation_number (snd final))).
  - apply Permutation_map, sort_by_number_perm.
  - apply (gap_loop_inv text refs (order needed) (seen0, parsed) start_inv).
Qed.
End Extraction.

(* ------------------------------------------------------------------ *)
(** ** Strings *)

Lemma append_empty_r (s : string) : s ++ "" = s.
Proof. induction s as [|c s IH]; simpl; congruence. Qed.

Lemma append_assoc (a b c : string) : (a ++ b) ++ c = a ++ (b ++ c).
Proof. induction a as [|x a IH]; simpl; congruence. Qed.

Lemma append_length (a b : string) :
  String.length (a ++ b) = String.length a + String.length b.
Proof. induction a as [|x a IH]; simpl; congruence. Qed.

Lemma drop_length (n : nat) : forall s,
  String.length (drop n s) = String.length s - n.
Proof.
  induction n as [|n IH]; intros [|c s]; simpl; auto.
Qed.

Lemma take_length (n : nat) : forall s,
  n <= String.length s -> String.length (take n s) = n.
Proof.
  induction n as [|n IH]; intros [|c s]; simpl; intro H; auto; try lia.
  rewrite IH; lia.
Qed.

Lemma starts_with_length (p : string) : forall s,
  starts_with p s = true -> String.length p <= String.length s.
Proof.
  induction p as [|a p IH]; intros [|b s]; simpl; intro H;
    try discriminate; try lia.
  apply andb_prop in H. destruct H as [_ H]. apply IH in H. lia.
Qed.

Lemma consumed_drop (n : nat) (s : string) :
  n <= String.length s -> consumed s (drop n s) = take n s.
Proof.
  intro H. unfold consumed. rewrite drop_length. f_equal. lia.
Qed.

(* ------------------------------------------------------------------ *)
(** ** The matcher on literals *)

Lemma rmatch_lit (tok : string) : forall (A : Type) s g
  (k : string -> groups -> option A),
  rmatch (lit tok) s g k
  = if starts_with tok s then k (drop (String.length tok) s) g else None.
Proof.
  induction tok as [|a tok IH]; intros A s g k; [reflexivity |].
  destruct tok as [|b tok'].
  - destruct s as [|c s]; simpl; [reflexivity |]. unfold chr.
    destruct (Ascii.eqb a c); reflexivity.
  - change (lit (String a (String b tok')))
      with (Seq (Chr (chr a)) (lit (String b tok'))).
    cbn [rmatch]. destruct s as [|c s]; [reflexivity |].
    cbn [starts_with String.length drop]. unfold chr.
    destruct (Ascii.eqb a c); cbn [andb]; [| reflexivity].
    apply IH.
Qed.

Lemma match_here_lit (tok s : string) :
  match_here (lit tok) s
  = if starts_with tok s then Some ([], drop (String.length tok) s) else None.
Proof. unfold match_here. apply rmatch_lit. Qed.

(** The text skipped before a match only accumulates. *)
Lemma search_acc_skipped (r : regex) (s : string) : forall skipped,
  search_acc r skipped s
  = option_map (fun m => Found (skipped ++ before m) (whole m) (grps m) (after m))
               (search_acc r "" s).
Proof.
  induction s as [|c s IH]; intro skipped; simpl.
  - destruct (match_here r "") as [[g rest]|]; simpl; [| reflexivity].
    now rewrite append_empty_r.
  - destruct (match_here r (String c s)) as [[g rest]|]; simpl.
    + now rewrite append_empty_r.
    + rewrite (IH (skipped ++ String c "")), (IH (String c "")).
      destruct (search_acc r "" s) as [m|]; simpl; [| reflexivity].
      now rewrite append_assoc.
Qed.

(** A character at which nothing matches does not change the matches
    that follow. *)
Lemma finditer_fuel_skip (r : regex) (f : nat) (c : ascii) (s : string) :
  match_here r (String c s) = None ->
  List.length (finditer_fuel (S f) r (String c s))
  = List.length (finditer_fuel (S f) r s).
Proof.
  intro H. cbn [finditer_fuel]. unfold search. cbn [search_acc]. rewrite H.
  rewrite search_acc_skipped. destruct (search_acc r "" s) as [m|]; reflexivity.
Qed.

Lemma count_lit_fuel (tok : string) : tok <> "" ->
  forall f' s f, String.length s < f' -> String.length s < f ->
  List.length (finditer_fuel f (lit tok) s) = count_token_fuel f' tok s.
Proof.
  intros Hne f'. induction f' as [|f' IH]; intros s f Hf' Hf; [lia |].
  destruct f as [|f]; [lia |].
  destruct s as [|c s].
  - cbn. unfold match_here. rewrite rmatch_lit.
    destruct tok; [congruence | reflexivity].
  - cbn [count_token_fuel]. destruct (starts_with tok (String c s)) eqn:Es.
    + cbn [finditer_fuel]. unfold search. cbn [search_acc].
      rewrite match_here_lit, Es. cbn [whole after].
      assert (Hlen := starts_with_length _ _ Es).
      assert (Htok : 0 < String.length tok)
        by (destruct tok; simpl; [congruence | lia]).
      destruct (consumed (String c s) (drop (String.length tok) (String c s)))
        eqn:Ew.
      { rewrite consumed_drop in Ew by assumption.
        apply (f_equal String.length) in Ew. rewrite take_length in Ew by assumption.
        cbn [String.length] in Ew. lia. }
      cbn [List.length]. f_equal.
      cbn [String.length] in *. apply IH; rewrite drop_length; cbn [String.length]; lia.
    + rewrite finditer_fuel_skip by (now rewrite match_here_lit, Es).
      cbn [String.length] in *. apply IH; lia.
Qed.

(** Counting by [re.findall] on the escaped token is counting the
    occurrences of the token. *)
Lemma count_citation_occurrences_spec (n : N) (text : string) :
  count_citation_occurrences n text = count_token (bracket_token n) text.
Proof.
  unfold count_citation_occurrences, finditer, count_token, Pat.bracketed.
  apply count_lit_fuel; [discriminate | lia | lia].
Qed.

(* ------------------------------------------------------------------ *)
(** ** The numbers the gap filler visits *)

Lemma range1_In (m n : N) : In n (range1 m) <-> (1 <= n <= m)%N.
Proof.
  unfold range1. rewrite in_map_iff. split.
  - intros [k [<- Hk]]. apply in_seq in Hk. lia.
  - intro H. exists (N.to_nat n). split; [apply N2Nat.id |].
    apply in_seq. lia.
Qed.

Lemma numbers_needed_acc (seen : list N) (l : list N) : forall acc n,
  In n (fold_left (fun s n => if negb (mem n seen) then set_add n s else s) l acc)
  <-> In n acc \/ (In n l /\ ~ In n seen).
Proof.
  induction l as [|a l IH]; intros acc n; simpl; [tauto |].
  rewrite IH. destruct (mem a seen) eqn:Em; simpl.
  - apply mem_In in Em. intuition congruence.
  - apply mem_false in Em. rewrite set_add_In. intuition congruence.
Qed.

Lemma numbers_needed_In (seen brackets : list N) (n : N) :
  In n (numbers_needed seen brackets)
  <-> In n brackets \/ ((1 <= n <= max_of brackets)%N /\ ~ In n seen).
Proof.
  unfold numbers_needed. rewrite numbers_needed_acc, range1_In. tauto.
Qed.

Section GapOutput.
Variable text : string.

Let refs := find_references_section text.
Let out := extract_citations_directly text.

Lemma parsed_in_output (n : N) :
  In n (parsed_numbers text) -> exists c, In c out /\ citation_number c = n.
Proof.
  unfold parsed_numbers. rewrite in_map_iff. intros [c [Hn Hc]].
  exists c. split; [| assumption]. unfold out, extract_citations_directly.
  rewrite extract_unfold, sort_by_number_In. now apply gap_loop_keeps.
Qed.

Lemma visited_in_output (n : N) (c : citation) :
  In n (numbers_needed (set_of_list (parsed_numbers text)) (bracket_numbers refs)) ->
  ~ In n (parsed_numbers text) ->
  gap_record text refs n = Some c -> In c out.
Proof.
  intros Hn Hp Hg. unfold out, extract_citations_directly.
  rewrite extract_unfold, sort_by_number_In.
  apply (gap_loop_adds text _ _ _ n c); try assumption.
  simpl. now rewrite set_of_list_In.
Qed.

Lemma discarded_not_in_output (n : N) :
  ~ In n (parsed_numbers text) -> gap_record text refs n = None ->
  forall c, In c out -> citation_number c <> n.
Proof.
  intros Hp Hg c Hc. apply extract_provenance in Hc.
  destruct Hc as [[m [Hm ->]] | [n' [_ Hg']]]; intros <-.
  - apply Hp. unfold parsed_numbers.
    destruct (primary_dict_ok text (map clean_match (raw_matches refs)))
      as [_ Hall].
    rewrite primary_dict_numbers.
    apply primary_fold_keys. right. now apply (in_map (fun m => citation_number (primary_record text m))).
  - rewrite (gap_record_number _ _ _ _ Hg') in Hg. unfold refs in Hg. congruence.
Qed.

Lemma gap_record_guard (n : N) :
  (malformed (gap_headline n refs) = true -> gap_record text refs n = None)
  /\ (malformed (gap_headline n refs) = false ->
      exists c, gap_record text refs n = Some c).
Proof.
  unfold gap_record, gap_headline.
  destruct (gap_context n refs) as [[h l] w]. simpl.
  destruct (malformed h); split; intro; try discriminate; eauto.
Qed.
End GapOutput.

(* ------------------------------------------------------------------ *)
(** ** The order in which the set of numbers is visited *)

Lemma mem_set_add_other (n m : N) (seen : list N) :
  m <> n -> mem m (set_add n seen) = mem m seen.
Proof.
  intro H. destruct (mem m seen) eqn:E.
  - apply mem_In. apply set_add_In. right. now apply mem_In.
  - apply mem_false. rewrite set_add_In. apply mem_false in E. tauto.
Qed.

Lemma gap_new_other (text refs : string) (n : N) (seen : list N) (l : list N) :
  ~ In n l ->
  flat_map (gap_new text refs (set_add n seen)) l
  = flat_map (gap_new text refs seen) l.
Proof.
  induction l as [|m l IH]; intro H; [reflexivity |]. cbn [flat_map].
  rewrite IH by (intro; apply H; now right). f_equal.
  unfold gap_new. rewrite mem_set_add_other; [reflexivity |].
  intros ->. apply H. now left.
Qed.

(** On a list without repetition the loop adds, for every number, what
    that number adds on its own. *)
Lemma gap_loop_flat_map (text refs : string) (l : list N) :
  NoDup l -> forall seen cs,
  snd (gap_loop text refs l (seen, cs))
  = (cs ++ flat_map (gap_new text refs seen) l)%list.
Proof.
  induction 1 as [|n l Hn _ IH]; intros seen cs.
  - cbn. now rewrite app_nil_r.
  - change (gap_loop text refs (n :: l) (seen, cs))
      with (gap_loop text refs l (gap_step text refs (seen, cs) n)).
    cbn [flat_map]. unfold gap_step, gap_new at 1.
    destruct (mem n seen) eqn:E; cbn [negb].
    + apply IH.
    + destruct (gap_record text refs n) as [c|].
      * rewrite IH, gap_new_other by assumption. now rewrite <- app_assoc.
      * rewrite IH, gap_new_other by assumption. reflexivity.
Qed.

Lemma strict_by_number (l : list citation) :
  StronglySorted N.lt (map citation_number l) -> StronglySorted number_lt l.
Proof.
  induction l as [|c l IH]; cbn [map]; intro H; [constructor |].
  inversion H as [| ? ? Hs Hall]; subst. constructor; [now apply IH |].
  rewrite Forall_forall in *. intros x Hx. apply Hall. now apply in_map.
Qed.

(** Two strictly sorted lists with the same elements are equal. *)
Lemma strict_sorted_unique (a : list citation) : forall b,
  StronglySorted number_lt a -> StronglySorted number_lt b ->
  Permutation a b -> a = b.
Proof.
  induction a as [|x a IH]; intros b Ha Hb Hp.
  - apply Permutation_nil in Hp. now subst.
  - destruct b as [|y b]; [apply Permutation_sym, Permutation_nil in Hp; discriminate |].
    inversion Ha as [| ? ? Ha' Hxa]; subst.
    inversion Hb as [| ? ? Hb' Hyb]; subst.
    rewrite Forall_forall in Hxa, Hyb.
    assert (x = y).
    { assert (Hx : In x (y :: b)) by (apply (Permutation_in _ Hp); now left).
      assert (Hy : In y (x :: a))
        by (apply (Permutation_in _ (Permutation_sym Hp)); now left).
      destruct Hx as [<- | Hx]; [reflexivity |].
      destruct Hy as [<- | Hy]; [reflexivity |].
      specialize (Hxa _ Hy). specialize (Hyb _ Hx).
      unfold number_lt in *. lia. }
    subst y. f_equal. apply IH; try assumption.
    now apply Permutation_cons_inv in Hp.
Qed.

Lemma sort_by_number_strict (l : list citation) :
  NoDup (map citation_number l) -> StronglySorted number_lt (sort_by_number l).
Proof.
  intro H. apply strict_by_number, sorted_nodup_strict.
  - apply sorted_numbers, sort_by_number_sorted.
  - apply (Permutation_NoDup (l := map citation_number l)); [| exact H].
    apply Permutation_map, sort_by_number_perm.
Qed.

Lemma sort_by_number_perm_eq (l l' : list citation) :
  NoDup (map citation_number l) -> Permutation l l' ->
  sort_by_number l = sort_by_number l'.
Proof.
  intros Hnd Hp. apply strict_sorted_unique.
  - now apply sort_by_number_strict.
  - apply sort_by_number_strict.
    apply (Permutation_NoDup (l := map citation_number l)); [| exact Hnd].
    now apply Permutation_map.
  - rewrite <- (sort_by_number_perm l), <- (sort_by_number_perm l'). exact Hp.
Qed.

Lemma numbers_needed_NoDup (seen brackets : list N) :
  NoDup brackets -> NoDup (numbers_needed seen brackets).
Proof.
  unfold numbers_needed. generalize (range1 (max_of brackets)) as l.
  intro l. revert brackets. induction l as [|n l IH]; intros acc H; [exact H |].
  cbn [fold_left]. apply IH. destruct (negb (mem n seen)); [| exact H].
  now apply set_add_NoDup.
Qed.

(** The set [seen_brackets] may be visited in any order: the records
    returned are the same. *)
Lemma extract_order_irrelevant (order : list N -> list N) (text : string) :
  (forall s, NoDup s -> Permutation s (order s)) ->
  extract_with_order order text = extract_citations_directly text.
Proof.
  intro Horder. unfold extract_citations_directly. rewrite !extract_unfold.
  set (refs := find_references_section text).
  set (parsed := dict_values (primary_dict text (map clean_match (raw_matches refs)))).
  set (seen0 := set_of_list (map citation_number parsed)).
  set (needed := numbers_needed seen0 (bracket_numbers refs)).
  assert (Hnd : NoDup needed)
    by (apply numbers_needed_NoDup, set_of_list_NoDup).
  assert (Hp := Horder needed Hnd).
  symmetry. apply sort_by_number_perm_eq.
  - apply (gap_loop_inv text refs needed (seen0, parsed)).
    apply (start_inv text).
  - rewrite !gap_loop_flat_map;
      [| exact (Permutation_NoDup Hp Hnd) | exact Hnd].
    apply Permutation_app_head. now apply Permutation_flat_map.
Qed.

(* ------------------------------------------------------------------ *)
(** ** A replacement pass, step by step *)

Lemma sub_fuel_skip (r : regex) (repl : groups -> string) (f : nat)
  (c : ascii) (s : string) :
  match_here r (String c s) = None ->
  sub_fuel (S f) r repl (String c s) = String c (sub_fuel (S f) r repl s).
Proof.
  intro H. cbn [sub_fuel]. unfold search. cbn [search_acc]. rewrite H.
  rewrite search_acc_skipped. destruct (search_acc r "" s) as [m|]; reflexivity.
Qed.

Lemma consumed_nonempty (s rest : string) :
  String.length rest < String.length s -> consumed s rest <> "".
Proof.
  intros H E. apply (f_equal String.length) in E. unfold consumed in E.
  rewrite take_length in E by lia. simpl in E. lia.
Qed.

Lemma sub_fuel_hit (r : regex) (repl : groups -> string) (f : nat)
  (s : string) (g : groups) (rest : string) :
  match_here r s = Some (g, rest) ->
  String.length rest < String.length s ->
  sub_fuel (S f) r repl s = repl g ++ sub_fuel f r repl rest.
Proof.
  intros H Hlen. cbn [sub_fuel]. unfold search.
  destruct s as [|c s]; cbn [search_acc]; rewrite H; cbn [before grps whole after].
  - simpl in Hlen. lia.
  - destruct (consumed (String c s) rest) eqn:E.
    + now apply consumed_nonempty in E.
    + reflexivity.
Qed.

Section SubRel.
Variable r : regex.
Variable repl : groups -> string.
Hypothesis Hne : nonempty_matches r.

Lemma match_here_empty : match_here r "" = None.
Proof.
  destruct (match_here r "") as [[g rest]|] eqn:E; [| reflexivity].
  apply Hne in E. simpl in E. lia.
Qed.

Lemma sub_fuel_rel (n : nat) : forall s f,
  String.length s <= n -> String.length s < f ->
  sub_rel r repl s (sub_fuel f r repl s).
Proof.
  induction n as [|n IH]; intros s f Hn Hf.
  - destruct s; [| simpl in Hn; lia]. destruct f; [lia |].
    cbn. rewrite match_here_empty. constructor.
  - destruct f as [|f]; [lia |].
    destruct (match_here r s) as [[g rest]|] eqn:E.
    + assert (Hlen := Hne _ _ _ E).
      rewrite (sub_fuel_hit _ _ _ _ _ _ E Hlen).
      apply sub_hit with (rest := rest); [exact E |]. apply IH; lia.
    + destruct s as [|c s].
      * cbn. rewrite E. constructor.
      * rewrite sub_fuel_skip by exact E. apply sub_skip; [exact E |].
        apply IH; simpl in *; lia.
Qed.

Lemma sub_is_rel (s : string) : sub_rel r repl s (sub r repl s).
Proof. apply (sub_fuel_rel (String.length s)); lia. Qed.

Lemma sub_rel_fun (s o1 : string) :
  sub_rel r repl s o1 -> forall o2, sub_rel r repl s o2 -> o1 = o2.
Proof.
  induction 1 as [| c s out Hm _ IH | s g rest out Hm _ IH]; intros o2 H2.
  - inversion H2 as [| | s' g' rest' out' Hm' _]; subst; [reflexivity |].
    rewrite match_here_empty in Hm'. discriminate.
  - inversion H2 as [| c' s' out' Hm' Hr | s' g' rest' out' Hm' _]; subst.
    + f_equal. now apply IH.
    + congruence.
  - inversion H2 as [| c' s' out' Hm' Hr | s' g' rest' out' Hm' Hr]; subst.
    + rewrite match_here_empty in Hm. discriminate.
    + congruence.
    + rewrite Hm in Hm'. injection Hm' as <- <-. f_equal. now apply IH.
Qed.

Lemma sub_rel_eq (s out : string) : sub_rel r repl s out -> sub r repl s = out.
Proof.
  intro H. symmetry. apply (sub_rel_fun s out H). apply sub_is_rel.
Qed.
End SubRel.

(* ------------------------------------------------------------------ *)
(** ** Repetition in the matcher *)

Lemma star_greedy_ext (A : Type) (p : cls) (k k' : string -> option A) :
  (forall s, k s = k' s) -> forall s, star_greedy p s k = star_greedy p s k'.
Proof.
  intros H s. induction s as [|c s IH]; simpl; [apply H |].
  rewrite IH, H. reflexivity.
Qed.

(** A continuation that fails on every character of the class lets the
    repetition run to its end. *)
Lemma star_greedy_averse (A : Type) (p : cls) (k : string -> option A) :
  (forall c s, p c = true -> k (String c s) = None) ->
  forall s, star_greedy p s k = k (drop_while p s).
Proof.
  intros H s. induction s as [|c s IH]; simpl; [reflexivity |].
  destruct (p c) eqn:E; [| reflexivity].
  rewrite IH. destruct (k (drop_while p s)) eqn:Ek; [reflexivity |].
  now apply H.
Qed.

(** A continuation that succeeds at the end of the run decides. *)
Lemma star_greedy_max (A : Type) (p : cls) (k : string -> option A) (x : A) :
  forall s, k (drop_while p s) = Some x -> star_greedy p s k = Some x.
Proof.
  induction s as [|c s IH]; simpl; [auto |].
  destruct (p c); [| auto]. intro H. now rewrite IH.
Qed.

Lemma take_drop_while (p : ascii -> bool) (s : string) :
  take_while p s ++ drop_while p s = s.
Proof.
  induction s as [|c s IH]; simpl; [reflexivity |].
  destruct (p c); simpl; congruence.
Qed.

Lemma drop_while_length (p : ascii -> bool) (s : string) :
  String.length (drop_while p s) <= String.length s.
Proof.
  induction s as [|c s IH]; simpl; [lia |]. destruct (p c); simpl; lia.
Qed.

Lemma consumed_app (a b : string) : consumed (a ++ b) b = a.
Proof.
  unfold consumed. rewrite append_length.
  replace (String.length a + String.length b - String.length b)
    with (String.length a) by lia.
  induction a as [|c a IH]; simpl; [now destruct b | now rewrite IH].
Qed.

(* ------------------------------------------------------------------ *)
(** ** The pattern of the blank runs *)

Lemma nl_is_space : is_space nl = true.
Proof. reflexivity. Qed.

Lemma eqb_nl_space (c : ascii) : Ascii.eqb nl c = true -> is_space c = true.
Proof. intro H. apply Ascii.eqb_eq in H. now subst. Qed.

Lemma after_last_nl_count (s : string) :
  after_last_nl s = None <-> nl_count_ws s = 0.
Proof.
  induction s as [|c s IH]; simpl; [tauto |].
  destruct (is_space c); [| tauto].
  destruct (after_last_nl s) as [r|], (Ascii.eqb c nl); simpl;
    try exact IH; split; intro H; discriminate.
Qed.

(** The remainder after the last newline starts with whitespace that
    holds no newline. *)
Lemma after_last_nl_clean (s rest : string) :
  after_last_nl s = Some rest -> nl_count_ws rest = 0.
Proof.
  revert rest. induction s as [|c s IH]; simpl; intros rest; [discriminate |].
  destruct (is_space c); [| discriminate].
  destruct (after_last_nl s) as [r|] eqn:E.
  - intros [= <-]. now apply IH.
  - destruct (Ascii.eqb c nl); [| discriminate]. intros [= <-].
    now apply after_last_nl_count.
Qed.

Lemma after_last_nl_shorter (s rest : string) :
  after_last_nl s = Some rest -> String.length rest < String.length s.
Proof.
  revert rest. induction s as [|c s IH]; simpl; intros rest; [discriminate |].
  destruct (is_space c); [| discriminate].
  destruct (after_last_nl s) as [r|] eqn:E.
  - intros [= <-]. specialize (IH r eq_refl). lia.
  - destruct (Ascii.eqb c nl); [| discriminate]. intros [= <-]. lia.
Qed.

Lemma drop_newlines_clean (s : string) :
  nl_count_ws s = 0 -> drop_while (chr nl) s = s.
Proof.
  destruct s as [|d s]; cbn [drop_while nl_count_ws]; [reflexivity |].
  unfold chr. destruct (Ascii.eqb nl d) eqn:Ed; [| reflexivity].
  apply Ascii.eqb_eq in Ed. subst d.
  rewrite nl_is_space, Ascii.eqb_refl. discriminate.
Qed.

Lemma not_space_not_nl (c : ascii) : is_space c = false -> chr nl c = false.
Proof.
  intro H. unfold chr. destruct (Ascii.eqb nl c) eqn:E; [| reflexivity].
  apply eqb_nl_space in E. congruence.
Qed.

Lemma blank_inner (s : string) :
  star_greedy is_space s k_newlines = option_map (pair []) (after_last_nl s).
Proof.
  induction s as [|c s IH]; cbn [star_greedy after_last_nl]; [reflexivity |].
  destruct (is_space c) eqn:Ec.
  - rewrite IH. destruct (after_last_nl s) as [r|] eqn:E; cbn [option_map];
      [reflexivity |].
    cbn [k_newlines]. unfold chr at 1. rewrite (Ascii.eqb_sym nl c).
    destruct (Ascii.eqb c nl); cbn [option_map]; [| reflexivity].
    rewrite drop_newlines_clean; [reflexivity |]. now apply after_last_nl_count.
  - cbn [k_newlines]. now rewrite (not_space_not_nl c Ec).
Qed.

Lemma blank_outer (s : string) :
  star_greedy is_space s k_second
  = if (2 <=? nl_count_ws s)%nat
    then option_map (pair []) (after_last_nl s) else None.
Proof.
  induction s as [|c s IH]; cbn [star_greedy after_last_nl nl_count_ws];
    [reflexivity |].
  destruct (is_space c) eqn:Ec.
  - rewrite IH. cbn [k_second]. unfold chr. rewrite (Ascii.eqb_sym nl c).
    assert (Hc := after_last_nl_count s).
    destruct (Ascii.eqb c nl); cbn [Nat.add];
      destruct (nl_count_ws s) as [|[|n]]; cbn [Nat.leb];
      destruct (after_last_nl s) as [r|]; cbn [option_map];
      try reflexivity.
    all: try (destruct Hc as [Hc _]; specialize (Hc eq_refl); discriminate).
    all: try (destruct Hc as [_ Hc]; specialize (Hc eq_refl); discriminate).
  - cbn [k_second]. now rewrite (not_space_not_nl c Ec).
Qed.

(** The pattern matches at a newline followed, within the whitespace, by
    two more, and takes everything up to the last newline of the run. *)
Lemma match_here_blank_run (s : string) :
  match_here Pat.blank_run s
  = match s with
    | String c s' =>
        if Ascii.eqb nl c && (2 <=? nl_count_ws s')%nat
        then option_map (pair []) (after_last_nl s')
        else None
    | "" => None
    end.
Proof.
  destruct s as [|c s]; [reflexivity |].
  unfold match_here, Pat.blank_run, ws_star, Plus. cbn [seqs rmatch].
  unfold chr at 1. destruct (Ascii.eqb nl c); cbn [andb]; [| reflexivity].
  rewrite <- blank_outer. apply star_greedy_ext. intros [|d t]; [reflexivity |].
  cbn [k_second]. destruct (chr nl d); [| reflexivity].
  rewrite <- blank_inner. apply star_greedy_ext. intros [|e u]; [reflexivity |].
  cbn [k_newlines]. destruct (chr nl e); [| reflexivity].
  now apply star_greedy_max.
Qed.

Lemma blank_run_nonempty : nonempty_matches Pat.blank_run.
Proof.
  intros s g rest. rewrite match_here_blank_run.
  destruct s as [|c s]; [discriminate |].
  destruct (Ascii.eqb nl c && (2 <=? nl_count_ws s)%nat); [| discriminate].
  destruct (after_last_nl s) as [r|] eqn:E; [| discriminate].
  intros [= _ <-]. apply after_last_nl_shorter in E. simpl. lia.
Qed.

Lemma blank_bad_mono (s : string) : forall k k',
  k <= k' -> blank_bad k' s = false -> blank_bad k s = false.
Proof.
  induction s as [|c s IH]; intros k k' Hk; cbn [blank_bad]; [reflexivity |].
  destruct (Ascii.eqb c nl).
  - rewrite !orb_false_iff, !Nat.leb_gt. intros [H1 H2]. split; [lia |].
    apply (IH (S k) (S k')); [lia | assumption].
  - destruct (is_space c); [apply IH; assumption | auto].
Qed.

Lemma blank_bad_count (s : string) : forall k,
  k <= 2 -> 3 <= k + nl_count_ws s -> blank_bad k s = true.
Proof.
  induction s as [|c s IH]; intros k Hk; cbn [blank_bad nl_count_ws]; [lia |].
  destruct (Ascii.eqb c nl) eqn:En.
  - apply Ascii.eqb_eq in En. subst c. rewrite nl_is_space. intro H.
    apply orb_true_iff. destruct (Nat.leb_spec 2 k); [now left | right].
    apply IH; lia.
  - destruct (is_space c); [apply IH; assumption | lia].
Qed.

(** After the first pass no run of whitespace holds three newlines. *)
Lemma blank_sub_clean (s out : string) :
  sub_rel Pat.blank_run blank_repl s out ->
  forall k, k = 0 \/ k + nl_count_ws s <= 2 -> blank_bad k out = false.
Proof.
  induction 1 as [| c s out Hm _ IH | s g rest out Hm _ IH]; intros k Hk.
  - reflexivity.
  - rewrite match_here_blank_run in Hm. cbn [blank_bad].
    cbn [nl_count_ws] in Hk.
    destruct (Ascii.eqb c nl) eqn:En.
    + apply Ascii.eqb_eq in En. subst c.
      rewrite Ascii.eqb_refl, nl_is_space in *. cbn [andb Nat.add] in *.
      assert (Hc : nl_count_ws s < 2).
      { destruct (Nat.leb_spec 2 (nl_count_ws s)) as [H2 | H2]; [| exact H2].
        destruct (after_last_nl s) eqn:E; [discriminate |].
        apply after_last_nl_count in E. lia. }
      apply orb_false_iff. split; [apply Nat.leb_gt; lia | apply IH; lia].
    + destruct (is_space c); [apply IH; exact Hk | apply IH; now left].
  - rewrite match_here_blank_run in Hm. destruct s as [|c s]; [discriminate |].
    destruct (Ascii.eqb nl c) eqn:En; [| discriminate]. cbn [andb] in Hm.
    apply Ascii.eqb_eq in En. subst c.
    destruct (Nat.leb_spec 2 (nl_count_ws s)) as [H2 | H2]; [| discriminate].
    destruct (after_last_nl s) as [r|] eqn:E; [| discriminate].
    injection Hm as <- <-. cbn [nl_count_ws] in Hk.
    rewrite nl_is_space, Ascii.eqb_refl in Hk.
    assert (k = 0) by lia. subst k.
    change (blank_repl [] ++ out) with (String nl (String nl out)).
    cbn [blank_bad]. rewrite Ascii.eqb_refl. cbn [Nat.leb orb].
    apply IH. right. apply after_last_nl_clean in E. lia.
Qed.

(** A text without such a run is left as it is by the first pass. *)
Lemma blank_sub_id (s : string) : forall k,
  k <= 2 -> blank_bad k s = false -> sub_rel Pat.blank_run blank_repl s s.
Proof.
  induction s as [|c s IH]; intros k Hk H; [constructor |].
  cbn [blank_bad] in H. apply sub_skip.
  - rewrite match_here_blank_run.
    destruct (Ascii.eqb nl c) eqn:En; [| reflexivity]. cbn [andb].
    destruct (Nat.leb_spec 2 (nl_count_ws s)) as [H2 | H2]; [| reflexivity].
    rewrite Ascii.eqb_sym, En in H. apply orb_false_iff in H.
    destruct H as [H1 H3]. apply Nat.leb_gt in H1.
    rewrite (blank_bad_count s (S k)) in H3; [discriminate | lia | lia].
  - destruct (Ascii.eqb c nl).
    + apply orb_false_iff in H. destruct H as [H1 H3]. apply Nat.leb_gt in H1.
      apply (IH (S k)); [lia | assumption].
    + destruct (is_space c); [apply (IH k) | apply (IH 0)]; auto; lia.
Qed.

Lemma blank_bad_ws_run (w : string) : forall k b,
  all_chars is_space w = true -> blank_bad k (w ++ b) = false ->
  exists k', k <= k' /\ blank_bad k' b = false.
Proof.
  induction w as [|c w IH]; intros k b Hw H; cbn in *.
  - exists k. now split.
  - apply andb_prop in Hw. destruct Hw as [Hc Hw]. rewrite Hc in H.
    destruct (Ascii.eqb c nl).
    + apply orb_false_iff in H. destruct H as [_ H].
      destruct (IH (S k) b Hw H) as [k' [Hk' Hb]]. exists k'. split; [lia | exact Hb].
    + apply (IH k b Hw H).
Qed.

(** Replacing whitespace by one space does not make such a run. *)
Lemma blank_bad_relaxed (ok : ascii -> string -> string -> Prop) (s s' : string) :
  relaxed ok s s' -> forall k, blank_bad k s = false -> blank_bad k s' = false.
Proof.
  induction 1 as [s | c s s' _ IH | c w b b' Hw _ _ IH]; intros k H.
  - exact H.
  - cbn [blank_bad] in *. destruct (Ascii.eqb c nl).
    + apply orb_false_iff in H. destruct H as [H1 H2].
      apply orb_false_iff. split; [exact H1 | now apply IH].
    + destruct (is_space c); now apply IH.
  - assert (Hstep : forall k1, blank_bad k1 (w ++ b) = false ->
                               blank_bad k1 (String " " b') = false).
    { intros k1 H1. destruct (blank_bad_ws_run w k1 b Hw H1) as [k' [Hk' Hb]].
      change (blank_bad k1 (String " " b')) with (blank_bad k1 b').
      apply IH. now apply (blank_bad_mono b k1 k'). }
    cbn [blank_bad] in *. destruct (Ascii.eqb c nl).
    + apply orb_false_iff in H. destruct H as [H1 H2].
      apply orb_false_iff. split; [exact H1 | now apply Hstep].
    + destruct (is_space c); now apply Hstep.
Qed.

(* ------------------------------------------------------------------ *)
(** ** The patterns of two characters *)

Lemma consumed_one (c : ascii) (s : string) : consumed (String c s) s = String c "".
Proof. apply (consumed_app (String c "") s). Qed.

Section PairPattern.
Variables lo hi : ascii -> bool.
Hypothesis Hdisj : forall c, hi c = true -> lo c = false.
Hypothesis Hsp_lo : lo " " = false.
Hypothesis Hsp_hi : hi " " = false.

Lemma match_here_pair (s : string) :
  match_here (pair_pattern lo hi) s
  = match s with
    | String a (String b rest) =>
        if lo a && hi b
        then Some ([(2, String b ""); (1, String a "")], rest)
        else None
    | _ => None
    end.
Proof.
  unfold match_here, pair_pattern. cbn [rmatch].
  destruct s as [|a [|b rest]]; cbn [andb]; try reflexivity.
  - now destruct (lo a).
  - destruct (lo a); [| reflexivity]. destruct (hi b); [| reflexivity].
    cbn [andb]. now rewrite !consumed_one.
Qed.

Lemma pair_nonempty : nonempty_matches (pair_pattern lo hi).
Proof.
  intros s g rest. rewrite match_here_pair.
  destruct s as [|a [|b r]]; try discriminate.
  destruct (lo a && hi b); [| discriminate]. intros [= _ <-]. simpl. lia.
Qed.

Lemma match_here_pair_None (c : ascii) (s : string) :
  match_here (pair_pattern lo hi) (String c s) = None
  <-> lo c && starts_in hi s = false.
Proof.
  rewrite match_here_pair. destruct s as [|b rest]; cbn [starts_in].
  - rewrite andb_false_r. tauto.
  - destruct (lo c && hi b); split; intro; congruence.
Qed.

Lemma pair_bad_mono (s : string) (prev : bool) :
  pair_bad lo hi prev s = false -> pair_bad lo hi false s = false.
Proof.
  destruct s as [|c s]; [reflexivity |]. cbn [pair_bad andb orb].
  intro H. apply orb_false_iff in H. tauto.
Qed.

Lemma pair_bad_suffix (a b : string) : forall prev,
  pair_bad lo hi prev (a ++ b) = false -> pair_bad lo hi false b = false.
Proof.
  induction a as [|c a IH]; intros prev H.
  - now apply (pair_bad_mono b prev).
  - cbn in H. apply orb_false_iff in H. destruct H as [_ H]. now apply (IH (lo c)).
Qed.

(** After the pass no character of the second class follows one of the
    first. *)
Lemma pair_sub_clean (s out : string) :
  sub_rel (pair_pattern lo hi) spaced_repl s out ->
  forall prev, prev && starts_in hi s = false ->
               pair_bad lo hi prev out = false.
Proof.
  induction 1 as [| c s out Hm _ IH | s g rest out Hm _ IH]; intros prev Hp.
  - reflexivity.
  - cbn [pair_bad]. cbn [starts_in] in Hp. rewrite Hp. cbn [orb].
    apply IH. now apply match_here_pair_None.
  - rewrite match_here_pair in Hm. destruct s as [|a [|b r]]; try discriminate.
    destruct (lo a && hi b) eqn:E; [| discriminate]. injection Hm as <- <-.
    apply andb_prop in E. destruct E as [Ea Eb]. cbn [starts_in] in Hp.
    change (spaced_repl [(2, String b ""); (1, String a "")] ++ out)
      with (String a (String " " (String b out))).
    cbn [pair_bad]. rewrite Hp, Hsp_lo, Hsp_hi, andb_false_r. cbn [andb orb].
    rewrite (Hdisj b Eb). apply IH. reflexivity.
Qed.

(** A text without such a pair is left as it is by the pass. *)
Lemma pair_sub_id (s : string) : forall prev,
  pair_bad lo hi prev s = false -> sub_rel (pair_pattern lo hi) spaced_repl s s.
Proof.
  induction s as [|c s IH]; intros prev H; [constructor |].
  cbn [pair_bad] in H. apply orb_false_iff in H. destruct H as [_ H].
  apply sub_skip; [| now apply (IH (lo c))].
  apply match_here_pair_None. destruct (lo c); [| reflexivity].
  destruct s as [|b r]; [reflexivity |]. cbn [pair_bad andb] in H.
  apply orb_false_iff in H. cbn [starts_in andb]. tauto.
Qed.

(** Replacing whitespace by one space does not make such a pair. *)
Lemma pair_bad_relaxed (ok : ascii -> string -> string -> Prop) (s s' : string) :
  relaxed ok s s' ->
  forall prev, pair_bad lo hi prev s = false -> pair_bad lo hi prev s' = false.
Proof.
  induction 1 as [s | c s s' _ IH | c w b b' Hw _ _ IH]; intros prev H.
  - exact H.
  - cbn [pair_bad] in *. apply orb_false_iff in H. destruct H as [H1 H2].
    rewrite H1. now apply IH.
  - cbn [pair_bad] in *. apply orb_false_iff in H. destruct H as [H1 H2].
    rewrite H1, Hsp_hi, Hsp_lo, andb_false_r. cbn [orb].
    apply IH. now apply (pair_bad_suffix w b (lo c)).
Qed.

(** The pass only inserts spaces. *)
Lemma pair_sub_relaxed (s out : string) :
  sub_rel (pair_pattern lo hi) spaced_repl s out -> relaxed any_site s out.
Proof.
  induction 1 as [| c s out Hm _ IH | s g rest out Hm _ IH].
  - constructor.
  - now apply rl_char.
  - rewrite match_here_pair in Hm. destruct s as [|a [|b r]]; try discriminate.
    destruct (lo a && hi b); [| discriminate]. injection Hm as <- <-.
    change (spaced_repl [(2, String b ""); (1, String a "")] ++ out)
      with (String a (String " " (String b out))).
    apply (rl_site any_site a "" (String b r) (String b out));
      [reflexivity | exact I | now apply rl_char].
Qed.
End PairPattern.

(* ------------------------------------------------------------------ *)
(** ** The citation pattern of the normaliser *)

Lemma consumed_take_while (p : ascii -> bool) (s : string) :
  consumed s (drop_while p s) = take_while p s.
Proof.
  rewrite <- (take_drop_while p s) at 1. apply consumed_app.
Qed.

Lemma space_not_char (a c : ascii) :
  is_space a = false -> is_space c = true -> Ascii.eqb a c = false.
Proof.
  intros Ha Hc. destruct (Ascii.eqb_spec a c) as [-> | _]; congruence.
Qed.

(** A group over a repetition of at least one character, before a
    continuation that fails on the characters of the class. *)
Lemma rmatch_grp_plus (A : Type) (i : nat) (p : cls) (s : string) (g : groups)
  (k : string -> groups -> option A) :
  (forall c s' g', p c = true -> k (String c s') g' = None) ->
  rmatch (Grp i (Plus true p)) s g k
  = obind (run1 p s) (fun x => k (snd x) ((i, fst x) :: g)).
Proof.
  intro Hk. unfold Plus, run1. cbn [rmatch].
  destruct s as [|c s1]; [reflexivity |]. cbn [take_while drop_while].
  destruct (p c) eqn:Ec; [| reflexivity]. cbn [obind fst snd].
  rewrite star_greedy_averse by (intros; now apply Hk).
  assert (E : consumed (String c s1) (drop_while p s1)
              = String c (take_while p s1)).
  { rewrite <- (take_drop_while p s1) at 1.
    apply (consumed_app (String c (take_while p s1))). }
  now rewrite E.
Qed.

Lemma rmatch_ws_star (A : Type) (s : string) (g : groups)
  (k : string -> groups -> option A) :
  (forall c s', is_space c = true -> k (String c s') g = None) ->
  rmatch ws_star s g k = k (drop_while is_space s) g.
Proof.
  intro Hk. unfold ws_star. cbn [rmatch]. now apply star_greedy_averse.
Qed.

Lemma rmatch_char (A : Type) (c : ascii) (s : string) (g : groups)
  (k : string -> groups -> option A) :
  rmatch (Chr (chr c)) s g k = obind (expect c s) (fun s' => k s' g).
Proof.
  cbn [rmatch]. unfold expect, chr. destruct s as [|d s]; [reflexivity |].
  now destruct (Ascii.eqb c d).
Qed.

Lemma rmatch_url (s : string) (g : groups) :
  rmatch (Grp 4 url_re) s g final
  = obind (parse_url s) (fun rest => Some ((4, consumed s rest) :: g, rest)).
Proof.
  unfold url_re, parse_url. cbn [seqs]. cbn [rmatch]. rewrite rmatch_lit.
  destruct (starts_with "http" s); [| reflexivity].
  change (String.length "http") with 4. set (t := drop 4 s).
  rewrite rmatch_lit. change (String.length "s") with 1. cbv beta.
  assert (Hk : forall u,
    rmatch (lit "://") u g
      (fun s1 g1 => rmatch (Plus true not_ws) s1 g1
         (fun s' g' => final s' ((4, consumed s s') :: g')))
    = if starts_with "://" u then
        match drop 3 u with
        | String c v =>
            if not_ws c
            then Some ((4, consumed s (drop_while not_ws v)) :: g,
                       drop_while not_ws v)
            else None
        | "" => None
        end
      else None).
  { intro u. rewrite rmatch_lit.
    destruct (starts_with "://" u); [| reflexivity].
    change (String.length "://") with 3. unfold Plus. cbn [rmatch].
    destruct (drop 3 u) as [|c v]; [reflexivity |].
    destruct (not_ws c); [| reflexivity]. now apply star_greedy_max. }
  destruct (starts_with "s" t) eqn:Es.
  - assert (Ht : starts_with "://" t = false).
    { destruct t as [|a t']; [discriminate |]. cbn [starts_with] in Es.
      apply andb_prop in Es. destruct Es as [Ea _].
      apply Ascii.eqb_eq in Ea. subst a. reflexivity. }
    rewrite !Hk, Ht. destruct (starts_with "://" (drop 1 t)); [| reflexivity].
    destruct (drop 3 (drop 1 t)) as [|c v]; [reflexivity |].
    now destruct (not_ws c).
  - rewrite Hk. destruct (starts_with "://" t); [| reflexivity].
    destruct (drop 3 t) as [|c v]; [reflexivity |].
    now destruct (not_ws c).
Qed.

Lemma rmatch_url_part (s : string) (g : groups) :
  rmatch url_part s g final
  = let s6 := drop_while is_space s in
    obind (parse_url s6) (fun rest => Some ((4, consumed s6 rest) :: g, rest)).
Proof.
  unfold url_part. cbn [rmatch]. fold ws_star.
  rewrite <- rmatch_url.
  apply (rmatch_ws_star _ s g (fun s' g' => rmatch (Grp 4 url_re) s' g' final)).
  intros c s' Hc. rewrite rmatch_url. unfold parse_url.
  cbn [starts_with]. now rewrite (space_not_char "h" c eq_refl Hc).
Qed.

Lemma rmatch_colon_part (s : string) (g : groups) :
  rmatch colon_part s g final = parse_tail g s.
Proof.
  unfold colon_part, parse_tail. cbn [rmatch lit]. unfold expect, chr.
  destruct s as [|c s5]; [reflexivity |].
  destruct (Ascii.eqb ":" c); [| reflexivity]. cbn [obind].
  apply rmatch_url_part.
Qed.

(** Whether the tail matches does not depend on the groups so far. *)
Lemma parse_tail_groups (g g' : groups) (s : string) :
  parse_tail g s = None -> parse_tail g' s = None.
Proof.
  unfold parse_tail. destruct (expect ":" s) as [s5|]; [| reflexivity].
  cbn [obind]. destruct (parse_url (drop_while is_space s5)); [discriminate |].
  reflexivity.
Qed.

Lemma rmatch_seq (A : Type) (r1 r2 : regex) (s : string) (g : groups)
  (k : string -> groups -> option A) :
  rmatch (Seq r1 r2) s g k = rmatch r1 s g (fun s1 g1 => rmatch r2 s1 g1 k).
Proof. reflexivity. Qed.

Lemma class_not_char (p : cls) (a c : ascii) :
  p a = false -> p c = true -> Ascii.eqb a c = false.
Proof.
  intros Ha Hc. destruct (Ascii.eqb_spec a c) as [-> | _]; congruence.
Qed.

Lemma expect_class (p : cls) (a c : ascii) (s : string) :
  p a = false -> p c = true -> expect a (String c s) = None.
Proof.
  intros Ha Hc. unfold expect. now rewrite (class_not_char p a c Ha Hc).
Qed.

Lemma space_not_colon (c : ascii) : is_space c = true -> not_colon c = true.
Proof.
  intro H. unfold not_colon, neg, chr.
  now rewrite (class_not_char is_space ":" c eq_refl H).
Qed.

Lemma rmatch_headline_part (s : string) (g : groups) :
  rmatch headline_part s g final
  = obind (run1 not_colon s) (fun x => parse_tail ((3, fst x) :: g) (snd x)).
Proof.
  unfold headline_part. rewrite rmatch_seq.
  rewrite rmatch_grp_plus.
  - fold not_colon. destruct (run1 not_colon s) as [x|]; [| reflexivity].
    apply rmatch_colon_part.
  - intros c s' g' Hc. rewrite rmatch_colon_part. unfold parse_tail.
    rewrite (expect_class not_colon ":" c s'); [reflexivity | reflexivity | exact Hc].
Qed.

Lemma headline_of_space (c : ascii) (pre : string) :
  is_space c = true -> pre <> "" ->
  headline_of (String c pre) = headline_of pre.
Proof.
  intros Hc Hp. unfold headline_of. cbn [drop_while]. rewrite Hc.
  destruct (drop_while is_space pre); [| reflexivity].
  destruct pre; [congruence | reflexivity].
Qed.

Lemma headline_of_one (c : ascii) : headline_of (String c "") = String c "".
Proof.
  unfold headline_of. cbn [drop_while]. now destruct (is_space c).
Qed.

Lemma headline_of_word (c : ascii) (pre : string) :
  is_space c = false -> headline_of (String c pre) = String c pre.
Proof.
  intro Hc. unfold headline_of. cbn [drop_while]. now rewrite Hc.
Qed.

(** The whitespace before the headline gives back its last character
    when the headline would be empty otherwise. *)
Lemma rmatch_headline_ws (g : groups) (s : string) :
  star_greedy is_space s (fun s' => rmatch headline_part s' g final)
  = obind (run1 not_colon s)
          (fun x => parse_tail ((3, headline_of (fst x)) :: g) (snd x)).
Proof.
  rewrite (star_greedy_ext _ is_space _
             (fun s' => obind (run1 not_colon s')
                          (fun x => parse_tail ((3, fst x) :: g) (snd x))))
    by (intro; apply rmatch_headline_part).
  induction s as [|c s IH]; [reflexivity |].
  cbn [star_greedy]. destruct (is_space c) eqn:Ec.
  - rewrite IH. unfold run1. cbn [take_while drop_while].
    rewrite (space_not_colon c Ec).
    destruct (take_while not_colon s) as [|a t] eqn:Et; cbn [obind fst snd].
    + now rewrite headline_of_one.
    + rewrite (headline_of_space c (String a t) Ec) by discriminate.
      destruct (parse_tail ((3, headline_of (String a t)) :: g)
                           (drop_while not_colon s)) eqn:E; [reflexivity |].
      now apply (parse_tail_groups _ _ _ E).
  - unfold run1. cbn [take_while drop_while].
    destruct (not_colon c); [| reflexivity]. cbn [obind fst snd].
    now rewrite (headline_of_word c _ Ec).
Qed.

(** The matcher on the citation pattern is the parser. *)
Lemma match_here_citation_line (s : string) :
  match_here Pat.citation_line s = parse_citation s.
Proof.
  unfold match_here, parse_citation, Pat.citation_line, tag_re.
  cbn [seqs lit].
  rewrite rmatch_seq, rmatch_char.
  destruct (expect "[" s) as [s1|]; [| reflexivity]. cbn [obind].
  rewrite rmatch_seq, rmatch_grp_plus.
  2:{ intros c s' g' Hc. rewrite rmatch_seq, rmatch_char.
      now rewrite (expect_class is_decimal "]" c s'). }
  destruct (run1 is_decimal s1) as [d|]; [| reflexivity]. cbn [obind].
  rewrite rmatch_seq, rmatch_char.
  destruct (expect "]" (snd d)) as [s2|]; [| reflexivity]. cbn [obind].
  rewrite rmatch_seq, rmatch_ws_star.
  2:{ intros c s' Hc. rewrite !rmatch_seq, rmatch_char.
      now rewrite (expect_class is_space "[" c s'). }
  rewrite !rmatch_seq, rmatch_char.
  destruct (expect "[" (drop_while is_space s2)) as [s3|]; [| reflexivity].
  cbn [obind]. rewrite rmatch_seq, rmatch_grp_plus.
  2:{ intros c s' g' Hc. rewrite rmatch_char.
      now rewrite (expect_class not_rbracket "]" c s'). }
  fold not_rbracket.
  destruct (run1 not_rbracket s3) as [t|]; [| reflexivity]. cbn [obind].
  rewrite rmatch_char.
  destruct (expect "]" (snd t)) as [s4|]; [| reflexivity]. cbn [obind].
  apply rmatch_headline_ws.
Qed.

(* ------------------------------------------------------------------ *)
(** ** The automaton of the citation pattern *)

Lemma accepts_fail (s : string) : accepts Q_fail s = false.
Proof. unfold accepts. induction s as [|c s IH]; [reflexivity | exact IH]. Qed.

Lemma accepts_acc (s : string) : accepts Q_acc s = true.
Proof. unfold accepts. induction s as [|c s IH]; [reflexivity | exact IH]. Qed.

Lemma accepts_cons (st : cstate) (c : ascii) (s : string) :
  accepts st (String c s) = accepts (cstep st c) s.
Proof. reflexivity. Qed.

Lemma cstep_ws_stable (st : cstate) (c : ascii) :
  ws_stable st -> is_space c = true -> cstep st c = st.
Proof.
  intros [-> | [-> | [-> | ->]]] Hc; cbn [cstep].
  - now rewrite Hc.
  - now rewrite (space_not_char "]" c eq_refl Hc).
  - now rewrite (space_not_char ":" c eq_refl Hc).
  - now rewrite Hc.
Qed.

Lemma crun_ws_stable (st : cstate) (w b : string) :
  ws_stable st -> all_chars is_space w = true -> crun st (w ++ b) = crun st b.
Proof.
  intros Hst. induction w as [|c w IH]; intro Hw; [reflexivity |].
  cbn in Hw. apply andb_prop in Hw. destruct Hw as [Hc Hw].
  cbn [append crun]. rewrite (cstep_ws_stable st c Hst Hc). now apply IH.
Qed.

Lemma cstep_head0_space (c : ascii) : is_space c = true -> cstep Q_head0 c = Q_head.
Proof. intro Hc. cbn [cstep]. now rewrite (space_not_char ":" c eq_refl Hc). Qed.

(** Undoing the spaces of the fourth pass keeps a text in the
    language. *)
Lemma accepts_relaxed (s s' : string) :
  relaxed cite_site s s' ->
  forall st, accepts st s' = true -> accepts st s = true.
Proof.
  induction 1 as [s | c s s' _ IH | c w b b' Hw [Hc Hb] _ IH]; intros st H.
  - exact H.
  - rewrite accepts_cons in *. now apply IH.
  - rewrite accepts_cons in *. set (st1 := cstep st c) in *.
    assert (Hst1 : st1 <> Q_tag0).
    { unfold st1. destruct Hc as [-> | ->]; destruct st; discriminate. }
    rewrite accepts_cons in H.
    destruct st1 eqn:E; try congruence;
      match type of H with
      | accepts (cstep ?q " ") _ = _ =>
          let v := eval compute in (cstep q " ") in
          change (cstep q " ") with v in H
      end;
      try (rewrite accepts_fail in H; discriminate).
    + unfold accepts in *. rewrite crun_ws_stable by (unfold ws_stable; auto).
      apply IH. exact H.
    + unfold accepts in *. rewrite crun_ws_stable by (unfold ws_stable; auto).
      apply IH. exact H.
    + apply IH in H.
      destruct w as [|d w].
      * destruct b as [|e b]; [discriminate H |]. cbn [append].
        rewrite accepts_cons in *. cbn [starts_in] in Hb. unfold chr in Hb.
        cbn [cstep] in *. now rewrite Hb in *.
      * cbn in Hw. apply andb_prop in Hw. destruct Hw as [Hd Hw].
        cbn [append]. rewrite accepts_cons, (cstep_head0_space d Hd).
        unfold accepts in *. rewrite crun_ws_stable by (unfold ws_stable; auto).
        exact H.
    + unfold accepts in *. rewrite crun_ws_stable by (unfold ws_stable; auto).
      apply IH. exact H.
    + unfold accepts in *. rewrite crun_ws_stable by (unfold ws_stable; auto).
      apply IH. exact H.
    + apply accepts_acc.
Qed.

Lemma matched_obind (A B : Type) (x : option A) (f : A -> option B) :
  matched (obind x f) = oacc x (fun a => matched (f a)).
Proof. now destruct x. Qed.

Lemma oacc_ext (A : Type) (x : option A) (f f' : A -> bool) :
  (forall a, f a = f' a) -> oacc x f = oacc x f'.
Proof. intro H. destruct x; [apply H | reflexivity]. Qed.

(** A run of a class closed by a character outside it, read by the
    automaton. *)
Lemma accepts_run (q0 q q' : cstate) (p : cls) (a : ascii) :
  is_acc q0 = false -> is_acc q = false ->
  (forall c, cstep q0 c = if p c then q else Q_fail) ->
  (forall c, cstep q c = if p c then q
                         else if Ascii.eqb a c then q' else Q_fail) ->
  forall s, accepts q0 s
            = oacc (run1 p s) (fun x => oacc (expect a (snd x)) (accepts q')).
Proof.
  intros H0 Hq Hs0 Hs.
  assert (Hin : forall s, accepts q s
                          = oacc (expect a (drop_while p s)) (accepts q')).
  { induction s as [|c s IH]; [exact Hq |].
    rewrite accepts_cons, Hs. cbn [drop_while].
    destruct (p c); [exact IH |]. cbn [expect].
    destruct (Ascii.eqb a c); [reflexivity | apply accepts_fail]. }
  intros [|c s]; [exact H0 |].
  rewrite accepts_cons, Hs0. unfold run1. cbn [take_while drop_while].
  destruct (p c); [apply Hin | apply accepts_fail].
Qed.

Lemma accepts_open (s : string) :
  accepts Q_open s = oacc (expect "[" s) (accepts Q_digit0).
Proof.
  destruct s as [|c s]; [reflexivity |]. rewrite accepts_cons. cbn [cstep expect].
  destruct (Ascii.eqb "[" c); [reflexivity | apply accepts_fail].
Qed.

Lemma accepts_digits (s : string) :
  accepts Q_digit0 s
  = oacc (run1 is_decimal s)
         (fun x => oacc (expect "]" (snd x)) (accepts Q_gap)).
Proof. apply (accepts_run Q_digit0 Q_digits Q_gap); reflexivity. Qed.

Lemma accepts_gap (s : string) :
  accepts Q_gap s = oacc (expect "[" (drop_while is_space s)) (accepts Q_tag0).
Proof.
  induction s as [|c s IH]; [reflexivity |].
  rewrite accepts_cons. cbn [cstep drop_while].
  destruct (is_space c); [exact IH |]. cbn [expect].
  destruct (Ascii.eqb "[" c); [reflexivity | apply accepts_fail].
Qed.

Lemma accepts_tag (s : string) :
  accepts Q_tag0 s
  = oacc (run1 not_rbracket s)
         (fun x => oacc (expect "]" (snd x)) (accepts Q_head0)).
Proof.
  apply (accepts_run Q_tag0 Q_tag Q_head0); try reflexivity;
    intro c; cbn [cstep]; unfold not_rbracket, neg, chr;
    now destruct (Ascii.eqb "]" c).
Qed.

Lemma accepts_head (s : string) :
  accepts Q_head0 s
  = oacc (run1 not_colon s)
         (fun x => oacc (expect ":" (snd x)) (accepts Q_gap3)).
Proof.
  apply (accepts_run Q_head0 Q_head Q_gap3); try reflexivity;
    intro c; cbn [cstep]; unfold not_colon, neg, chr;
    now destruct (Ascii.eqb ":" c).
Qed.

Lemma accepts_url0 (s : string) : accepts Q_url0 s = starts_in not_ws s.
Proof.
  destruct s as [|c s]; [reflexivity |]. rewrite accepts_cons. cbn [cstep starts_in].
  destruct (not_ws c); [apply accepts_acc | apply accepts_fail].
Qed.

Lemma starts_with_cons (a : ascii) (p : string) (c : ascii) (s : string) :
  starts_with (String a p) (String c s) = Ascii.eqb a c && starts_with p s.
Proof. reflexivity. Qed.

Lemma parse_url_matched (s : string) :
  matched (parse_url s)
  = starts_with "http" s
    && (let t := drop 4 s in
        let t := if starts_with "s" t then drop 1 t else t in
        starts_with "://" t && starts_in not_ws (drop 3 t)).
Proof.
  unfold parse_url. destruct (starts_with "http" s); [| reflexivity].
  cbn [andb]. cbv zeta.
  destruct (starts_with "://" _); [| reflexivity]. cbn [andb].
  destruct (drop 3 _) as [|c u]; [reflexivity |]. cbn [starts_in].
  now destruct (not_ws c).
Qed.

Ltac step_char c s :=
  destruct s as [|c s];
  [ reflexivity
  | rewrite accepts_cons; cbn [cstep]; rewrite ?starts_with_cons ].

Lemma accepts_colon (t : string) :
  accepts Q_colon t = starts_with "//" t && starts_in not_ws (drop 2 t).
Proof.
  step_char d1 t.
  destruct (Ascii.eqb "/" d1); [| apply accepts_fail]. cbn [andb].
  step_char d2 t.
  destruct (Ascii.eqb "/" d2); [| apply accepts_fail].
  change (starts_with "" t) with true. cbn [andb drop]. apply accepts_url0.
Qed.

Lemma accepts_http (t : string) :
  accepts Q_http t
  = (let t' := if starts_with "s" t then drop 1 t else t in
     starts_with "://" t' && starts_in not_ws (drop 3 t')).
Proof.
  destruct t as [|c5 t]; [reflexivity |].
  rewrite accepts_cons. cbn [cstep]. cbv zeta. rewrite starts_with_cons.
  destruct (Ascii.eqb "s" c5) eqn:E5; cbn [andb].
  - change (starts_with "" t) with true. cbv iota. cbn [drop].
    destruct t as [|c6 t]; [reflexivity |].
    rewrite accepts_cons. cbn [cstep]. rewrite starts_with_cons.
    destruct (Ascii.eqb ":" c6); [| apply accepts_fail].
    cbn [andb drop]. apply accepts_colon.
  - rewrite starts_with_cons.
    destruct (Ascii.eqb ":" c5); [| apply accepts_fail].
    cbn [andb drop]. apply accepts_colon.
Qed.

(** From the h of the scheme on, the automaton reads a URL. *)
Lemma accepts_scheme (s : string) :
  starts_in is_space s = false -> accepts Q_gap3 s = matched (parse_url s).
Proof.
  intro Hs. rewrite parse_url_matched.
  destruct s as [|c1 s]; [reflexivity |].
  rewrite accepts_cons. cbn [cstep]. cbn [starts_in] in Hs. rewrite Hs.
  rewrite starts_with_cons.
  destruct (Ascii.eqb "h" c1); [| apply accepts_fail]. cbn [andb].
  step_char c2 s. destruct (Ascii.eqb "t" c2); [| apply accepts_fail]. cbn [andb].
  step_char c3 s. destruct (Ascii.eqb "t" c3); [| apply accepts_fail]. cbn [andb].
  step_char c4 s. destruct (Ascii.eqb "p" c4); [| apply accepts_fail].
  change (starts_with "" s) with true. cbn [andb drop]. apply accepts_http.
Qed.

Lemma drop_while_head (p : ascii -> bool) (s : string) :
  starts_in p (drop_while p s) = false.
Proof.
  induction s as [|c s IH]; [reflexivity |]. cbn [drop_while].
  destruct (p c) eqn:E; [exact IH |]. cbn [starts_in]. exact E.
Qed.

Lemma accepts_gap3 (s : string) :
  accepts Q_gap3 s = matched (parse_url (drop_while is_space s)).
Proof.
  induction s as [|c s IH]; [reflexivity |].
  cbn [drop_while]. destruct (is_space c) eqn:Ec.
  - rewrite accepts_cons. cbn [cstep]. now rewrite Ec.
  - apply accepts_scheme. cbn [starts_in]. exact Ec.
Qed.

(** The automaton accepts the texts at whose start the pattern
    matches. *)
Lemma accepts_parse (s : string) :
  accepts Q_open s = matched (parse_citation s).
Proof.
  unfold parse_citation. rewrite accepts_open, matched_obind.
  apply oacc_ext. intro s1. rewrite accepts_digits, matched_obind.
  apply oacc_ext. intro d. rewrite matched_obind.
  apply oacc_ext. intro s2. rewrite accepts_gap, matched_obind.
  apply oacc_ext. intro s3. rewrite accepts_tag, matched_obind.
  apply oacc_ext. intro t. rewrite matched_obind.
  apply oacc_ext. intro s4. rewrite accepts_head, matched_obind.
  apply oacc_ext. intro pre. unfold parse_tail. rewrite matched_obind.
  apply oacc_ext. intro s5. rewrite accepts_gap3.
  now destruct (parse_url (drop_while is_space s5)).
Qed.

(* ------------------------------------------------------------------ *)
(** ** The parts of a match of the citation pattern *)

Lemma all_chars_app (p : ascii -> bool) (a b : string) :
  all_chars p (a ++ b) = all_chars p a && all_chars p b.
Proof.
  induction a as [|c a IH]; [reflexivity |]. cbn [append all_chars].
  now rewrite IH, andb_assoc.
Qed.

Lemma take_while_all (p : ascii -> bool) (s : string) :
  all_chars p (take_while p s) = true.
Proof.
  induction s as [|c s IH]; [reflexivity |]. cbn [take_while].
  destruct (p c) eqn:E; [| reflexivity]. cbn [all_chars]. now rewrite E.
Qed.

Lemma expect_inv (a : ascii) (s s' : string) :
  expect a s = Some s' -> s = String a s'.
Proof.
  destruct s as [|c s]; [discriminate |]. cbn [expect].
  destruct (Ascii.eqb_spec a c) as [-> |]; [| discriminate]. now intros [= ->].
Qed.

Lemma expect_cons (a : ascii) (s : string) : expect a (String a s) = Some s.
Proof. cbn [expect]. now rewrite Ascii.eqb_refl. Qed.

Lemma run1_inv (p : ascii -> bool) (s : string) (x : string * string) :
  run1 p s = Some x ->
  s = fst x ++ snd x /\ run_of p (fst x) /\ starts_in p (snd x) = false.
Proof.
  unfold run1. destruct (take_while p s) as [|c t] eqn:E; [discriminate |].
  intros [= <-]. cbn [fst snd]. rewrite <- E. split; [| split; [split |]].
  - symmetry. apply take_drop_while.
  - rewrite E. discriminate.
  - apply take_while_all.
  - apply drop_while_head.
Qed.

Lemma take_while_app (p : ascii -> bool) (a b : string) :
  all_chars p a = true -> starts_in p b = false -> take_while p (a ++ b) = a.
Proof.
  induction a as [|c a IH]; intros Ha Hb.
  - destruct b as [|d b]; [reflexivity |]. cbn in *. now rewrite Hb.
  - cbn in Ha. apply andb_prop in Ha. destruct Ha as [Hc Ha].
    cbn [append take_while]. rewrite Hc. now rewrite IH.
Qed.

Lemma drop_while_app (p : ascii -> bool) (a b : string) :
  all_chars p a = true -> starts_in p b = false -> drop_while p (a ++ b) = b.
Proof.
  induction a as [|c a IH]; intros Ha Hb.
  - destruct b as [|d b]; [reflexivity |]. cbn in *. now rewrite Hb.
  - cbn in Ha. apply andb_prop in Ha. destruct Ha as [Hc Ha].
    cbn [append drop_while]. rewrite Hc. now apply IH.
Qed.

Lemma run1_app (p : ascii -> bool) (a b : string) :
  run_of p a -> starts_in p b = false -> run1 p (a ++ b) = Some (a, b).
Proof.
  intros [Hne Ha] Hb. unfold run1.
  rewrite take_while_app, drop_while_app by assumption.
  destruct a; [congruence | reflexivity].
Qed.

Lemma starts_with_inv (p : string) : forall s,
  starts_with p s = true -> s = p ++ drop (String.length p) s.
Proof.
  induction p as [|a p IH]; intros s H; [reflexivity |].
  destruct s as [|c s]; [discriminate |]. cbn [starts_with] in H.
  apply andb_prop in H. destruct H as [Hc H]. apply Ascii.eqb_eq in Hc. subst c.
  cbn [String.length drop append]. f_equal. now apply IH.
Qed.

Lemma starts_with_app (p s : string) : starts_with p (p ++ s) = true.
Proof.
  induction p as [|a p IH]; [reflexivity |]. cbn [append starts_with].
  now rewrite Ascii.eqb_refl, IH.
Qed.

Lemma drop_app (p s : string) : drop (String.length p) (p ++ s) = s.
Proof. induction p as [|a p IH]; [reflexivity | exact IH]. Qed.

Lemma url_intro (scheme : string) (c : ascii) (u rest : string) :
  scheme = "http://" \/ scheme = "https://" ->
  not_ws c = true -> rest = drop_while not_ws u ->
  exists url, is_url url /\ scheme ++ String c u = url ++ rest
              /\ starts_in not_ws rest = false.
Proof.
  intros Hs Hc ->. exists (scheme ++ String c (take_while not_ws u)).
  split; [| split].
  - exists scheme, (String c (take_while not_ws u)).
    repeat split; try assumption; try discriminate.
    cbn [all_chars]. now rewrite Hc, take_while_all.
  - rewrite append_assoc. cbn [append]. now rewrite take_drop_while.
  - apply drop_while_head.
Qed.

Lemma parse_url_inv (s rest : string) :
  parse_url s = Some rest ->
  exists url, is_url url /\ s = url ++ rest /\ starts_in not_ws rest = false.
Proof.
  unfold parse_url. destruct (starts_with "http" s) eqn:E1; [| discriminate].
  apply starts_with_inv in E1. change (String.length "http") with 4 in E1.
  remember (drop 4 s) as t eqn:Et. clear Et. subst s.
  destruct (starts_with "s" t) eqn:E2.
  - apply starts_with_inv in E2. change (String.length "s") with 1 in E2.
    remember (drop 1 t) as t1 eqn:Et1. clear Et1. subst t.
    destruct (starts_with "://" t1) eqn:E3; [| discriminate].
    apply starts_with_inv in E3. change (String.length "://") with 3 in E3.
    remember (drop 3 t1) as t2 eqn:Et2. clear Et2. subst t1.
    destruct t2 as [|c u]; [discriminate |].
    destruct (not_ws c) eqn:Ec; [| discriminate]. intros [= <-].
    apply (url_intro "https://" c u); auto.
  - destruct (starts_with "://" t) eqn:E3; [| discriminate].
    apply starts_with_inv in E3. change (String.length "://") with 3 in E3.
    remember (drop 3 t) as t2 eqn:Et2. clear Et2. subst t.
    destruct t2 as [|c u]; [discriminate |].
    destruct (not_ws c) eqn:Ec; [| discriminate]. intros [= <-].
    apply (url_intro "http://" c u); auto.
Qed.

Lemma parse_url_app (url out : string) :
  is_url url -> starts_in not_ws out = false -> parse_url (url ++ out) = Some out.
Proof.
  intros [scheme [u [-> [Hs [Hne Hu]]]]] Hout.
  destruct u as [|c u]; [congruence |]. cbn [all_chars] in Hu.
  apply andb_prop in Hu. destruct Hu as [Hc Hu].
  assert (Hd : drop_while not_ws (u ++ out) = out) by now apply drop_while_app.
  unfold parse_url. destruct Hs as [-> | ->]; cbn [append starts_with drop];
    rewrite ?Ascii.eqb_refl; cbn [andb].
  - destruct (Ascii.eqb "s" ":") eqn:E; [discriminate E |]. cbn [andb].
    rewrite ?Ascii.eqb_refl. cbn [andb drop]. now rewrite Hc, Hd.
  - rewrite ?Ascii.eqb_refl. cbn [andb drop]. now rewrite Hc, Hd.
Qed.

Lemma is_url_head (url : string) :
  is_url url -> exists r, url = String "h" r.
Proof.
  intros [scheme [u [-> [[-> | ->] _]]]]; eexists; reflexivity.
Qed.

Lemma last_char_split (s : string) :
  s <> "" -> exists a c, s = a ++ String c "" /\ last_char s = String c "".
Proof.
  induction s as [|c s IH]; [congruence |]. intros _.
  destruct s as [|d s].
  - exists "", c. now split.
  - destruct IH as [a [e [E1 E2]]]; [discriminate |].
    exists (String c a), e. cbn [append]. rewrite <- E1. now split.
Qed.

Lemma drop_while_nil_all (p : ascii -> bool) (s : string) :
  drop_while p s = "" -> all_chars p s = true.
Proof.
  induction s as [|c s IH]; [reflexivity |]. cbn [drop_while all_chars].
  destruct (p c); [exact IH | discriminate].
Qed.

(** The headline is the end of the text before the colon, after
    whitespace only. *)
Lemma headline_split (pre : string) :
  pre <> "" ->
  exists w2, pre = w2 ++ headline_of pre
             /\ all_chars is_space w2 = true /\ headline_of pre <> "".
Proof.
  intro Hne. unfold headline_of.
  destruct (drop_while is_space pre) as [|c h] eqn:E.
  - destruct (last_char_split pre Hne) as [a [c [E1 E2]]].
    exists a. rewrite E2. split; [exact E1 |]. split; [| discriminate].
    apply drop_while_nil_all in E. rewrite E1, all_chars_app in E.
    now apply andb_prop in E.
  - exists (take_while is_space pre). rewrite <- E.
    split; [symmetry; apply take_drop_while |].
    split; [apply take_while_all | rewrite E; discriminate].
Qed.

Lemma headline_of_idem (pre : string) :
  headline_of (headline_of pre) = headline_of pre.
Proof.
  unfold headline_of at 2 3.
  destruct (drop_while is_space pre) as [|c h] eqn:E.
  - destruct pre as [|a pre]; [reflexivity |].
    destruct (last_char_split (String a pre)) as [x [c [_ E2]]]; [discriminate |].
    rewrite E2. apply headline_of_one.
  - apply headline_of_word. assert (H := drop_while_head is_space pre).
    rewrite E in H. exact H.
Qed.

Lemma headline_of_renorm (pre : string) :
  pre <> "" ->
  headline_of (String " " (headline_of pre)) = headline_of pre.
Proof.
  intro Hne. destruct (headline_split pre Hne) as [_ [_ [_ Hh]]].
  rewrite (headline_of_space " " _ eq_refl Hh). apply headline_of_idem.
Qed.

Lemma parse_citation_inv (s : string) (g : groups) (rest : string) :
  parse_citation s = Some (g, rest) ->
  exists d w1 t pre w3 url,
    s = String "[" (d ++ String "]" (w1 ++ String "[" (t ++ String "]"
          (pre ++ String ":" (w3 ++ url ++ rest)))))
    /\ g = [(4, url); (3, headline_of pre); (2, t); (1, d)]
    /\ run_of is_decimal d /\ all_chars is_space w1 = true
    /\ run_of not_rbracket t /\ run_of not_colon pre
    /\ all_chars is_space w3 = true /\ is_url url
    /\ starts_in not_ws rest = false.
Proof.
  unfold parse_citation, parse_tail.
  destruct (expect "[" s) as [s1|] eqn:E1; [| discriminate]. cbn [obind].
  destruct (run1 is_decimal s1) as [d|] eqn:E2; [| discriminate]. cbn [obind].
  destruct (expect "]" (snd d)) as [s2|] eqn:E3; [| discriminate]. cbn [obind].
  destruct (expect "[" (drop_while is_space s2)) as [s3|] eqn:E4;
    [| discriminate]. cbn [obind].
  destruct (run1 not_rbracket s3) as [t|] eqn:E5; [| discriminate]. cbn [obind].
  destruct (expect "]" (snd t)) as [s4|] eqn:E6; [| discriminate]. cbn [obind].
  destruct (run1 not_colon s4) as [pre|] eqn:E7; [| discriminate]. cbn [obind].
  destruct (expect ":" (snd pre)) as [s5|] eqn:E8; [| discriminate]. cbn [obind].
  destruct (parse_url (drop_while is_space s5)) as [r|] eqn:E9; [| discriminate].
  cbn [obind]. intros [= <- <-].
  apply expect_inv in E1, E3, E4, E6, E8.
  apply run1_inv in E2, E5, E7.
  destruct E2 as [E2 [Hd _]], E5 as [E5 [Ht _]], E7 as [E7 [Hp _]].
  apply parse_url_inv in E9. destruct E9 as [url [Hu [E9 Hr]]].
  exists (fst d), (take_while is_space s2), (fst t), (fst pre),
    (take_while is_space s5), url.
  rewrite E9, consumed_app. repeat split; try assumption;
    try apply take_while_all; try apply Hd; try apply Ht; try apply Hp.
  rewrite E1, E2, E3. do 3 f_equal.
  rewrite <- (take_drop_while is_space s2) at 1. f_equal.
  rewrite E4, E5, E6. do 3 f_equal. rewrite E7, E8. do 2 f_equal.
  rewrite <- (take_drop_while is_space s5) at 1. now rewrite E9.
Qed.

Lemma citation_line_nonempty : nonempty_matches Pat.citation_line.
Proof.
  intros s g rest. rewrite match_here_citation_line. intro H.
  apply parse_citation_inv in H.
  destruct H as [d [w1 [t [pre [w3 [url [-> _]]]]]]].
  repeat (cbn [String.length] || rewrite append_length). lia.
Qed.

Lemma relaxed_app (ok : ascii -> string -> string -> Prop) (a b b' : string) :
  relaxed ok b b' -> relaxed ok (a ++ b) (a ++ b').
Proof.
  intro H. induction a as [|c a IH]; [exact H | now apply rl_char].
Qed.

Lemma relaxed_head (ok : ascii -> string -> string -> Prop) (p : ascii -> bool)
  (s s' : string) :
  relaxed ok s s' -> starts_in p s = starts_in p s'.
Proof. now destruct 1. Qed.

Lemma run_of_head (p : ascii -> bool) (s : string) :
  run_of p s -> exists c r, s = String c r /\ p c = true.
Proof.
  intros [Hne H]. destruct s as [|c r]; [congruence |].
  cbn in H. apply andb_prop in H. exists c, r. now split.
Qed.

Lemma citation_repl_shape (d t h url out : string) :
  citation_repl [(4, url); (3, h); (2, t); (1, d)] ++ out
  = String "[" (d ++ String "]" (String " " (String "[" (t ++ String "]"
      (String " " (h ++ String ":" (String " " (url ++ out)))))))).
Proof.
  unfold citation_repl. cbn [group Nat.eqb].
  repeat (rewrite append_assoc; cbn [append]). reflexivity.
Qed.

(** The headline of a match: a run without colon, unchanged when read
    again after one space. *)
Lemma headline_run (pre : string) :
  run_of not_colon pre ->
  exists w2, pre = w2 ++ headline_of pre /\ all_chars is_space w2 = true
             /\ run_of not_colon (headline_of pre)
             /\ headline_of (String " " (headline_of pre)) = headline_of pre.
Proof.
  intros [Hne Hall]. destruct (headline_split pre Hne) as [w2 [E [Hw Hh]]].
  exists w2. repeat split; try assumption.
  - rewrite E, all_chars_app in Hall. now apply andb_prop in Hall.
  - now apply headline_of_renorm.
Qed.

(** The fourth pass only puts single spaces at its three places. *)
Lemma citation_relaxed (s : string) (g : groups) (rest out : string) :
  parse_citation s = Some (g, rest) -> relaxed cite_site rest out ->
  relaxed cite_site s (citation_repl g ++ out).
Proof.
  intros H Hr. apply parse_citation_inv in H.
  destruct H as [d [w1 [t [pre [w3 [url [-> [-> [Hd [Hw1 [Ht [Hp [Hw3 [Hu _]]]]]]]]]]]]]].
  destruct (headline_run pre Hp) as [w2 [Epre [Hw2 [Hh _]]]].
  rewrite citation_repl_shape. apply rl_char, relaxed_app.
  apply rl_site; [exact Hw1 | split; [now left | reflexivity] |].
  apply rl_char, relaxed_app.
  rewrite Epre at 1. rewrite append_assoc.
  apply rl_site; [exact Hw2 | split; [now left |] |].
  - destruct (run_of_head _ _ Hh) as [c [r [E Hc]]]. rewrite E. cbn [append starts_in].
    unfold not_colon, neg in Hc. now apply negb_true_iff in Hc.
  - apply relaxed_app.
    apply rl_site; [exact Hw3 | split; [now right |] |].
    + destruct (is_url_head url Hu) as [r ->]. reflexivity.
    + now apply relaxed_app.
Qed.

(** The pattern matches the normalised form of an entry and gives the
    same groups. *)
Lemma parse_citation_normal (d t h url out : string) :
  run_of is_decimal d -> run_of not_rbracket t -> run_of not_colon h ->
  headline_of (String " " h) = h -> is_url url ->
  starts_in not_ws out = false ->
  parse_citation
    (String "[" (d ++ String "]" (String " " (String "[" (t ++ String "]"
       (String " " (h ++ String ":" (String " " (url ++ out)))))))))
  = Some ([(4, url); (3, h); (2, t); (1, d)], out).
Proof.
  intros Hd Ht Hh Hhh Hu Hout. unfold parse_citation.
  rewrite expect_cons. cbn [obind].
  rewrite (run1_app is_decimal d) by (auto; reflexivity). cbn [obind fst snd].
  rewrite expect_cons. cbn [obind].
  change (drop_while is_space (String " " (String "[" ?x)))
    with (String "[" x).
  rewrite expect_cons. cbn [obind].
  rewrite (run1_app not_rbracket t) by (auto; reflexivity). cbn [obind fst snd].
  rewrite expect_cons. cbn [obind].
  assert (Hsh : run_of not_colon (String " " h)).
  { destruct Hh as [_ Hh]. split; [discriminate |]. cbn [all_chars].
    now rewrite Hh. }
  change (String " " (h ++ ?x)) with (String " " h ++ x).
  rewrite (run1_app not_colon (String " " h)) by (auto; reflexivity).
  cbn [obind fst snd]. rewrite Hhh. unfold parse_tail.
  rewrite expect_cons. cbn [obind].
  destruct (is_url_head url Hu) as [r Er].
  assert (Hdw : drop_while is_space (String " " (url ++ out)) = url ++ out).
  { apply (drop_while_app is_space (String " " "") (url ++ out)); [reflexivity |].
    rewrite Er. reflexivity. }
  rewrite Hdw, (parse_url_app url out Hu Hout). cbn [obind].
  now rewrite consumed_app.
Qed.

(** The result of the fourth pass differs from its input by single
    spaces only, and the fourth pass leaves it unchanged. *)
Lemma citation_sub_stable (s out : string) :
  sub_rel Pat.citation_line citation_repl s out ->
  relaxed cite_site s out
  /\ sub_rel Pat.citation_line citation_repl out out.
Proof.
  induction 1 as [| c s out Hm _ [IHr IHs] | s g rest out Hm _ [IHr IHs]].
  - split; constructor.
  - assert (Hr : relaxed cite_site (String c s) (String c out))
      by now apply rl_char.
    split; [exact Hr |]. apply sub_skip; [| exact IHs].
    destruct (match_here Pat.citation_line (String c out)) as [x|] eqn:E;
      [exfalso | reflexivity].
    assert (Ha : accepts Q_open (String c out) = true).
    { rewrite accepts_parse, <- match_here_citation_line, E. reflexivity. }
    apply (accepts_relaxed _ _ Hr) in Ha.
    rewrite accepts_parse, <- match_here_citation_line, Hm in Ha. discriminate.
  - rewrite match_here_citation_line in Hm.
    split; [now apply (citation_relaxed s g rest out) |].
    apply sub_hit with (rest := out); [| exact IHs].
    rewrite match_here_citation_line.
    apply parse_citation_inv in Hm.
    destruct Hm as [d [w1 [t [pre [w3 [url [_ [-> [Hd [_ [Ht [Hp [_ [Hu Hrest]]]]]]]]]]]]]].
    destruct (headline_run pre Hp) as [w2 [_ [_ [Hh Hhh]]]].
    rewrite citation_repl_shape.
    apply parse_citation_normal; try assumption.
    now rewrite <- (relaxed_head cite_site not_ws rest out IHr).
Qed.

(* ------------------------------------------------------------------ *)
(** ** The normaliser *)

Lemma upper_not_lower (c : ascii) : is_upper c = true -> is_lower c = false.
Proof.
  unfold is_upper, is_lower, in_range. intro H.
  apply andb_prop in H. destruct H as [_ H]. apply N.leb_le in H.
  apply andb_false_iff. left. apply N.leb_gt. lia.
Qed.

Lemma upper_not_sentence_end (c : ascii) :
  is_upper c = true -> Pat.is_sentence_end c = false.
Proof.
  intro H. unfold Pat.is_sentence_end.
  destruct (Ascii.eqb_spec c ".") as [-> |]; [discriminate H |].
  destruct (Ascii.eqb_spec c "!") as [-> |]; [discriminate H |].
  destruct (Ascii.eqb_spec c "?") as [-> |]; [discriminate H |].
  reflexivity.
Qed.

Section CleanText.
Variable text : string.

Let t1 := sub Pat.blank_run blank_repl text.
Let t2 := sub (pair_pattern is_lower is_upper) spaced_repl t1.
Let t3 := sub (pair_pattern Pat.is_sentence_end is_upper) spaced_repl t2.
Let t4 := sub Pat.citation_line citation_repl t3.

Lemma clean_text_passes : clean_text text = t4.
Proof. reflexivity. Qed.

Lemma pass1 : sub_rel Pat.blank_run blank_repl text t1.
Proof. apply sub_is_rel, blank_run_nonempty. Qed.

Lemma pass2 : sub_rel (pair_pattern is_lower is_upper) spaced_repl t1 t2.
Proof. apply sub_is_rel, pair_nonempty. Qed.

Lemma pass3 :
  sub_rel (pair_pattern Pat.is_sentence_end is_upper) spaced_repl t2 t3.
Proof. apply sub_is_rel, pair_nonempty. Qed.

Lemma pass4 : sub_rel Pat.citation_line citation_repl t3 t4.
Proof. apply sub_is_rel, citation_line_nonempty. Qed.

Lemma relaxed12 : relaxed any_site t1 t2.
Proof. apply (pair_sub_relaxed _ _ _ _ pass2). Qed.

Lemma relaxed23 : relaxed any_site t2 t3.
Proof. apply (pair_sub_relaxed _ _ _ _ pass3). Qed.

Lemma relaxed34 : relaxed cite_site t3 t4.
Proof. apply (citation_sub_stable _ _ pass4). Qed.

(** The result has no run of blank lines left. *)
Lemma clean_no_blank_run : blank_bad 0 t4 = false.
Proof.
  apply (blank_bad_relaxed _ _ _ relaxed34).
  apply (blank_bad_relaxed _ _ _ relaxed23).
  apply (blank_bad_relaxed _ _ _ relaxed12).
  apply (blank_sub_clean _ _ pass1). now left.
Qed.

(** No capital letter right after a small one. *)
Lemma clean_no_camel : pair_bad is_lower is_upper false t4 = false.
Proof.
  apply (pair_bad_relaxed is_lower is_upper eq_refl eq_refl _ _ _ relaxed34).
  apply (pair_bad_relaxed is_lower is_upper eq_refl eq_refl _ _ _ relaxed23).
  apply (pair_sub_clean is_lower is_upper upper_not_lower eq_refl eq_refl
           _ _ pass2). reflexivity.
Qed.

(** No capital letter right after the end of a sentence. *)
Lemma clean_no_sentence :
  pair_bad Pat.is_sentence_end is_upper false t4 = false.
Proof.
  apply (pair_bad_relaxed Pat.is_sentence_end is_upper eq_refl eq_refl
           _ _ _ relaxed34).
  apply (pair_sub_clean Pat.is_sentence_end is_upper upper_not_sentence_end
           eq_refl eq_refl _ _ pass3). reflexivity.
Qed.

Lemma clean_text_fixed : clean_text t4 = t4.
Proof.
  change (clean_text t4)
    with (sub Pat.citation_line citation_repl
            (sub (pair_pattern Pat.is_sentence_end is_upper) spaced_repl
               (sub (pair_pattern is_lower is_upper) spaced_repl
                  (sub Pat.blank_run blank_repl t4)))).
  rewrite (sub_rel_eq _ _ blank_run_nonempty t4 t4)
    by (apply (blank_sub_id t4 0); [lia | exact clean_no_blank_run]).
  rewrite (sub_rel_eq _ _ (pair_nonempty is_lower is_upper) t4 t4)
    by (apply (pair_sub_id is_lower is_upper t4 false), clean_no_camel).
  rewrite (sub_rel_eq _ _ (pair_nonempty Pat.is_sentence_end is_upper) t4 t4)
    by (apply (pair_sub_id Pat.is_sentence_end is_upper t4 false),
         clean_no_sentence).
  apply (sub_rel_eq _ _ citation_line_nonempty).
  apply (citation_sub_stable _ _ pass4).
Qed.
End CleanText.


(* ------------------------------------------------------------------ *)
(** ** The bracket numbers of the reference section *)

Lemma finditer_fuel_skip_groups (r : regex) (f : nat) (c : ascii) (s : string) :
  match_here r (String c s) = None ->
  map grps (finditer_fuel (S f) r (String c s))
  = map grps (finditer_fuel (S f) r s).
Proof.
  intro H. cbn [finditer_fuel]. unfold search. cbn [search_acc]. rewrite H.
  rewrite search_acc_skipped. destruct (search_acc r "" s) as [m|]; reflexivity.
Qed.

Lemma finditer_fuel_hit (r : regex) (f : nat) (s : string) (g : groups)
  (rest : string) :
  match_here r s = Some (g, rest) ->
  String.length rest < String.length s ->
  map grps (finditer_fuel (S f) r s) = g :: map grps (finditer_fuel f r rest).
Proof.
  intros H Hlen. cbn [finditer_fuel]. unfold search.
  destruct s as [|c s]; cbn [search_acc]; rewrite H; cbn [whole after map grps].
  - simpl in Hlen. lia.
  - destruct (consumed (String c s) rest) eqn:E.
    + now apply consumed_nonempty in E.
    + reflexivity.
Qed.

Lemma finditer_fuel_rel (r : regex) :
  nonempty_matches r ->
  forall n s f, String.length s <= n -> String.length s < f ->
  matches_rel r s (map grps (finditer_fuel f r s)).
Proof.
  intros Hne n. induction n as [|n IH]; intros s f Hn Hf.
  - destruct s; [| simpl in Hn; lia]. destruct f; [lia |].
    cbn. rewrite (match_here_empty r Hne). constructor.
  - destruct f as [|f]; [lia |].
    destruct (match_here r s) as [[g rest]|] eqn:E.
    + assert (Hlen := Hne _ _ _ E).
      rewrite (finditer_fuel_hit _ _ _ _ _ E Hlen).
      apply mr_hit with (rest := rest); [exact E |]. apply IH; lia.
    + destruct s as [|c s].
      * cbn. rewrite E. constructor.
      * rewrite finditer_fuel_skip_groups by exact E. apply mr_skip; [exact E |].
        apply IH; simpl in *; lia.
Qed.

Lemma finditer_rel (r : regex) (s : string) :
  nonempty_matches r -> matches_rel r s (map grps (finditer r s)).
Proof.
  intro Hne. apply (finditer_fuel_rel r Hne (String.length s)); lia.
Qed.

(** The bracket pattern read as a parser. *)
Lemma match_here_bracket (s : string) :
  match_here Pat.bracket_pattern s
  = obind (expect "[" s) (fun s1 =>
    obind (run1 is_decimal s1) (fun d =>
    obind (expect "]" (snd d)) (fun rest =>
    Some ([(1, fst d)], rest)))).
Proof.
  unfold match_here, Pat.bracket_pattern. cbn [seqs lit].
  rewrite rmatch_seq, rmatch_char.
  destruct (expect "[" s) as [s1|]; [| reflexivity]. cbn [obind].
  rewrite rmatch_seq, rmatch_grp_plus.
  2:{ intros c s' g' Hc. rewrite rmatch_char.
      now rewrite (expect_class is_decimal "]" c s'). }
  destruct (run1 is_decimal s1) as [d|]; [| reflexivity]. cbn [obind].
  now rewrite rmatch_char.
Qed.

Lemma match_here_bracket_inv (s : string) (g : groups) (rest : string) :
  match_here Pat.bracket_pattern s = Some (g, rest) ->
  exists ds, s = String "[" (ds ++ String "]" rest)
             /\ g = [(1, ds)] /\ run_of is_decimal ds.
Proof.
  rewrite match_here_bracket.
  destruct (expect "[" s) as [s1|] eqn:E1; [| discriminate]. cbn [obind].
  destruct (run1 is_decimal s1) as [d|] eqn:E2; [| discriminate]. cbn [obind].
  destruct (expect "]" (snd d)) as [r|] eqn:E3; [| discriminate]. cbn [obind].
  intros [= <- <-]. apply expect_inv in E1, E3. apply run1_inv in E2.
  destruct E2 as [E2 [Hd _]]. exists (fst d). repeat split; try apply Hd.
  now rewrite E1, E2, E3.
Qed.

Lemma match_here_bracket_at (ds b : string) :
  run_of is_decimal ds ->
  match_here Pat.bracket_pattern (String "[" (ds ++ String "]" b))
  = Some ([(1, ds)], b).
Proof.
  intro Hd. rewrite match_here_bracket, expect_cons. cbn [obind].
  rewrite (run1_app is_decimal ds) by (auto; reflexivity). cbn [obind fst snd].
  now rewrite expect_cons.
Qed.

Lemma bracket_pattern_nonempty : nonempty_matches Pat.bracket_pattern.
Proof.
  intros s g rest H. apply match_here_bracket_inv in H.
  destruct H as [ds [-> _]].
  repeat (cbn [String.length] || rewrite append_length). lia.
Qed.

(** A match of the bracket pattern ends before a bracket that opens
    later. *)
Lemma digits_align (d : string) : forall a rest x,
  all_chars is_decimal d = true ->
  d ++ String "]" rest = a ++ String "[" x ->
  exists a', rest = a' ++ String "[" x.
Proof.
  induction d as [|c d IH]; intros a rest x Hd E.
  - destruct a as [|e a]; cbn [append] in E; [discriminate E |].
    injection E as _ E. now exists a.
  - cbn in Hd. apply andb_prop in Hd. destruct Hd as [Hc Hd].
    destruct a as [|e a]; cbn [append] in E.
    + injection E as E _. subst c. discriminate Hc.
    + injection E as _ E. now apply (IH a rest x).
Qed.

Lemma digits_same (d ds : string) (r b : string) :
  run_of is_decimal d -> run_of is_decimal ds ->
  d ++ String "]" r = ds ++ String "]" b -> d = ds.
Proof.
  intros [_ Hd] [_ Hds] E.
  rewrite <- (take_while_app is_decimal d (String "]" r)) by (auto; reflexivity).
  rewrite E. now apply take_while_app.
Qed.

(** Every bracket number of the text is among the matches. *)
Lemma bracket_matches_complete (s : string) (l : list groups) :
  matches_rel Pat.bracket_pattern s l ->
  forall ds, bracket_occurs ds s -> In ds (map (group 1) l).
Proof.
  induction 1 as [| c s l Hm _ IH | s g rest l Hm _ IH];
    intros ds [a [b [E Hd]]].
  - destruct a; discriminate E.
  - destruct a as [|e a]; cbn [append] in E.
    + rewrite E, (match_here_bracket_at ds b Hd) in Hm. discriminate.
    + injection E as _ E. apply IH. now exists a, b.
  - apply match_here_bracket_inv in Hm. destruct Hm as [d [Es [-> Hd']]].
    cbn [map]. destruct a as [|e a]; cbn [append] in E.
    + left. rewrite Es in E. injection E as E. cbn [group Nat.eqb].
      now apply (digits_same d ds rest b).
    + right. rewrite Es in E. injection E as _ E.
      destruct (digits_align d a rest _ (proj2 Hd') E) as [a' E'].
      apply IH. now exists a', b.
Qed.

(** Every match is a bracket number of the text. *)
Lemma bracket_matches_sound (s : string) (l : list groups) :
  matches_rel Pat.bracket_pattern s l ->
  forall g, In g l -> bracket_occurs (group 1 g) s.
Proof.
  induction 1 as [| c s l Hm _ IH | s g0 rest l Hm _ IH]; intros g Hg.
  - destruct Hg.
  - destruct (IH g Hg) as [a [b [E Hd]]].
    exists (String c a), b. cbn [append]. now rewrite E.
  - apply match_here_bracket_inv in Hm. destruct Hm as [d [Es [-> Hd']]].
    destruct Hg as [<- | Hg].
    + exists "", rest. now split.
    + destruct (IH g Hg) as [a [b [E Hd]]].
      exists (String "[" (d ++ String "]" a)), b. split; [| exact Hd].
      rewrite Es, E. cbn [append]. now rewrite append_assoc.
Qed.

Lemma findall1_groups (r : regex) (s : string) :
  findall1 r s = map (group 1) (map grps (finditer r s)).
Proof. unfold findall1. now rewrite map_map. Qed.

Lemma decimal_isdigit (ds : string) : run_of is_decimal ds -> isdigit ds = true.
Proof.
  intros [Hne H]. unfold isdigit. destruct ds as [|c ds]; [congruence |].
  revert H. generalize (String c ds) as s. clear.
  induction s as [|c s IH]; cbn [all_chars]; [reflexivity |].
  intro H. apply andb_prop in H. destruct H as [Hc H].
  unfold is_digit_char. rewrite Hc. cbn [orb]. now apply IH.
Qed.

Lemma max_of_acc (l : list N) : forall acc x,
  In x l \/ (x <= acc)%N -> (x <= fold_left N.max l acc)%N.
Proof.
  induction l as [|a l IH]; intros acc x H; cbn [fold_left].
  - destruct H as [[] | H]. exact H.
  - apply IH. destruct H as [[<- | H] | H]; [right | now left | right]; lia.
Qed.

Lemma max_of_ge (l : list N) (x : N) : In x l -> (x <= max_of l)%N.
Proof. intro H. apply max_of_acc. now left. Qed.

Lemma max_of_attained_acc (l : list N) : forall acc,
  fold_left N.max l acc = acc \/ In (fold_left N.max l acc) l.
Proof.
  induction l as [|a l IH]; intro acc; cbn [fold_left]; [now left |].
  destruct (IH (N.max acc a)) as [E | H]; [| right; now right].
  rewrite E. destruct (N.max_spec acc a) as [[_ ->] | [_ ->]];
    [right; now left | now left].
Qed.

Lemma bracket_numbers_In (refs : string) (x : N) :
  In x (bracket_numbers refs)
  <-> exists ds, bracket_occurs ds refs
                 /\ (int_of_string ds <= 100)%N /\ x = int_of_string ds.
Proof.
  unfold bracket_numbers. rewrite set_of_list_In, in_map_iff. split.
  - intros [ds [<- H]]. apply filter_In in H. destruct H as [H Hf].
    apply andb_prop in Hf. destruct Hf as [_ Hf]. apply N.leb_le in Hf.
    exists ds. repeat split; try assumption.
    rewrite findall1_groups in H. apply in_map_iff in H.
    destruct H as [g [<- Hg]].
    apply (bracket_matches_sound refs _
             (finditer_rel _ refs bracket_pattern_nonempty) g Hg).
  - intros [ds [Hocc [Hle ->]]]. exists ds. split; [reflexivity |].
    apply filter_In. split.
    + rewrite findall1_groups.
      apply (bracket_matches_complete refs _
               (finditer_rel _ refs bracket_pattern_nonempty) ds Hocc).
    + destruct Hocc as [a [b [_ Hd]]]. rewrite (decimal_isdigit ds Hd).
      now apply N.leb_le.
Qed.

(** [max_citation_num] is the largest of the bracket numbers of the
    reference section that are at most 100, and 0 without any. *)
Lemma max_citation_num_spec (refs : string) :
  (forall ds, bracket_occurs ds refs -> (int_of_string ds <= 100)%N ->
              (int_of_string ds <= max_citation_num refs)%N)
  /\ (max_citation_num refs = 0%N
      \/ exists ds, bracket_occurs ds refs
                    /\ (int_of_string ds <= 100)%N
                    /\ max_citation_num refs = int_of_string ds).
Proof.
  unfold max_citation_num. split.
  - intros ds Hocc Hle. apply max_of_ge. apply bracket_numbers_In.
    now exists ds.
  - unfold max_of. destruct (max_of_attained_acc (bracket_numbers refs) 0%N)
      as [E | H]; [now left | right].
    apply bracket_numbers_In in H. destruct H as [ds [Hocc [Hle E]]].
    now exists ds.
Qed.

(* ------------------------------------------------------------------ *)
(** ** Properties of the record list *)

(** C6: for every input text the citation numbers of the output records
    are pairwise distinct and the list is in ascending order of citation
    number (strictly ascending, hence one record per number). *)
Theorem output_numbers_distinct_and_sorted (text : string) :
  NoDup (map citation_number (extract_citations_directly text))
  /\ StronglySorted N.lt (map citation_number (extract_citations_directly text)).
Proof.
  assert (Hnd := extract_numbers_nodup (fun s => s) text).
  split; [exact Hnd |].
  apply sorted_nodup_strict; [| exact Hnd].
  apply sorted_numbers. unfold extract_citations_directly.
  rewrite extract_unfold. apply sort_by_number_sorted.
Qed.

Lemma classify_citation_type_cases (url : string) :
  classify_citation_type url = "SQL" \/ classify_citation_type url = "Vector".
Proof.
  unfold classify_citation_type.
  destruct (negb (nonempty url)); [now right |].
  destruct (existsb _ _); [now left | now right].
Qed.

Lemma primary_record_classified (text : string) (m : raw_match) :
  internal_classified (primary_record text m).
Proof.
  destruct m as [[[num tag] h] url]. unfold internal_classified, primary_record.
  cbn [web_internal vector_sql]. intro H. rewrite H. cbn.
  apply classify_citation_type_cases.
Qed.

Lemma gap_record_classified (text refs : string) (n : N) (c : citation) :
  gap_record text refs n = Some c -> internal_classified c.
Proof.
  unfold gap_record. destruct (gap_context n refs) as [[h l] w].
  destruct (malformed h); [discriminate |]. intros [= <-] _.
  apply classify_citation_type_cases.
Qed.

Lemma output_internal_classified (text : string) :
  Forall internal_classified (extract_citations_directly text).
Proof.
  apply Forall_forall. intros c Hc.
  apply extract_provenance in Hc. destruct Hc as [[m [_ ->]] | [n [_ Hg]]].
  - apply primary_record_classified.
  - eapply gap_record_classified; eassumption.
Qed.

Lemma internal_counts_split (cs : list citation) :
  Forall internal_classified cs ->
  unique_internal_count cs
  = List.length (internal_sql_citations cs)
    + List.length (internal_vector_citations cs)
  /\ total_internal_occurrences cs
     = internal_sql_occurrences cs + internal_vector_occurrences cs.
Proof.
  unfold unique_internal_count, total_internal_occurrences,
    internal_sql_occurrences, internal_vector_occurrences,
    internal_sql_citations, internal_vector_citations.
  induction 1 as [|c cs Hc _ [IHn IHo]]; [split; reflexivity |].
  cbn [filter]. destruct (is_internal c) eqn:Ei; cbn [andb]; [| now split].
  apply String.eqb_eq in Ei. unfold sum_occurrences in *.
  destruct (Hc Ei) as [E | E].
  - assert (Hs : is_sql c = true) by (unfold is_sql; now rewrite E).
    assert (Hv : is_vector c = false) by (unfold is_vector; now rewrite E).
    rewrite Hs, Hv. cbn [List.length fold_right]. split; lia.
  - assert (Hs : is_sql c = false) by (unfold is_sql; now rewrite E).
    assert (Hv : is_vector c = true) by (unfold is_vector; now rewrite E).
    rewrite Hs, Hv. cbn [List.length fold_right]. split; lia.
Qed.

(** C10: for every input text the consistency validation passes: the
    Internal records are as many as the Internal records classified SQL
    plus those classified Vector, their occurrences add up in the same
    way, and so the validation-error branch is not taken; the reason is
    that every Internal record is classified SQL or Vector. *)
Theorem validation_always_passes (text : string) :
  let citations := extract_citations_directly text in
  Forall internal_classified citations
  /\ unique_internal_count citations
     = List.length (internal_sql_citations citations)
       + List.length (internal_vector_citations citations)
  /\ total_internal_occurrences citations
     = internal_sql_occurrences citations + internal_vector_occurrences citations
  /\ validation_passed citations = true.
Proof.
  intro citations. assert (H := output_internal_classified text).
  destruct (internal_counts_split _ H) as [Hn Ho].
  repeat split; try assumption.
  unfold validation_passed, internal_total_check, internal_unique_check.
  fold citations in Hn, Ho. rewrite <- Hn, <- Ho, !Nat.eqb_refl. reflexivity.
Qed.

Lemma primary_record_occurrences (text : string) (m : raw_match) :
  total_occurrences (primary_record text m)
  = count_citation_occurrences (citation_number (primary_record text m)) text.
Proof. destruct m as [[[num tag] h] url]. reflexivity. Qed.

Lemma gap_record_occurrences (text refs : string) (n : N) (c : citation) :
  gap_record text refs n = Some c ->
  total_occurrences c = count_citation_occurrences (citation_number c) text.
Proof.
  unfold gap_record. destruct (gap_context n refs) as [[h l] w].
  destruct (malformed h); [discriminate |]. now intros [= <-].
Qed.

(** C7: the occurrences field of every output record, parsed or
    gap-filled, is the number of non-overlapping occurrences of the token
    [[n]], n being the record's number, in the whole text handed to the
    extraction, and both kinds of records are counted by the same
    function. *)
Theorem occurrences_counted_in_whole_text (text : string) (c : citation) :
  In c (extract_citations_directly text) ->
  total_occurrences c = count_citation_occurrences (citation_number c) text
  /\ total_occurrences c = count_token (bracket_token (citation_number c)) text.
Proof.
  intro Hc. rewrite <- count_citation_occurrences_spec.
  enough (total_occurrences c
          = count_citation_occurrences (citation_number c) text) by (now split).
  apply extract_provenance in Hc. destruct Hc as [[m [_ ->]] | [n [_ Hg]]].
  - apply primary_record_occurrences.
  - eapply gap_record_occurrences; eassumption.
Qed.

(** C7, at Scenario A: the record of citation 1 counts the three
    occurrences of its token in the whole text. *)
Lemma occurrences_counted_in_whole_text_witness :
  In (Citation 1 "Example Title" "https://example.com" "Web" 3 "N/A")
     (extract_citations_directly text_scenario_A)
  /\ 3 = count_token (bracket_token 1) text_scenario_A.
Proof.
  assert (H : In (Citation 1 "Example Title" "https://example.com" "Web" 3 "N/A")
                 (extract_citations_directly text_scenario_A))
    by (vm_compute; left; reflexivity).
  split; [exact H |].
  exact (proj2 (occurrences_counted_in_whole_text text_scenario_A _ H)).
Defined.

(** C5: on a text for which the function returns, that is, on which every
    conversion of a number returns ([conversions_return]: no number of
    more than 4300 digits), let the maximum be the largest bracket number,
    at most 100, of the reference section, 0 without any
    ([max_citation_num], see [max_citation_num_spec]).  For every n from 1
    to the maximum the output has a record with number n when the parser
    has one or the headline the gap filler finds for n passes the guard;
    when the parser has none and that headline fails the guard, the output
    has no record with number n. *)
Theorem every_number_up_to_max_has_a_record (text : string) (n : N) :
  conversions_return text = true ->
  (1 <= n <= max_citation_num (find_references_section text))%N ->
  (In n (parsed_numbers text)
   \/ malformed (gap_headline n (find_references_section text)) = false ->
   exists c, In c (extract_citations_directly text) /\ citation_number c = n)
  /\ (~ In n (parsed_numbers text)
      /\ malformed (gap_headline n (find_references_section text)) = true ->
      forall c, In c (extract_citations_directly text) -> citation_number c <> n).
Proof.
  intros _ Hn. split.
  - intros [Hp | Hg]; [now apply parsed_in_output |].
    destruct (in_dec N.eq_dec n (parsed_numbers text)) as [Hp | Hp];
      [now apply parsed_in_output |].
    apply gap_record_guard with (text := text) in Hg. destruct Hg as [c Hc].
    exists c. split; [| eapply gap_record_number; eassumption].
    apply (visited_in_output text n c); try assumption.
    apply numbers_needed_In. right. split; [exact Hn |].
    now rewrite set_of_list_In.
  - intros [Hp Hg]. apply discarded_not_in_output; [assumption |].
    now apply gap_record_guard.
Qed.

(** C5, at a text with a bare [[5]]: 3 is between 1 and the maximum 5 and
    has a record. *)
Lemma every_number_up_to_max_has_a_record_witness :
  conversions_return text_bare_bracket = true
  /\ (1 <= 3 <= max_citation_num (find_references_section text_bare_bracket))%N
  /\ exists c, In c (extract_citations_directly text_bare_bracket)
               /\ citation_number c = 3%N.
Proof.
  assert (Hc : conversions_return text_bare_bracket = true)
    by (vm_compute; reflexivity).
  assert (H : (1 <= 3 <= max_citation_num
                           (find_references_section text_bare_bracket))%N).
  { assert (E : max_citation_num (find_references_section text_bare_bracket)
                = 5%N) by (vm_compute; reflexivity).
    rewrite E. lia. }
  split; [exact Hc | split; [exact H |]].
  apply (proj1 (every_number_up_to_max_has_a_record text_bare_bracket 3 Hc H)).
  right. vm_compute. reflexivity.
Defined.

(** C4, amended: for every number the gap filler visits, no record is
    added when the stripped headline is shorter than 3 characters, the
    whitespace inside it counted, or consists of digits only; otherwise a
    record with that number is in the output. *)
Theorem guard_decides_gap_record (text : string) (n : N) :
  visited_by_gap_filler text n ->
  (String.length (strip (gap_headline n (find_references_section text))) < 3
   \/ isdigit (strip (gap_headline n (find_references_section text))) = true ->
   forall c, In c (extract_citations_directly text) -> citation_number c <> n)
  /\ (~ (String.length (strip (gap_headline n (find_references_section text))) < 3
         \/ isdigit (strip (gap_headline n (find_references_section text))) = true) ->
      exists c, In c (extract_citations_directly text) /\ citation_number c = n).
Proof.
  intros [Hn Hp].
  assert (Hm : malformed (gap_headline n (find_references_section text)) = true
               <-> String.length (strip (gap_headline n (find_references_section text))) < 3
                   \/ isdigit (strip (gap_headline n (find_references_section text))) = true).
  { unfold malformed. rewrite orb_true_iff, Nat.ltb_lt. tauto. }
  split.
  - intro H. apply Hm in H. apply discarded_not_in_output; [assumption |].
    now apply gap_record_guard.
  - intro H.
    destruct (malformed (gap_headline n (find_references_section text))) eqn:E.
    + exfalso. apply H, Hm. reflexivity.
    + apply gap_record_guard with (text := text) in E. destruct E as [c Hc].
      exists c. split; [| eapply gap_record_number; eassumption].
      now apply (visited_in_output text n c).
Qed.

Lemma visited_short_headline : visited_by_gap_filler text_short_headline 1.
Proof.
  split.
  - vm_compute. now left.
  - vm_compute. tauto.
Qed.

(** C4, at a headline of three characters, one a space: it passes the
    guard and the record is in the output. *)
Lemma guard_decides_gap_record_witness :
  visited_by_gap_filler text_short_headline 1
  /\ exists c, In c (extract_citations_directly text_short_headline)
               /\ citation_number c = 1%N.
Proof.
  split; [exact visited_short_headline |].
  apply (proj2 (guard_decides_gap_record text_short_headline 1
                  visited_short_headline)).
  vm_compute. intros [H | H]; [| discriminate].
  repeat apply le_S_n in H. inversion H.
Defined.

(** C4 as stated fails: the headline found for citation 1 has two
    characters that are not whitespace, before and after the cleanup, and
    is not made of digits, yet the number is not discarded. *)
Lemma guard_counts_whitespace_counterexample :
  visited_by_gap_filler text_short_headline 1
  /\ strip (gap_headline 1 (find_references_section text_short_headline)) = ": a"
  /\ collapse_ws (strip (gap_headline 1 (find_references_section text_short_headline)))
     = ": a"
  /\ count_non_space ": a" = 2
  /\ In (Citation 1 ": a" "http://x.y" "Web" 1 "Vector")
        (extract_citations_directly text_short_headline).
Proof.
  split; [exact visited_short_headline |].
  repeat split; vm_compute; auto.
Qed.

(* ------------------------------------------------------------------ *)
(** ** Classification and origin *)

(** The records of the parser: the category is N/A exactly for the Web
    ones. *)
Lemma primary_record_na_iff_web (text : string) (m : raw_match) :
  vector_sql (primary_record text m) = "N/A"
  <-> web_internal (primary_record text m) = "Web".
Proof.
  destruct m as [[[num tag] h] url]. unfold primary_record.
  cbn [vector_sql web_internal].
  set (u := replace CR "" (replace NL "" (if nonempty url then remove_ws (strip url) else ""))).
  destruct (contains "Web" tag); [cbn; tauto |].
  destruct (contains "Internal" tag).
  - cbn. destruct (classify_citation_type_cases u) as [E | E]; rewrite E;
      split; discriminate.
  - destruct (nonempty u); cbn; [tauto |].
    destruct (classify_citation_type_cases u) as [E | E]; rewrite E;
      split; discriminate.
Qed.

(** The records of the gap filler are never N/A, whatever their
    origin. *)
Lemma gap_record_never_na (text refs : string) (n : N) (c : citation) :
  gap_record text refs n = Some c -> vector_sql c <> "N/A".
Proof.
  unfold gap_record. destruct (gap_context n refs) as [[h l] w].
  destruct (malformed h); [discriminate |]. intros [= <-]. cbn [vector_sql].
  match goal with |- classify_citation_type ?u <> _ =>
    destruct (classify_citation_type_cases u) as [E | E]; rewrite E; discriminate
  end.
Qed.

(** C1 fails on the code: on a text whose only entry is found by the gap
    filler with the tag Web, the output is one record with origin Web and
    category Vector, not N/A. *)
Theorem gap_filled_web_record_is_classified :
  map clean_match (raw_matches (find_references_section text_gap_web)) = []
  /\ extract_citations_directly text_gap_web
     = [Citation 1 ": Title" "https://example.com" "Web" 1 "Vector"].
Proof. split; vm_compute; reflexivity. Qed.

(* ------------------------------------------------------------------ *)
(** ** The choice among candidates of one number *)

(** What [choose_best] keeps when the number is already present. *)
Lemma choose_best_present (d : dict) (current new : citation) :
  dict_get (citation_number new) d = Some current ->
  choose_best d new
  = if (nonempty (citation_link new) && negb (nonempty (citation_link current)))
       || (String.length (citation_headline current)
           <? String.length (citation_headline new))%nat
    then dict_set (citation_number new) new d
    else d.
Proof.
  intro H. unfold choose_best. rewrite H.
  destruct (nonempty (citation_link new) && negb (nonempty (citation_link current)));
    reflexivity.
Qed.

(** C2 fails on the code: of two raw matches for citation 1, the first
    with a link and the headline Ab, the second without a link and with a
    longer headline, the record kept is the second, the one without a
    link. *)
Theorem empty_link_candidate_replaces_linked_one :
  map clean_match (raw_matches (find_references_section text_duplicate))
  = [("1", "Web", "Ab", "https://a.com"); ("1", "Web", "Longer title", "")]
  /\ extract_citations_directly text_duplicate
     = [Citation 1 "Longer title" "" "Web" 2 "N/A"].
Proof. split; vm_compute; reflexivity. Qed.

(* ------------------------------------------------------------------ *)
(** ** The fallback of the reference-section locator *)

Lemma first_heading_None (text : string) :
  search (Pat.heading "References") text = None ->
  search (Pat.heading "REFERENCES") text = None ->
  first_heading Pat.references_patterns text = None.
Proof.
  intros H1 H2. unfold Pat.references_patterns. cbn [first_heading].
  now rewrite H1, H2.
Qed.

Lemma after_marker_first (pre : list string) (line : string) (post : list string) :
  Forall (fun l => is_marker_line l = false) pre ->
  is_marker_line line = true ->
  after_marker (pre ++ line :: post) = Some (strip (join_lines post)).
Proof.
  induction 1 as [|l pre Hl _ IH]; intro H; simpl.
  - now rewrite H.
  - rewrite Hl. now apply IH.
Qed.

Lemma after_marker_none (lines : list string) :
  Forall (fun l => is_marker_line l = false) lines ->
  after_marker lines = None.
Proof.
  induction 1 as [|l lines Hl _ IH]; simpl; [reflexivity |].
  now rewrite Hl.
Qed.

(** C3, amended: when both heading patterns fail, the locator returns
    what follows the first line that holds References or REFERENCES, with
    the whitespace at both ends stripped; when no line holds either, it
    returns the text unchanged. *)
Theorem fallback_returns_after_first_marked_line (text : string) :
  search (Pat.heading "References") text = None ->
  search (Pat.heading "REFERENCES") text = None ->
  (forall pre line post,
      split_lines text = (pre ++ line :: post)%list ->
      Forall (fun l => is_marker_line l = false) pre ->
      is_marker_line line = true ->
      find_references_section text = strip (join_lines post))
  /\ (Forall (fun l => is_marker_line l = false) (split_lines text) ->
      find_references_section text = text).
Proof.
  intros H1 H2. unfold find_references_section.
  rewrite (first_heading_None text H1 H2). split.
  - intros pre line post E Hpre Hline.
    now rewrite E, (after_marker_first pre line post Hpre Hline).
  - intro H. now rewrite (after_marker_none _ H).
Qed.

(** C3, amended, at a text with two such lines: the result is what
    follows the first of them. *)
Lemma fallback_returns_after_first_marked_line_witness :
  search (Pat.heading "References") text_two_markers = None
  /\ search (Pat.heading "REFERENCES") text_two_markers = None
  /\ find_references_section text_two_markers
     = strip (join_lines ["x"; "References: b"; "y"]).
Proof.
  assert (H1 : search (Pat.heading "References") text_two_markers = None)
    by (vm_compute; reflexivity).
  assert (H2 : search (Pat.heading "REFERENCES") text_two_markers = None)
    by (vm_compute; reflexivity).
  split; [exact H1 | split; [exact H2 |]].
  apply (proj1 (fallback_returns_after_first_marked_line text_two_markers H1 H2)
           [] "References: a" ["x"; "References: b"; "y"]).
  - vm_compute. reflexivity.
  - constructor.
  - vm_compute. reflexivity.
Defined.

(** C3 as stated fails: both heading patterns fail on the text, the lines
    after the last line holding References are the single line y, and the
    locator returns the three lines after the first such line. *)
Lemma fallback_not_after_last_marked_line :
  search (Pat.heading "References") text_two_markers = None
  /\ search (Pat.heading "REFERENCES") text_two_markers = None
  /\ after_last_marker (split_lines text_two_markers) = Some ["y"]
  /\ find_references_section text_two_markers
     = "x" ++ NL ++ "References: b" ++ NL ++ "y"
  /\ find_references_section text_two_markers <> join_lines ["y"].
Proof.
  split; [vm_compute; reflexivity |].
  split; [vm_compute; reflexivity |].
  split; [vm_compute; reflexivity |].
  split; [vm_compute; reflexivity |].
  vm_compute. discriminate.
Qed.

(* ------------------------------------------------------------------ *)
(** ** The recovery of citation 15 *)

Lemma citation_15_found_false (ms : list raw_match) :
  citation_15_found ms = false <-> Forall (fun m => raw_number m <> "15") ms.
Proof.
  unfold citation_15_found. induction ms as [|m ms IH]; simpl.
  - split; [constructor | reflexivity].
  - rewrite orb_false_iff, IH, String.eqb_neq. split.
    + intros [H1 H2]. now constructor.
    + intro H. inversion H. now split.
Qed.

Lemma citation_15_found_true (ms : list raw_match) :
  citation_15_found ms = true <-> Exists (fun m => raw_number m = "15") ms.
Proof.
  unfold citation_15_found. rewrite existsb_exists, Exists_exists.
  split; intros [m [Hm E]]; exists m; split; try assumption;
    now apply String.eqb_eq.
Qed.

Lemma primary_record_number (text : string) (m : raw_match) :
  citation_number (primary_record text (clean_match m))
  = int_of_string (raw_number m).
Proof. destruct m as [[[num tag] h] url]. reflexivity. Qed.

(** A raw match becomes, or merges into, the record of its number. *)
Lemma raw_match_is_parsed (text : string) (m : raw_match) :
  In m (raw_matches (find_references_section text)) ->
  In (int_of_string (raw_number m)) (parsed_numbers text).
Proof.
  intro H. unfold parsed_numbers. rewrite primary_dict_numbers.
  apply primary_fold_keys. right. rewrite map_map.
  apply in_map_iff. exists m. split; [apply primary_record_number | exact H].
Qed.

(** C8, amended: when no raw match has the number text 15 (a match
    written 015 does not count), the pattern anchored to [[15]] is run on
    the reference section and the tag, headline and URL tail of its first
    match are appended to the raw matches as a candidate numbered 15, or
    nothing is appended when it has no match; when some raw match has the
    number text 15 the raw matches are left as they are.  The appended
    candidate goes through cleaning and the choice of the best candidate
    like the others, so 15 is among the parsed numbers. *)
Theorem citation_15_recovery (text : string) :
  let references_content := find_references_section text in
  let matches1 := findall4 Pat.citation_pattern references_content in
  (Forall (fun m => raw_number m <> "15") matches1 ->
   match findall3 Pat.test_pattern references_content with
   | (tag, headline, url) :: _ =>
       raw_matches references_content
       = (matches1 ++ [("15", tag, headline, url)])%list
       /\ In 15%N (parsed_numbers text)
   | [] => raw_matches references_content = matches1
   end)
  /\ (Exists (fun m => raw_number m = "15") matches1 ->
      raw_matches references_content = matches1).
Proof.
  intros references_content matches1. split.
  - intro H. apply citation_15_found_false in H.
    assert (E : raw_matches references_content
                = match findall3 Pat.test_pattern references_content with
                  | (tag, headline, url) :: _ =>
                      (matches1 ++ [("15", tag, headline, url)])%list
                  | [] => matches1
                  end).
    { unfold raw_matches. fold matches1. now rewrite H. }
    destruct (findall3 Pat.test_pattern references_content)
      as [|[[tag headline] url] rest]; [exact E |].
    split; [exact E |].
    apply (raw_match_is_parsed text ("15", tag, headline, url)).
    fold references_content. rewrite E. apply in_app_iff. right. now left.
  - intro H. apply citation_15_found_true in H.
    unfold raw_matches. fold matches1. now rewrite H.
Qed.

(** C8, amended, at a text whose entry 15 sits in the URL tail of entry
    1: the raw matches have no number text 15 and the entry is
    appended. *)
Lemma citation_15_recovery_witness :
  Forall (fun m => raw_number m <> "15")
         (findall4 Pat.citation_pattern (find_references_section text_hidden_15))
  /\ raw_matches (find_references_section text_hidden_15)
     = [("1", "Web", "T", "see [15] [Web] X: http://y");
        ("15", "Web", "X", "http://y")]
  /\ In 15%N (parsed_numbers text_hidden_15).
Proof.
  assert (H : Forall (fun m => raw_number m <> "15")
                (findall4 Pat.citation_pattern
                   (find_references_section text_hidden_15))).
  { vm_compute. constructor; [discriminate | constructor]. }
  split; [exact H |].
  exact (proj1 (citation_15_recovery text_hidden_15) H).
Defined.

(** C8 as stated fails: the raw matches hold a match whose citation
    number is 15, written 015, and the pattern anchored to [[15]] is run
    all the same and its match appended as a second candidate for 15. *)
Lemma leading_zero_reruns_citation_15 :
  findall4 Pat.citation_pattern (find_references_section text_leading_zero)
  = [("015", "Web", "A", "http://u");
     ("1", "Web", "T", "see [15] [Web] X: http://y")]
  /\ int_of_string "015" = 15%N
  /\ raw_matches (find_references_section text_leading_zero)
     = [("015", "Web", "A", "http://u");
        ("1", "Web", "T", "see [15] [Web] X: http://y");
        ("15", "Web", "X", "http://y")].
Proof.
  split; [vm_compute; reflexivity |].
  split; vm_compute; reflexivity.
Qed.

(* ------------------------------------------------------------------ *)
(** ** The text normaliser *)

(** C9: the text normaliser is idempotent: normalising a normalised text
    changes nothing. *)
Theorem clean_text_idempotent (s : string) :
  clean_text (clean_text s) = clean_text s.
Proof.
  rewrite (clean_text_passes s) at 1 2. apply clean_text_fixed.
Qed.

(* ------------------------------------------------------------------ *)
(** ** Further properties: classification and labels *)

Lemma empty_not_sql : ~ In "" get_sql_urls.
Proof.
  unfold get_sql_urls. cbn [In]. intro H.
  repeat (destruct H as [H | H]; [discriminate H |]). exact H.
Qed.

(** X1: the classifier answers SQL exactly for the URLs of the fixed
    list, compared as whole strings, and Vector for every other link,
    the empty one included. *)
Theorem classify_by_exact_membership (citation_url : string) :
  (classify_citation_type citation_url = "SQL"
   <-> In citation_url get_sql_urls)
  /\ (classify_citation_type citation_url = "Vector"
      <-> ~ In citation_url get_sql_urls).
Proof.
  unfold classify_citation_type.
  destruct citation_url as [|a u]; cbn [nonempty negb].
  - split; split; try discriminate; intro H; try reflexivity.
    + now apply empty_not_sql in H.
    + apply empty_not_sql.
  - destruct (existsb (String.eqb (String a u)) get_sql_urls) eqn:E.
    + apply existsb_exists in E. destruct E as [x [Hx E]].
      apply String.eqb_eq in E. subst x.
      split; split; try discriminate; intro H; try reflexivity; tauto.
    + assert (Hn : ~ In (String a u) get_sql_urls).
      { intro H. apply Bool.not_true_iff_false in E. apply E.
        apply existsb_exists. exists (String a u). split; [exact H |].
        apply String.eqb_refl. }
      split; split; try discriminate; intro H; try reflexivity; tauto.
Qed.

Lemma find_context_label (pats : list (regex * nat)) (n : N) (refs : string) :
  snd (find_context pats n refs) = "Web"
  \/ snd (find_context pats n refs) = "Internal".
Proof.
  induction pats as [|[p k] pats IH]; cbn [find_context]; [now right |].
  destruct (findall p k refs) as [|context rest]; [exact IH |].
  destruct context as [|a [|b [|c [|d l]]]]; cbn [snd]; try (now right);
    unfold label_of_class; destruct (contains "Web" a); auto.
Qed.

Lemma primary_record_labels (text : string) (m : raw_match) :
  labels_ok (primary_record text m).
Proof.
  assert (Hna := primary_record_na_iff_web text m).
  destruct m as [[[num tag] h] url]. unfold labels_ok.
  split; [| split; [| apply Hna]].
  - unfold primary_record. cbn [web_internal].
    destruct (contains "Web" tag); [now left |].
    destruct (contains "Internal" tag); [now right |].
    destruct (nonempty _); auto.
  - unfold primary_record. cbn [vector_sql].
    destruct (String.eqb _ "Internal"); [| now right; right].
    match goal with |- classify_citation_type ?u = _ \/ _ =>
      destruct (classify_citation_type_cases u) as [E | E]; rewrite E; auto
    end.
Qed.

Lemma gap_record_labels (text refs : string) (n : N) (c : citation) :
  gap_record text refs n = Some c -> labels_ok c.
Proof.
  intro H. assert (Hna := gap_record_never_na _ _ _ _ H).
  revert H. unfold gap_record, gap_context.
  assert (Hl := find_context_label (Pat.citation_context_patterns n) n refs).
  destruct (find_context _ n refs) as [[h l] w]. cbn [snd] in Hl.
  destruct (malformed h); [discriminate |]. intros [= <-].
  cbn [vector_sql] in Hna. unfold labels_ok. cbn [web_internal vector_sql].
  split; [exact Hl | split; [| tauto]].
  match goal with |- classify_citation_type ?u = _ \/ _ =>
    destruct (classify_citation_type_cases u) as [E | E]; rewrite E; auto
  end.
Qed.

Lemma output_labels (text : string) :
  Forall labels_ok (extract_citations_directly text).
Proof.
  apply Forall_forall. intros c Hc.
  apply extract_provenance in Hc. destruct Hc as [[m [_ ->]] | [n [_ Hg]]].
  - apply primary_record_labels.
  - eapply gap_record_labels; eassumption.
Qed.

(** X2: every record of the output has origin Web or Internal and
    category SQL, Vector or N/A, and a record of category N/A has origin
    Web. *)
Theorem output_labels_well_formed (text : string) :
  Forall (fun c =>
            (web_internal c = "Web" \/ web_internal c = "Internal")
            /\ (vector_sql c = "SQL" \/ vector_sql c = "Vector"
                \/ vector_sql c = "N/A")
            /\ (vector_sql c = "N/A" -> web_internal c = "Web"))
         (extract_citations_directly text).
Proof. exact (output_labels text). Qed.

Lemma web_internal_partition (cs : list citation) :
  Forall labels_ok cs ->
  unique_web_count cs + unique_internal_count cs = total_citations cs
  /\ total_web_occurrences cs + total_internal_occurrences cs
     = total_occurrences_all cs.
Proof.
  unfold unique_web_count, unique_internal_count, total_citations,
    total_web_occurrences, total_internal_occurrences, total_occurrences_all,
    sum_occurrences.
  induction 1 as [|c cs [Hc _] _ [IHn IHo]]; [split; reflexivity |].
  cbn [filter].
  assert (Hw : is_web c = true /\ is_internal c = false
               \/ is_web c = false /\ is_internal c = true).
  { unfold is_web, is_internal. destruct Hc as [E | E]; rewrite E; auto. }
  destruct Hw as [[E1 E2] | [E1 E2]]; rewrite E1, E2;
    cbn [List.length fold_right]; split; lia.
Qed.

(** X3: in the analytics of [main] the Web and the Internal records
    split the output: their counts add up to the number of records and
    their occurrences to the total of the occurrences. *)
Theorem web_and_internal_split_the_output (text : string) :
  unique_web_count (extract_citations_directly text)
  + unique_internal_count (extract_citations_directly text)
  = total_citations (extract_citations_directly text)
  /\ total_web_occurrences (extract_citations_directly text)
     + total_internal_occurrences (extract_citations_directly text)
     = total_occurrences_all (extract_citations_directly text).
Proof. apply web_internal_partition, output_labels. Qed.

(** X4: on a text for which the function returns (every conversion of
    a number returns), no raw match of the parser is lost: for every raw
    match of the reference section, the one added for citation 15
    included, the output holds a record with the number of the match. *)
Theorem every_raw_match_has_a_record (text : string) :
  conversions_return text = true ->
  Forall (fun m => exists c, In c (extract_citations_directly text)
                             /\ citation_number c = int_of_string (raw_number m))
         (raw_matches (find_references_section text)).
Proof.
  intros _. apply Forall_forall. intros m Hm.
  apply parsed_in_output. now apply raw_match_is_parsed.
Qed.

(** X4, at a text whose entry 15 is found by the pattern made for it:
    both raw matches have their record. *)
Lemma every_raw_match_has_a_record_witness :
  conversions_return text_hidden_15 = true
  /\ raw_matches (find_references_section text_hidden_15)
     = [("1", "Web", "T", "see [15] [Web] X: http://y");
        ("15", "Web", "X", "http://y")]
  /\ Forall (fun m => exists c,
                In c (extract_citations_directly text_hidden_15)
                /\ citation_number c = int_of_string (raw_number m))
            (raw_matches (find_references_section text_hidden_15)).
Proof.
  assert (Hc : conversions_return text_hidden_15 = true)
    by (vm_compute; reflexivity).
  split; [exact Hc |].
  split; [vm_compute; reflexivity |].
  exact (every_raw_match_has_a_record text_hidden_15 Hc).
Defined.

(** X5: the set of the numbers that need a record may be visited in any
    order: whatever enumeration the loop follows, the records returned
    are the same. *)
Theorem output_independent_of_set_order (order : list N -> list N)
  (text : string) :
  (forall s, NoDup s -> Permutation s (order s)) ->
  extract_with_order order text = extract_citations_directly text.
Proof. apply extract_order_irrelevant. Qed.

(** X5, with the set visited in reverse. *)
Lemma output_independent_of_set_order_witness :
  (forall s : list N, NoDup s -> Permutation s (rev s))
  /\ extract_with_order (@rev N) text_bare_bracket
     = extract_citations_directly text_bare_bracket.
Proof.
  assert (H : forall s : list N, NoDup s -> Permutation s (rev s))
    by (intros s _; apply Permutation_rev).
  split; [exact H |].
  exact (output_independent_of_set_order (@rev N) text_bare_bracket H).
Defined.

(* ------------------------------------------------------------------ *)
(** ** Further properties: what a match is made of *)

Lemma substring_refl (s : string) : substring s s.
Proof. exists "", "". now rewrite append_empty_r. Qed.

Lemma substring_empty (s : string) : substring "" s.
Proof. exists "", s. reflexivity. Qed.

Lemma substring_trans (a b c : string) :
  substring a b -> substring b c -> substring a c.
Proof.
  intros [p1 [q1 ->]] [p2 [q2 ->]]. exists (p2 ++ p1), (q1 ++ q2).
  now rewrite !append_assoc.
Qed.

Lemma substring_suffix (a p s : string) : substring a s -> substring a (p ++ s).
Proof.
  intros [p1 [q1 ->]]. exists (p ++ p1), q1. now rewrite !append_assoc.
Qed.

Lemma substring_prefix (a s : string) : substring a (a ++ s).
Proof. exists "", s. reflexivity. Qed.

Lemma substring_all_chars (p : ascii -> bool) (a s : string) :
  substring a s -> all_chars p s = true -> all_chars p a = true.
Proof.
  intros [pre [post ->]]. rewrite !all_chars_app, !andb_true_iff. tauto.
Qed.

Lemma star_greedy_sound (A : Type) (p : cls) (k : string -> option A) (x : A) :
  forall s, star_greedy p s k = Some x ->
  exists a s', s = a ++ s' /\ k s' = Some x.
Proof.
  induction s as [|c s IH]; cbn [star_greedy]; intro H.
  - now exists "", "".
  - destruct (p c).
    + destruct (star_greedy p s k) as [y|] eqn:E.
      * injection H as ->. destruct (IH eq_refl) as [a [s' [-> Hk]]].
        now exists (String c a), s'.
      * now exists "", (String c s).
    + now exists "", (String c s).
Qed.

Lemma star_lazy_sound (A : Type) (p : cls) (k : string -> option A) (x : A) :
  forall s, star_lazy p s k = Some x ->
  exists a s', s = a ++ s' /\ k s' = Some x.
Proof.
  induction s as [|c s IH]; cbn [star_lazy]; intro H.
  - destruct (k "") eqn:E; [| discriminate]. injection H as ->.
    now exists "", "".
  - destruct (k (String c s)) as [y|] eqn:E.
    + injection H as ->. now exists "", (String c s).
    + destruct (p c); [| discriminate].
      destruct (IH H) as [a [s' [-> Hk]]]. now exists (String c a), s'.
Qed.

(** A successful match hands to its continuation a suffix of the text
    and the groups it was given, with groups of the pattern in front;
    the value of each is a part of the text. *)
Lemma rmatch_sound (r : regex) : forall (A : Type) s g
  (k : string -> groups -> option A) x,
  rmatch r s g k = Some x ->
  exists a s' d,
    s = a ++ s' /\ k s' (d ++ g)%list = Some x
    /\ Forall (fun kv => In (fst kv) (gids r) /\ substring (snd kv) s) d.
Proof.
  induction r as [| p | r1 IH1 r2 IH2 | r1 IH1 r2 IH2 | gr p | r1 IH1
                  | i r1 IH1 | r1 IH1 | |];
    intros A s g k x H; cbn [rmatch gids] in *.
  - now exists "", s, [].
  - destruct s as [|c s]; [discriminate |]. destruct (p c); [| discriminate].
    now exists (String c ""), s, [].
  - apply IH1 in H. destruct H as [a1 [s1 [d1 [-> [H F1]]]]].
    apply IH2 in H. destruct H as [a2 [s2 [d2 [-> [H F2]]]]].
    exists (a1 ++ a2), s2, (d2 ++ d1)%list.
    split; [now rewrite append_assoc |].
    split; [now rewrite <- app_assoc |].
    apply Forall_app. split.
    + eapply Forall_impl; [| exact F2]. intros kv [Hi Hs].
      split; [apply in_or_app; now right | now apply substring_suffix].
    + eapply Forall_impl; [| exact F1]. intros kv [Hi Hs].
      split; [apply in_or_app; now left | exact Hs].
  - destruct (rmatch r1 s g k) as [y|] eqn:E.
    + injection H as ->. apply IH1 in E.
      destruct E as [a [s' [d [-> [H F]]]]]. exists a, s', d.
      split; [reflexivity | split; [exact H |]].
      eapply Forall_impl; [| exact F]. intros kv [Hi Hs].
      split; [apply in_or_app; now left | exact Hs].
    + apply IH2 in H. destruct H as [a [s' [d [-> [H F]]]]]. exists a, s', d.
      split; [reflexivity | split; [exact H |]].
      eapply Forall_impl; [| exact F]. intros kv [Hi Hs].
      split; [apply in_or_app; now right | exact Hs].
  - destruct gr.
    + apply star_greedy_sound in H. destruct H as [a [s' [-> H]]].
      now exists a, s', [].
    + apply star_lazy_sound in H. destruct H as [a [s' [-> H]]].
      now exists a, s', [].
  - destruct (rmatch r1 s g k) as [y|] eqn:E.
    + injection H as ->. now apply IH1 in E.
    + now exists "", s, [].
  - apply IH1 in H. destruct H as [a [s' [d [-> [H F]]]]].
    rewrite consumed_app in H. exists a, s', ((i, a) :: d).
    split; [reflexivity | split; [exact H |]]. constructor.
    + split; [now left | apply substring_prefix].
    + eapply Forall_impl; [| exact F]. intros kv [Hi Hs].
      split; [now right | exact Hs].
  - destruct (rmatch r1 s g (fun _ g' => Some g')) as [g1|] eqn:E;
      [| discriminate].
    apply IH1 in E. destruct E as [a [s' [d [-> [E F]]]]].
    injection E as <-. now exists "", (a ++ s'), d.
  - destruct s; [| discriminate]. now exists "", "", [].
  - destruct (at_dollar s); [| discriminate]. now exists "", s, [].
Qed.

Lemma match_here_sound (r : regex) (s : string) (g : groups) (rest : string) :
  match_here r s = Some (g, rest) ->
  exists a, s = a ++ rest
            /\ Forall (fun kv => In (fst kv) (gids r) /\ substring (snd kv) s) g.
Proof.
  intro H. apply rmatch_sound in H. destruct H as [a [s' [d [-> [H F]]]]].
  injection H as <- <-. rewrite app_nil_r. now exists a.
Qed.

Lemma group_In (i : nat) (g : groups) :
  group i g = "" \/ In (i, group i g) g.
Proof.
  induction g as [|[j v] g IH]; cbn [group]; [now left |].
  destruct (Nat.eqb i j) eqn:E.
  - apply Nat.eqb_eq in E. subst j. right. now left.
  - destruct IH as [IH | IH]; [now left | right; now right].
Qed.

Lemma group_absent (i : nat) (g : groups) :
  ~ In i (map fst g) -> group i g = "".
Proof.
  intro H. destruct (group_In i g) as [E | E]; [exact E |].
  exfalso. apply H. apply in_map_iff. now exists (i, group i g).
Qed.

Lemma group_substring (T : string) (i : nat) (g : groups) :
  Forall (fun kv => substring (snd kv) T) g -> substring (group i g) T.
Proof.
  intro F. destruct (group_In i g) as [E | E].
  - rewrite E. apply substring_empty.
  - rewrite Forall_forall in F. exact (F _ E).
Qed.

(** What [re.search] finds is where it says: the text is the part
    skipped, then the match, then the rest. *)
Lemma search_acc_sound (r : regex) (s : string) : forall skipped m,
  search_acc r skipped s = Some m ->
  skipped ++ s = before m ++ whole m ++ after m
  /\ match_here r (whole m ++ after m) = Some (grps m, after m).
Proof.
  induction s as [|c s IH]; intros skipped m; cbn [search_acc].
  - destruct (match_here r "") as [[g rest]|] eqn:E; [| discriminate].
    intros [= <-]. cbn [before whole after grps].
    destruct (match_here_sound _ _ _ _ E) as [a [Ea _]].
    rewrite Ea in E |- *. rewrite consumed_app. split; [reflexivity | exact E].
  - destruct (match_here r (String c s)) as [[g rest]|] eqn:E.
    + intros [= <-]. cbn [before whole after grps].
      destruct (match_here_sound _ _ _ _ E) as [a [Ea _]].
      rewrite Ea in E |- *. rewrite consumed_app.
      split; [reflexivity | exact E].
    + intro H. apply IH in H. rewrite append_assoc in H. exact H.
Qed.

Lemma search_sound (r : regex) (s : string) (m : found) :
  search r s = Some m ->
  s = before m ++ whole m ++ after m
  /\ match_here r (whole m ++ after m) = Some (grps m, after m).
Proof. intro H. now apply search_acc_sound in H. Qed.

Lemma search_groups_inside (r : regex) (s : string) (m : found) (i : nat) :
  search r s = Some m -> substring (group i (grps m)) s.
Proof.
  intro H. apply search_sound in H. destruct H as [E H].
  apply match_here_sound in H. destruct H as [_ [_ F]].
  rewrite E. apply substring_suffix, group_substring.
  eapply Forall_impl; [| exact F]. now intros kv [_ Hs].
Qed.

(* ------------------------------------------------------------------ *)
(** ** Further properties: the reference section is a part of the text *)

Lemma lstrip_suffix (s : string) : exists a, s = a ++ lstrip s.
Proof.
  induction s as [|c s [a IH]]; cbn [lstrip]; [now exists "" |].
  destruct (is_space c); [| now exists ""].
  exists (String c a). cbn [append]. now rewrite <- IH.
Qed.

Lemma rstrip_prefix (s : string) : exists b, s = rstrip s ++ b.
Proof.
  induction s as [|c s [b IH]]; cbn [rstrip]; [now exists "" |].
  destruct (rstrip s) as [|d t] eqn:E.
  - destruct (is_space c).
    + now exists (String c s).
    + exists b. cbn [append] in *. now rewrite <- IH.
  - exists b. cbn [append] in *. now rewrite <- IH.
Qed.

Lemma strip_substring (s : string) : substring (strip s) s.
Proof.
  unfold strip. destruct (lstrip_suffix s) as [a Ea].
  destruct (rstrip_prefix (lstrip s)) as [b Eb].
  exists a, b. now rewrite <- Eb.
Qed.

Lemma split_lines_nonempty (s : string) : split_lines s <> [].
Proof.
  induction s as [|c s IH]; cbn [split_lines]; [discriminate |].
  destruct (Ascii.eqb c nl); [discriminate |].
  destruct (split_lines s); discriminate.
Qed.

Lemma join_lines_cons (l : string) (ls : list string) :
  ls <> [] -> join_lines (l :: ls) = l ++ NL ++ join_lines ls.
Proof. destruct ls; [congruence | reflexivity]. Qed.

(** Joining the lines of a text gives the text back. *)
Lemma join_split_lines (s : string) : join_lines (split_lines s) = s.
Proof.
  induction s as [|c s IH]; [reflexivity |]. cbn [split_lines].
  destruct (Ascii.eqb c nl) eqn:E.
  - apply Ascii.eqb_eq in E. subst c.
    rewrite join_lines_cons by apply split_lines_nonempty. now rewrite IH.
  - assert (Hn := split_lines_nonempty s).
    destruct (split_lines s) as [|l ls]; [congruence |].
    rewrite <- IH. destruct ls; reflexivity.
Qed.

Lemma join_lines_tail (pre : list string) : forall line rest,
  exists a, join_lines (pre ++ line :: rest)%list = a ++ join_lines rest.
Proof.
  induction pre as [|p pre IH]; intros line rest.
  - destruct rest as [|r rest].
    + exists line. cbn [app join_lines]. now rewrite append_empty_r.
    + exists (line ++ NL). rewrite append_assoc. reflexivity.
  - destruct (IH line rest) as [a Ea]. exists (p ++ NL ++ a).
    cbn [app]. rewrite join_lines_cons by (destruct pre; discriminate).
    rewrite Ea. now rewrite !append_assoc.
Qed.

Lemma after_marker_tail (lines : list string) (refs : string) :
  after_marker lines = Some refs ->
  exists pre line rest, lines = (pre ++ line :: rest)%list
                        /\ refs = strip (join_lines rest).
Proof.
  induction lines as [|l lines IH]; cbn [after_marker]; [discriminate |].
  destruct (is_marker_line l).
  - intros [= <-]. now exists [], l, lines.
  - intro H. destruct (IH H) as [pre [line [rest [-> E]]]].
    now exists (l :: pre), line, rest.
Qed.

Lemma first_heading_inside (pats : list regex) (text refs : string) :
  first_heading pats text = Some refs -> substring refs text.
Proof.
  induction pats as [|p pats IH]; cbn [first_heading]; [discriminate |].
  destruct (search p text) as [m|] eqn:E; [| exact IH].
  intros [= <-]. eapply substring_trans; [apply strip_substring |].
  eapply search_groups_inside; eassumption.
Qed.

Lemma find_references_section_inside (text : string) :
  substring (find_references_section text) text.
Proof.
  unfold find_references_section.
  destruct (first_heading Pat.references_patterns text) as [refs|] eqn:E1.
  - eapply first_heading_inside; eassumption.
  - destruct (after_marker (split_lines text)) as [refs|] eqn:E2;
      [| apply substring_refl].
    apply after_marker_tail in E2. destruct E2 as [pre [line [rest [E ->]]]].
    eapply substring_trans; [apply strip_substring |].
    destruct (join_lines_tail pre line rest) as [a Ea].
    rewrite <- E, join_split_lines in Ea. exists a, "".
    now rewrite append_empty_r.
Qed.

(** X6: the reference section is a contiguous part of the text, whichever
    of the three ways finds it: the text is something, then the section,
    then something. *)
Theorem reference_section_is_part_of_text (text : string) :
  exists pre post, text = pre ++ find_references_section text ++ post.
Proof. exact (find_references_section_inside text). Qed.

(* ------------------------------------------------------------------ *)
(** ** Further properties: a text without brackets *)

(** A pattern that begins with a character is not found in a text that
    has no such character. *)
Lemma search_acc_first_char (p : cls) (r : regex) (s : string) :
  all_chars (neg p) s = true ->
  forall skipped, search_acc (Seq (Chr p) r) skipped s = None.
Proof.
  induction s as [|c s IH]; intros H skipped; [reflexivity |].
  cbn [all_chars] in H. apply andb_true_iff in H. destruct H as [Hc Hs].
  unfold neg in Hc. apply negb_true_iff in Hc.
  cbn [search_acc]. unfold match_here. cbn [rmatch]. rewrite Hc.
  now apply IH.
Qed.

Lemma finditer_None (r : regex) (s : string) :
  search r s = None -> finditer r s = [].
Proof. intro H. unfold finditer. cbn [finditer_fuel]. now rewrite H. Qed.

Lemma no_bracket_neg (s : string) :
  all_chars (fun c => negb (Ascii.eqb c "[")) s = true ->
  all_chars (neg (chr "[")) s = true.
Proof.
  induction s as [|c s IH]; [reflexivity |]. cbn [all_chars].
  rewrite !andb_true_iff. intros [Hc Hs]. split; [| now apply IH].
  unfold neg, chr. now rewrite Ascii.eqb_sym.
Qed.

Lemma finditer_no_bracket (r : regex) (s : string) :
  all_chars (neg (chr "[")) s = true ->
  finditer (Seq (Chr (chr "[")) r) s = [].
Proof.
  intro H. apply finditer_None. unfold search.
  now apply search_acc_first_char.
Qed.

Lemma finditer_no_bracket2 (r1 r2 : regex) (s : string) :
  all_chars (neg (chr "[")) s = true ->
  finditer (Seq (Seq (Chr (chr "[")) r1) r2) s = [].
Proof.
  intro H. apply finditer_None. unfold search.
  assert (G : forall s skipped, all_chars (neg (chr "[")) s = true ->
            search_acc (Seq (Seq (Chr (chr "[")) r1) r2) skipped s = None).
  { clear. induction s as [|c s IH]; intros skipped H; [reflexivity |].
    cbn [all_chars] in H. apply andb_true_iff in H. destruct H as [Hc Hs].
    unfold neg in Hc. apply negb_true_iff in Hc.
    cbn [search_acc]. unfold match_here. cbn [rmatch]. rewrite Hc.
    now apply IH. }
  now apply G.
Qed.

Lemma raw_matches_no_bracket (refs : string) :
  all_chars (neg (chr "[")) refs = true -> raw_matches refs = [].
Proof.
  intro H. unfold raw_matches, findall4, findall3.
  unfold Pat.citation_pattern, Pat.test_pattern. cbn [seqs lit].
  rewrite (finditer_no_bracket _ refs H).
  rewrite (finditer_no_bracket2 _ _ refs H). reflexivity.
Qed.

Lemma bracket_numbers_no_bracket (refs : string) :
  all_chars (neg (chr "[")) refs = true -> bracket_numbers refs = [].
Proof.
  intro H. unfold bracket_numbers, findall1, Pat.bracket_pattern.
  cbn [seqs lit]. rewrite (finditer_no_bracket _ refs H). reflexivity.
Qed.

Lemma extract_no_bracket (text : string) :
  all_chars (neg (chr "[")) text = true ->
  extract_citations_directly text = [].
Proof.
  intro H.
  assert (Hr : all_chars (neg (chr "[")) (find_references_section text) = true).
  { eapply substring_all_chars; [apply find_references_section_inside | exact H]. }
  unfold extract_citations_directly, extract_with_order.
  rewrite (raw_matches_no_bracket _ Hr), (bracket_numbers_no_bracket _ Hr).
  reflexivity.
Qed.

(** X7: a text without an opening bracket, the empty text included,
    yields no record at all. *)
Theorem no_bracket_no_records (text : string) :
  all_chars (fun c => negb (Ascii.eqb c "[")) text = true ->
  extract_citations_directly text = [].
Proof. intro H. apply extract_no_bracket. now apply no_bracket_neg. Qed.

(** X7, at a text with parentheses only. *)
Lemma no_bracket_no_records_witness :
  all_chars (fun c => negb (Ascii.eqb c "["))
            ("See (1)." ++ NL ++ "References" ++ NL
             ++ "(1) Web Title: https://example.com") = true
  /\ extract_citations_directly
       ("See (1)." ++ NL ++ "References" ++ NL
        ++ "(1) Web Title: https://example.com") = [].
Proof.
  assert (H : all_chars (fun c => negb (Ascii.eqb c "["))
                ("See (1)." ++ NL ++ "References" ++ NL
                 ++ "(1) Web Title: https://example.com") = true)
    by (vm_compute; reflexivity).
  split; [exact H | exact (no_bracket_no_records _ H)].
Defined.

(* ------------------------------------------------------------------ *)
(** ** Further properties: the placeholder record *)

Lemma contains_cons (tok : string) (c : ascii) (s : string) :
  contains tok (String c s) = false ->
  starts_with tok (String c s) = false /\ contains tok s = false.
Proof. cbn [contains]. now rewrite orb_false_iff. Qed.

(** A pattern that begins with a literal is not found in a text that
    does not hold the literal. *)
Lemma search_acc_lit_absent (tok : string) (r : regex) (s : string) :
  contains tok s = false ->
  forall skipped, search_acc (Seq (lit tok) r) skipped s = None.
Proof.
  induction s as [|c s IH]; intros H skipped.
  - cbn [search_acc]. unfold match_here. rewrite rmatch_seq, rmatch_lit.
    cbn [contains] in H. rewrite orb_false_r in H. now rewrite H.
  - apply contains_cons in H. destruct H as [H1 H2].
    cbn [search_acc]. unfold match_here. rewrite rmatch_seq, rmatch_lit, H1.
    now apply IH.
Qed.

Lemma findall_lit_absent (tok : string) (r : regex) (k : nat) (s : string) :
  contains tok s = false -> findall (Seq (lit tok) r) k s = [].
Proof.
  intro H. unfold findall. rewrite finditer_None; [reflexivity |].
  unfold search. now apply search_acc_lit_absent.
Qed.

Lemma gap_context_absent (n : N) (refs : string) :
  contains (bracket_token n) refs = false ->
  gap_context n refs = ("Missing citation", "", "Internal").
Proof.
  intro H. unfold gap_context, Pat.citation_context_patterns.
  unfold Pat.context1, Pat.context2, Pat.context3, Pat.context4,
    Pat.entry_head, Pat.bracketed.
  cbn [app seqs find_context].
  fold (bracket_token n).
  rewrite !(findall_lit_absent _ _ _ _ H). reflexivity.
Qed.

Lemma gap_record_absent (text refs : string) (n : N) :
  contains (bracket_token n) refs = false ->
  gap_record text refs n
  = Some (Citation n "Missing citation" "" "Internal"
                   (count_citation_occurrences n text) "Vector").
Proof.
  intro H. unfold gap_record. rewrite (gap_context_absent _ _ H).
  assert (E1 : malformed "Missing citation" = false) by (vm_compute; reflexivity).
  assert (E2 : replace CR " " (replace NL " " (collapse_ws (strip "Missing citation")))
               = "Missing citation") by (vm_compute; reflexivity).
  rewrite E1, E2. reflexivity.
Qed.

(** X8: on a text for which the function returns (every conversion of
    a number returns), a number from 1 to the maximum that the parser has
    no record of and whose bracketed token is nowhere in the reference
    section gets a made-up record: the headline Missing citation, no
    link, origin Internal, category Vector, and the occurrences counted
    in the whole text. *)
Theorem absent_number_gets_placeholder (text : string) (n : N) :
  conversions_return text = true ->
  (1 <= n <= max_citation_num (find_references_section text))%N ->
  ~ In n (parsed_numbers text) ->
  contains (bracket_token n) (find_references_section text) = false ->
  In (Citation n "Missing citation" "" "Internal"
               (count_citation_occurrences n text) "Vector")
     (extract_citations_directly text).
Proof.
  intros _ Hn Hp Hc.
  apply (visited_in_output text n); [| exact Hp | now apply gap_record_absent].
  apply numbers_needed_In. right. split; [exact Hn |].
  now rewrite set_of_list_In.
Qed.

(** X8, at a text whose reference section is a bare [[5]]: number 3 gets
    the placeholder. *)
Lemma absent_number_gets_placeholder_witness :
  conversions_return text_bare_bracket = true
  /\ (1 <= 3 <= max_citation_num (find_references_section text_bare_bracket))%N
  /\ ~ In 3%N (parsed_numbers text_bare_bracket)
  /\ contains (bracket_token 3) (find_references_section text_bare_bracket)
     = false
  /\ In (Citation 3 "Missing citation" "" "Internal" 0 "Vector")
        (extract_citations_directly text_bare_bracket).
Proof.
  assert (H0 : conversions_return text_bare_bracket = true)
    by (vm_compute; reflexivity).
  assert (H1 : (1 <= 3 <= max_citation_num
                            (find_references_section text_bare_bracket))%N).
  { assert (E : max_citation_num (find_references_section text_bare_bracket)
                = 5%N) by (vm_compute; reflexivity).
    rewrite E. lia. }
  assert (H2 : ~ In 3%N (parsed_numbers text_bare_bracket))
    by (vm_compute; tauto).
  assert (H3 : contains (bracket_token 3)
                 (find_references_section text_bare_bracket) = false)
    by (vm_compute; reflexivity).
  split; [exact H0 |].
  split; [exact H1 | split; [exact H2 | split; [exact H3 |]]].
  exact (absent_number_gets_placeholder text_bare_bracket 3 H0 H1 H2 H3).
Defined.

(* ------------------------------------------------------------------ *)
(** ** Further properties: the fourth context pattern *)

Lemma star_lazy_first (A : Type) (p : cls) (k : string -> option A)
  (s : string) (x : A) :
  k s = Some x -> star_lazy p s k = Some x.
Proof. intro H. destruct s; cbn [star_lazy]; now rewrite H. Qed.

Lemma finditer_head (r : regex) (s : string) (m : found) (l : list found) :
  finditer r s = m :: l -> search r s = Some m.
Proof.
  unfold finditer. cbn [finditer_fuel].
  destruct (search r s); [| discriminate]. now intros [= -> _].
Qed.

Lemma strip_length (s : string) : String.length (strip s) <= String.length s.
Proof.
  destruct (strip_substring s) as [a [b E]].
  rewrite E at 2. rewrite !append_length. lia.
Qed.

(** The lazy headline group of the fourth pattern always stops after its
    first character: what follows it is optional. *)
Lemma match_here_context4 (n : N) (s : string) (g : groups) (rest : string) :
  match_here (Pat.context4 n) s = Some (g, rest) ->
  String.length (group 2 g) = 1.
Proof.
  unfold match_here, Pat.context4, Pat.entry_head. cbn [app seqs].
  intro H.
  rewrite rmatch_seq in H. apply rmatch_sound in H.
  destruct H as [a1 [s1 [d1 [_ [H _]]]]].
  rewrite rmatch_seq in H. apply rmatch_sound in H.
  destruct H as [a2 [s2 [d2 [_ [H _]]]]].
  rewrite rmatch_seq in H. apply rmatch_sound in H.
  destruct H as [a3 [s3 [d3 [_ [H _]]]]].
  rewrite rmatch_seq in H. apply rmatch_sound in H.
  destruct H as [a4 [s4 [d4 [_ [H _]]]]].
  cbv beta in H.
  remember (d4 ++ d3 ++ d2 ++ d1 ++ [])%list as g4.
  clear Heqg4.
  match type of H with
  | rmatch (Seq _ (Opt ?X)) _ _ _ = _ =>
      set (tail := X) in H; assert (HX : gids tail = []) by reflexivity;
      clearbody tail
  end.
  unfold Plus in H. cbn [rmatch] in H.
  destruct s4 as [|c s5]; [discriminate |].
  change (any c) with true in H. cbv iota in H.
  match type of H with
  | star_lazy any s5 ?k = _ =>
      destruct (k s5) as [y|] eqn:E;
        [rewrite (star_lazy_first _ any k s5 y E) in H |]
  end.
  - injection H as ->.
    match type of E with
    | match ?M with Some _ => _ | None => _ end = _ =>
        destruct M as [z|] eqn:EM
    end.
    + injection E as ->. apply rmatch_sound in EM.
      destruct EM as [a [s' [d [_ [EM F]]]]].
      destruct d as [|kv d].
      * cbv beta in EM. injection EM as <- _. cbn [app group Nat.eqb].
        change (String c s5) with (String c "" ++ s5).
        now rewrite consumed_app.
      * apply Forall_inv in F. destruct F as [F _]. rewrite HX in F.
        contradiction.
    + injection E as <- _. cbn [group Nat.eqb].
      change (String c s5) with (String c "" ++ s5).
      now rewrite consumed_app.
  - exfalso.
    match type of E with
    | match ?M with Some _ => _ | None => _ end = _ =>
        destruct M; discriminate
    end.
Qed.

Lemma findall_context4 (n : N) (refs : string) (context : list string)
  (l : list (list string)) :
  findall (Pat.context4 n) 2 refs = context :: l ->
  exists web_internal_class extracted_headline,
    context = [web_internal_class; extracted_headline]
    /\ String.length extracted_headline = 1.
Proof.
  unfold findall. destruct (finditer (Pat.context4 n) refs) as [|m ms] eqn:E;
    [discriminate |].
  cbn [map seq]. intros [= <- _].
  exists (group 1 (grps m)), (group 2 (grps m)). split; [reflexivity |].
  apply finditer_head, search_sound in E. destruct E as [_ E].
  eapply match_here_context4; eassumption.
Qed.

(** X9: the fourth context pattern never gives a record.  Its headline
    group always holds one character, so when the first three patterns
    find nothing and the fourth finds something, the guard on the
    headline discards the number. *)
Theorem fourth_pattern_never_gives_a_record (text refs : string) (n : N) :
  findall (Pat.context1 n) 3 refs = [] ->
  findall (Pat.context2 n) 3 refs = [] ->
  findall (Pat.context3 n) 2 refs = [] ->
  findall (Pat.context4 n) 2 refs <> [] ->
  gap_record text refs n = None.
Proof.
  intros H1 H2 H3 H4. unfold gap_record, gap_context.
  unfold Pat.citation_context_patterns. cbn [find_context].
  rewrite H1, H2, H3.
  destruct (findall (Pat.context4 n) 2 refs) as [|context l] eqn:E;
    [congruence |].
  apply findall_context4 in E. destruct E as [w [h [-> Hh]]].
  assert (Hm : malformed (strip h) = true).
  { unfold malformed. apply orb_true_iff. left. apply Nat.ltb_lt.
    assert (L1 := strip_length (strip h)). assert (L2 := strip_length h).
    lia. }
  now rewrite Hm.
Qed.

(** X9, at an entry without a colon: only the fourth pattern finds it,
    and neither the number nor any other gets a record. *)
Lemma fourth_pattern_never_gives_a_record_witness :
  findall (Pat.context4 1) 2 "[1] [Web] A long title" = [["Web"; "A"]]
  /\ gap_record "[1] [Web] A long title" "[1] [Web] A long title" 1 = None
  /\ extract_citations_directly "[1] [Web] A long title" = [].
Proof.
  split; [vm_compute; reflexivity |].
  split; [| vm_compute; reflexivity].
  apply fourth_pattern_never_gives_a_record;
    try (vm_compute; reflexivity).
  vm_compute. discriminate.
Defined.

(* ------------------------------------------------------------------ *)
(** ** Further properties: no line break in a headline or a link *)

Lemma match_here_ws_plus (s : string) :
  match_here Pat.ws_plus s
  = match s with
    | String c s' =>
        if is_space c then Some ([], drop_while is_space s') else None
    | "" => None
    end.
Proof.
  destruct s as [|c s]; [reflexivity |].
  unfold match_here, Pat.ws_plus, Plus. cbn [rmatch].
  destruct (is_space c); [| reflexivity].
  now apply star_greedy_max.
Qed.

Lemma ws_plus_nonempty : nonempty_matches Pat.ws_plus.
Proof.
  intros s g rest. rewrite match_here_ws_plus.
  destruct s as [|c s]; [discriminate |].
  destruct (is_space c); [| discriminate]. intros [= _ <-].
  assert (H := drop_while_length is_space s). cbn [String.length]. lia.
Qed.

(** What is left after the runs of whitespace were replaced: the
    characters that are not whitespace and those of the replacement. *)
Lemma sub_ws_chars (P : ascii -> bool) (rep s out : string) :
  (forall c, is_space c = false -> P c = true) ->
  all_chars P rep = true ->
  sub_rel Pat.ws_plus (fun _ => rep) s out -> all_chars P out = true.
Proof.
  intros HP Hrep H. induction H as [| c s out Hm _ IH | s g rest out _ _ IH].
  - reflexivity.
  - rewrite match_here_ws_plus in Hm. cbn [all_chars]. rewrite IH, andb_true_r.
    apply HP. destruct (is_space c); [discriminate | reflexivity].
  - now rewrite all_chars_app, Hrep, IH.
Qed.

Lemma collapse_ws_plain (s : string) : all_chars plain (collapse_ws s) = true.
Proof.
  apply (sub_ws_chars plain " " s);
    [| reflexivity | apply sub_is_rel, ws_plus_nonempty].
  intros c Hc. unfold plain. now rewrite Hc.
Qed.

Lemma remove_ws_not_ws (s : string) : all_chars not_ws (remove_ws s) = true.
Proof.
  apply (sub_ws_chars not_ws "" s);
    [| reflexivity | apply sub_is_rel, ws_plus_nonempty].
  intros c Hc. unfold not_ws, neg. now rewrite Hc.
Qed.

Lemma all_chars_drop (P : ascii -> bool) (n : nat) : forall s,
  all_chars P s = true -> all_chars P (drop n s) = true.
Proof.
  induction n as [|n IH]; intros [|c s] H; cbn [drop]; try assumption.
  cbn [all_chars] in H. apply andb_true_iff in H. now apply IH.
Qed.

Lemma replace_fuel_chars (P : ascii -> bool) (old new : string) :
  all_chars P new = true ->
  forall f s, all_chars P s = true ->
              all_chars P (replace_fuel f old new s) = true.
Proof.
  intro Hn. induction f as [f IH] using lt_wf_ind. intros s Hs.
  destruct f as [|f]; [exact Hs |]. cbn [replace_fuel].
  destruct s as [|c s]; [reflexivity |].
  destruct (starts_with old (String c s)).
  - rewrite all_chars_app, Hn. cbn [andb].
    apply IH; [lia | now apply all_chars_drop].
  - cbn [all_chars] in *. apply andb_true_iff in Hs. destruct Hs as [Hc Hs].
    rewrite Hc. cbn [andb]. apply IH; [lia | exact Hs].
Qed.

Lemma replace_chars (P : ascii -> bool) (old new s : string) :
  all_chars P new = true -> all_chars P s = true ->
  all_chars P (replace old new s) = true.
Proof. intros Hn Hs. now apply replace_fuel_chars. Qed.

Lemma headline_plain (h : string) :
  all_chars plain (replace CR " " (replace NL " " (collapse_ws (strip h))))
  = true.
Proof.
  apply replace_chars; [reflexivity |].
  apply replace_chars; [reflexivity | apply collapse_ws_plain].
Qed.

Lemma link_not_ws (u : string) :
  all_chars not_ws
    (replace CR "" (replace NL "" (if nonempty u then remove_ws (strip u) else "")))
  = true.
Proof.
  apply replace_chars; [reflexivity |].
  apply replace_chars; [reflexivity |].
  destruct (nonempty u); [apply remove_ws_not_ws | reflexivity].
Qed.

Lemma primary_record_clean (text : string) (m : raw_match) :
  all_chars plain (citation_headline (primary_record text m)) = true
  /\ all_chars not_ws (citation_link (primary_record text m)) = true.
Proof.
  destruct m as [[[num tag] h] url]. unfold primary_record.
  cbn [citation_headline citation_link].
  split; [apply headline_plain | apply link_not_ws].
Qed.

Lemma gap_record_clean (text refs : string) (n : N) (c : citation) :
  gap_record text refs n = Some c ->
  all_chars plain (citation_headline c) = true
  /\ all_chars not_ws (citation_link c) = true.
Proof.
  unfold gap_record. destruct (gap_context n refs) as [[h l] w].
  destruct (malformed h); [discriminate |]. intros [= <-].
  cbn [citation_headline citation_link].
  split; [apply headline_plain | apply link_not_ws].
Qed.

(** X10: no record of the output has a line break in its headline or in
    its link: the only whitespace a headline holds is the plain space,
    and a link holds no whitespace at all. *)
Theorem headlines_and_links_on_one_line (text : string) :
  Forall (fun c =>
            all_chars (fun x => negb (is_space x) || Ascii.eqb x " ")
                      (citation_headline c) = true
            /\ all_chars (fun x => negb (is_space x)) (citation_link c) = true)
         (extract_citations_directly text).
Proof.
  apply Forall_forall. intros c Hc.
  apply extract_provenance in Hc. destruct Hc as [[m [_ ->]] | [n [_ Hg]]].
  - apply primary_record_clean.
  - eapply gap_record_clean; eassumption.
Qed.

(* ------------------------------------------------------------------ *)
(** ** Further properties: the count of occurrences *)

Lemma count_token_fuel_zero (tok : string) : tok <> "" ->
  forall f s, String.length s < f ->
  (count_token_fuel f tok s = 0 <-> contains tok s = false).
Proof.
  intro Ht. induction f as [|f IH]; intros s Hf; [lia |].
  cbn [count_token_fuel]. destruct s as [|c s].
  - cbn [contains]. destruct tok; [congruence |]. cbn [starts_with]. tauto.
  - cbn [contains]. destruct (starts_with tok (String c s)); cbn [orb].
    + split; discriminate.
    + apply IH. cbn [String.length] in Hf. lia.
Qed.

Lemma count_token_fuel_bound (tok : string) :
  forall f s, count_token_fuel f tok s * String.length tok <= String.length s.
Proof.
  induction f as [|f IH]; intro s; [cbn; lia |].
  cbn [count_token_fuel]. destruct s as [|c s]; [cbn; lia |].
  destruct (starts_with tok (String c s)) eqn:E.
  - assert (L := starts_with_length _ _ E).
    assert (B := IH (drop (String.length tok) (String c s))).
    rewrite drop_length in B. lia.
  - assert (B := IH s). cbn [String.length]. lia.
Qed.

(** X11: the number of occurrences counted for a citation number is 0
    exactly when its bracketed token is nowhere in the text, and the
    occurrences counted do not overlap: together they are no longer than
    the text. *)
Theorem occurrences_zero_iff_token_absent (n : N) (text : string) :
  (count_citation_occurrences n text = 0
   <-> contains (bracket_token n) text = false)
  /\ count_citation_occurrences n text * String.length (bracket_token n)
     <= String.length text.
Proof.
  rewrite count_citation_occurrences_spec. unfold count_token. split.
  - apply count_token_fuel_zero; [discriminate | lia].
  - apply count_token_fuel_bound.
Qed.

(* ------------------------------------------------------------------ *)
(** ** Further properties: the numbers of the gap filler *)

Lemma max_citation_num_le_100 (refs : string) :
  (max_citation_num refs <= 100)%N.
Proof.
  destruct (max_citation_num_spec refs) as [_ [E | [ds [_ [H E]]]]];
    rewrite E; [lia | exact H].
Qed.

Lemma output_number_source (text : string) (c : citation) :
  In c (extract_citations_directly text) ->
  In (citation_number c) (parsed_numbers text)
  \/ (citation_number c <= max_citation_num (find_references_section text))%N.
Proof.
  unfold extract_citations_directly. rewrite extract_unfold, sort_by_number_In.
  intro H. apply gap_loop_In in H. cbn [fst snd] in H.
  destruct H as [H | [n [Hn [_ Hg]]]].
  - left. unfold parsed_numbers. now apply in_map.
  - right. apply gap_record_number in Hg. rewrite Hg.
    apply numbers_needed_In in Hn. destruct Hn as [Hn | [Hn _]].
    + now apply max_of_ge.
    + unfold max_citation_num. lia.
Qed.

(** X12: the gap filler never makes a record above the largest bracket
    number it saw, and that maximum is at most 100: every record of the
    output has a number the parser produced or a number up to the
    maximum. *)
Theorem gap_filled_numbers_bounded (text : string) :
  (max_citation_num (find_references_section text) <= 100)%N
  /\ Forall (fun c =>
               In (citation_number c) (parsed_numbers text)
               \/ (citation_number c
                   <= max_citation_num (find_references_section text))%N)
            (extract_citations_directly text).
Proof.
  split; [apply max_citation_num_le_100 |].
  apply Forall_forall. intros c Hc. now apply output_number_source.
Qed.

(** X13: the maximum the gap filler works up to is the largest bracket
    number of the reference section that is not above 100: it bounds
    every such number, and it is one of them unless it is 0. *)
Theorem max_is_largest_bracket_number (refs : string) :
  (forall ds, bracket_occurs ds refs -> (int_of_string ds <= 100)%N ->
              (int_of_string ds <= max_citation_num refs)%N)
  /\ (max_citation_num refs = 0%N
      \/ exists a ds b,
           refs = a ++ "[" ++ ds ++ "]" ++ b
           /\ ds <> "" /\ all_chars is_decimal ds = true
           /\ (int_of_string ds <= 100)%N
           /\ max_citation_num refs = int_of_string ds).
Proof.
  destruct (max_citation_num_spec refs) as [H1 H2]. split; [exact H1 |].
  destruct H2 as [E | [ds [[a [b [E [Hd1 Hd2]]]] [H E2]]]]; [now left | right].
  exists a, ds, b. repeat split; try assumption.
Qed.

(** X13, at a reference section that is a bare [[5]]. *)
Lemma max_is_largest_bracket_number_witness :
  bracket_occurs "5" "[5]" /\ (int_of_string "5" <= 100)%N
  /\ (int_of_string "5" <= max_citation_num "[5]")%N.
Proof.
  assert (H1 : bracket_occurs "5" "[5]").
  { exists "", "". split; [reflexivity |]. split; [discriminate | reflexivity]. }
  assert (H2 : (int_of_string "5" <= 100)%N) by (vm_compute; discriminate).
  split; [exact H1 | split; [exact H2 |]].
  exact (proj1 (max_is_largest_bracket_number "[5]") "5" H1 H2).
Defined.

(* ------------------------------------------------------------------ *)
(** ** Further properties: what the normaliser guarantees *)

Lemma nl_count_ws_app (w s : string) :
  all_chars is_space w = true -> nl_count_ws s <= nl_count_ws (w ++ s).
Proof.
  induction w as [|c w IH]; intro H; [cbn; lia |].
  cbn [all_chars] in H. apply andb_true_iff in H. destruct H as [Hc Hw].
  cbn [append nl_count_ws]. rewrite Hc. specialize (IH Hw). lia.
Qed.

Lemma nl_count_ws_nl (s : string) : nl_count_ws (NL ++ s) = S (nl_count_ws s).
Proof. reflexivity. Qed.

Lemma blank_bad_here (w1 w2 b : string) (k : nat) :
  all_chars is_space w1 = true -> all_chars is_space w2 = true ->
  blank_bad k (NL ++ w1 ++ NL ++ w2 ++ NL ++ b) = true.
Proof.
  intros H1 H2. destruct (le_lt_dec 2 k) as [Hk | Hk].
  - cbn [NL append blank_bad]. rewrite Ascii.eqb_refl.
    apply Nat.leb_le in Hk. now rewrite Hk.
  - apply blank_bad_count; [lia |].
    rewrite nl_count_ws_nl.
    assert (L1 := nl_count_ws_app w1 (NL ++ w2 ++ NL ++ b) H1).
    rewrite nl_count_ws_nl in L1.
    assert (L2 := nl_count_ws_app w2 (NL ++ b) H2).
    rewrite nl_count_ws_nl in L2. lia.
Qed.

Lemma blank_bad_inside (a s : string) :
  (forall k, blank_bad k s = true) -> forall k, blank_bad k (a ++ s) = true.
Proof.
  intro H. induction a as [|c a IH]; intro k; [apply H |].
  cbn [append blank_bad]. destruct (Ascii.eqb c nl).
  - rewrite IH. apply orb_true_r.
  - destruct (is_space c); apply IH.
Qed.

Lemma pair_bad_inside (lo hi : ascii -> bool) (a : string) (l u : ascii)
  (b : string) : forall prev,
  pair_bad lo hi prev (a ++ String l (String u b)) = false ->
  lo l && hi u = false.
Proof.
  induction a as [|c a IH]; intros prev H.
  - cbn [append pair_bad] in H. rewrite !orb_false_iff in H. tauto.
  - cbn [append pair_bad] in H. rewrite orb_false_iff in H.
    destruct H as [_ H]. now apply IH in H.
Qed.

(** X14: what the normaliser guarantees of its result: no newline is
    followed, through whitespace only, by two more newlines, and no
    capital letter stands right after a small letter or right after a
    full stop, an exclamation mark or a question mark. *)
Theorem clean_text_result_is_spaced (text : string) :
  (forall a w1 w2 b,
      all_chars is_space w1 = true -> all_chars is_space w2 = true ->
      clean_text text <> a ++ NL ++ w1 ++ NL ++ w2 ++ NL ++ b)
  /\ (forall a l u b,
         clean_text text = a ++ String l (String u b) ->
         is_upper u = true ->
         is_lower l = false /\ Pat.is_sentence_end l = false).
Proof.
  split.
  - intros a w1 w2 b H1 H2 E.
    assert (B := clean_no_blank_run text). rewrite <- clean_text_passes in B.
    rewrite E in B.
    rewrite (blank_bad_inside a _ (fun k => blank_bad_here w1 w2 b k H1 H2)) in B.
    discriminate.
  - intros a l u b E Hu.
    assert (B1 := clean_no_camel text). assert (B2 := clean_no_sentence text).
    rewrite <- clean_text_passes in B1, B2. rewrite E in B1, B2.
    apply pair_bad_inside in B1. apply pair_bad_inside in B2.
    rewrite Hu, andb_true_r in B1, B2. now split.
Qed.

(** X14, at a text with a capital after a small letter and after a full
    stop: both are set apart by a space. *)
Lemma clean_text_result_is_spaced_witness :
  clean_text "aB.C" = "a B. C"
  /\ is_upper "B" = true
  /\ is_lower " " = false /\ Pat.is_sentence_end " " = false.
Proof.
  assert (E : clean_text "aB.C" = "a" ++ String " " (String "B" ". C"))
    by (vm_compute; reflexivity).
  assert (Hu : is_upper "B" = true) by reflexivity.
  split; [exact E | split; [exact Hu |]].
  exact (proj2 (clean_text_result_is_spaced "aB.C") "a" " "%char "B"%char ". C"
           E Hu).
Defined.

(* ------------------------------------------------------------------ *)
(** ** Further properties: the rows of the CSV *)

Section CsvRows.
Variable percent : nat -> nat -> string.
Variable citations : list citation.

Lemma analytics_rows_length :
  List.length (analytics_rows percent citations) = 17.
Proof. reflexivity. Qed.

Lemma analytics_rows_width :
  Forall (fun r => List.length r = 2) (analytics_rows percent citations).
Proof. unfold analytics_rows. repeat constructor. Qed.

Lemma csv_row_width (i : nat) :
  List.length (csv_row citations (analytics_rows percent citations) i) = 9.
Proof.
  unfold csv_row. rewrite !length_app.
  assert (L : List.length
                match nth_error citations i with
                | Some c => left_cells c
                | None => blanks (List.length main_headers)
                end = 6) by (destruct (nth_error citations i); reflexivity).
  assert (R : List.length
                match nth_error (analytics_rows percent citations) i with
                | Some r => r
                | None => blanks (List.length analytics_headers)
                end = 2).
  { destruct (nth_error (analytics_rows percent citations) i) as [r|] eqn:E;
      [| reflexivity].
    apply nth_error_In in E. assert (W := analytics_rows_width).
    rewrite Forall_forall in W. now apply W. }
  rewrite L, R. reflexivity.
Qed.

Lemma csv_body_nth (i : nat) :
  i < Nat.max (List.length citations) 17 ->
  nth_error (tl (csv_rows percent citations)) i
  = Some (csv_row citations (analytics_rows percent citations) i).
Proof.
  intro H. unfold csv_rows. cbn [tl]. rewrite analytics_rows_length.
  rewrite nth_error_map, nth_error_seq.
  apply Nat.ltb_lt in H. now rewrite H.
Qed.

Lemma csv_left_block :
  map (firstn 6) (firstn (List.length citations) (tl (csv_rows percent citations)))
  = map left_cells citations.
Proof.
  apply nth_error_ext. intro i.
  rewrite !nth_error_map, nth_error_firstn.
  destruct (Nat.ltb i (List.length citations)) eqn:E.
  - apply Nat.ltb_lt in E. rewrite csv_body_nth by lia.
    destruct (nth_error citations i) as [c|] eqn:Ec.
    + unfold csv_row. rewrite Ec. reflexivity.
    + apply nth_error_None in Ec. lia.
  - apply Nat.ltb_ge in E. apply nth_error_None in E. now rewrite E.
Qed.

Lemma csv_right_block :
  map (skipn 7) (firstn 17 (tl (csv_rows percent citations)))
  = analytics_rows percent citations.
Proof.
  apply nth_error_ext. intro i.
  rewrite !nth_error_map, nth_error_firstn.
  destruct (Nat.ltb i 17) eqn:E.
  - apply Nat.ltb_lt in E. rewrite csv_body_nth by lia.
    cbn [option_map]. unfold csv_row.
    destruct (nth_error (analytics_rows percent citations) i) as [r|] eqn:Er.
    + destruct (nth_error citations i); reflexivity.
    + apply nth_error_None in Er. rewrite analytics_rows_length in Er. lia.
  - apply Nat.ltb_ge in E. symmetry. apply nth_error_None.
    now rewrite analytics_rows_length.
Qed.
End CsvRows.

Lemma read_left_cells (c : citation) : read_cells (left_cells c) = Some c.
Proof.
  destruct c as [n h l w k v]. unfold left_cells, read_cells, count_cell.
  cbn [citation_number citation_headline citation_link web_internal
       total_occurrences vector_sql]. now rewrite Nat2N.id.
Qed.

(** X15: the table written to the CSV is rectangular: a header and as
    many rows as there are records, 17 at least, each of nine cells; a
    row past the last record has six blank cells on the left, and a row
    past the 17 metrics has two blank cells on the right. *)
Theorem csv_is_rectangular (percent : nat -> nat -> string)
  (citations : list citation) :
  List.length (csv_rows percent citations)
  = S (Nat.max (List.length citations) 17)
  /\ Forall (fun row => List.length row = 9) (csv_rows percent citations)
  /\ (forall i row, nth_error (tl (csv_rows percent citations)) i = Some row ->
                    (List.length citations <= i ->
                     firstn 6 row = repeat (CText "") 6)
                    /\ (17 <= i -> skipn 7 row = repeat (CText "") 2)).
Proof.
  split; [| split].
  - unfold csv_rows. cbn [List.length]. rewrite length_map, length_seq.
    now rewrite analytics_rows_length.
  - unfold csv_rows. constructor; [reflexivity |].
    apply Forall_forall. intros row H. apply in_map_iff in H.
    destruct H as [i [<- _]]. apply csv_row_width.
  - intros i row H.
    assert (Hi : i < Nat.max (List.length citations) 17).
    { assert (Hs : nth_error (tl (csv_rows percent citations)) i <> None)
        by congruence.
      apply nth_error_Some in Hs. unfold csv_rows in Hs. cbn [tl] in Hs.
      now rewrite length_map, length_seq, analytics_rows_length in Hs. }
    rewrite csv_body_nth in H by exact Hi. injection H as <-.
    unfold csv_row. split; intro Hge.
    + apply nth_error_None in Hge. rewrite Hge. reflexivity.
    + assert (E : nth_error (analytics_rows percent citations) i = None)
        by (apply nth_error_None; now rewrite analytics_rows_length).
      rewrite E. destruct (nth_error citations i); reflexivity.
Qed.

(** X16: the CSV holds the output as it is: the first six cells of the
    rows under the header, read back as records, are the records in their
    order, and the last two cells of the first 17 rows are the metrics. *)
Theorem csv_holds_the_records (percent : nat -> nat -> string)
  (citations : list citation) :
  map (fun row => read_cells (firstn 6 row))
      (firstn (List.length citations) (tl (csv_rows percent citations)))
  = map Some citations
  /\ map (skipn 7) (firstn 17 (tl (csv_rows percent citations)))
     = analytics_rows percent citations.
Proof.
  split; [| apply csv_right_block].
  rewrite <- (map_map (firstn 6) read_cells), csv_left_block, map_map.
  apply map_ext. apply read_left_cells.
Qed.

(* ------------------------------------------------------------------ *)
(** ** Further properties: the categories among the metrics *)

Ltac eval_eqb :=
  repeat match goal with
         | |- context [String.eqb ?a ?b] =>
             let v := eval vm_compute in (String.eqb a b) in
             change (String.eqb a b) with v
         end.

Lemma categories_bounded (cs : list citation) :
  Forall labels_ok cs ->
  List.length (filter is_na cs) <= unique_web_count cs
  /\ List.length (internal_vector_citations cs)
     + List.length (internal_sql_citations cs)
     + List.length (filter is_na cs) <= total_citations cs
  /\ sum_occurrences (filter is_na cs) <= total_web_occurrences cs
  /\ internal_vector_occurrences cs + internal_sql_occurrences cs
     + sum_occurrences (filter is_na cs) <= total_occurrences_all cs.
Proof.
  unfold unique_web_count, total_citations, total_web_occurrences,
    total_occurrences_all, internal_vector_occurrences,
    internal_sql_occurrences, internal_vector_citations,
    internal_sql_citations, sum_occurrences,
    is_na, is_web, is_internal, is_vector, is_sql.
  induction 1 as [|c cs Hc _ IH]; [cbn; lia |].
  destruct IH as [I1 [I2 [I3 I4]]]. cbn [filter]. cbv beta.
  destruct Hc as [Hw [Hv Hna]].
  destruct Hv as [Ev | [Ev | Ev]].
  - rewrite Ev. destruct Hw as [Ew | Ew]; rewrite Ew;
      eval_eqb; cbn [andb List.length fold_right]; repeat split; lia.
  - rewrite Ev. destruct Hw as [Ew | Ew]; rewrite Ew;
      eval_eqb; cbn [andb List.length fold_right]; repeat split; lia.
  - rewrite (Hna Ev), Ev.
    eval_eqb. cbn [andb List.length fold_right]. repeat split; lia.
Qed.

(** X17: among the metrics, the records of category N/A are Web records,
    so their count and their occurrences are at most those of the Web
    records, and Vector, SQL and N/A together never exceed the totals. *)
Theorem categories_never_exceed_totals (text : string) :
  List.length (filter is_na (extract_citations_directly text))
  <= unique_web_count (extract_citations_directly text)
  /\ List.length (internal_vector_citations (extract_citations_directly text))
     + List.length (internal_sql_citations (extract_citations_directly text))
     + List.length (filter is_na (extract_citations_directly text))
     <= total_citations (extract_citations_directly text)
  /\ sum_occurrences (filter is_na (extract_citations_directly text))
     <= total_web_occurrences (extract_citations_directly text)
  /\ internal_vector_occurrences (extract_citations_directly text)
     + internal_sql_occurrences (extract_citations_directly text)
     + sum_occurrences (filter is_na (extract_citations_directly text))
     <= total_occurrences_all (extract_citations_directly text).
Proof. apply categories_bounded, output_labels. Qed.

(* ------------------------------------------------------------------ *)
(** ** Further properties: numbers written in decimal *)

Lemma int_of_string_acc (d : Decimal.uint) : forall acc : positive,
  (fix go (acc : N) (s : string) : N :=
     match s with
     | "" => acc
     | String c s' => go (acc * 10 + digit_val c)%N s'
     end) (N.pos acc) (NilEmpty.string_of_uint d)
  = N.pos (Pos.of_uint_acc d acc).
Proof.
  induction d; intro acc; cbn [NilEmpty.string_of_uint Pos.of_uint_acc];
    try reflexivity;
    match goal with
    | |- _ (_ * 10 + digit_val ?c)%N _ = _ =>
        let v := eval vm_compute in (digit_val c) in
        change (digit_val c) with v
    end;
    rewrite <- IHd; f_equal; lia.
Qed.

Lemma int_of_string_uint (d : Decimal.uint) :
  int_of_string (NilEmpty.string_of_uint d) = N.of_uint d.
Proof.
  unfold int_of_string, N.of_uint.
  induction d; cbn [NilEmpty.string_of_uint Pos.of_uint];
    try reflexivity; try exact IHd;
    match goal with
    | |- _ (0 * 10 + digit_val ?c)%N _ = _ =>
        let v := eval vm_compute in (0 * 10 + digit_val c)%N in
        change (0 * 10 + digit_val c)%N with v
    end;
    apply int_of_string_acc.
Qed.

(** Reading a number back from its decimal text gives the number. *)
Lemma int_of_str_of_int (n : N) : int_of_string (str_of_int n) = n.
Proof.
  unfold str_of_int. rewrite int_of_string_uint.
  apply DecimalN.Unsigned.of_to.
Qed.

Lemma string_of_uint_decimal (d : Decimal.uint) :
  all_chars is_decimal (NilEmpty.string_of_uint d) = true.
Proof. induction d; cbn [NilEmpty.string_of_uint all_chars]; auto. Qed.

Lemma str_of_int_run (n : N) : run_of is_decimal (str_of_int n).
Proof.
  split; [| apply string_of_uint_decimal].
  intro E. assert (H := int_of_str_of_int n). unfold str_of_int in *.
  destruct n as [|p]; [discriminate E |].
  rewrite E in H. discriminate H.
Qed.

Lemma str_of_int_inj (n m : N) : str_of_int n = str_of_int m -> n = m.
Proof.
  intro E. rewrite <- (int_of_str_of_int n), <- (int_of_str_of_int m).
  now rewrite E.
Qed.

(* ------------------------------------------------------------------ *)
(** ** Further properties: the citation pattern on a well-written entry *)

Lemma rmatch_lit_char (A : Type) (c : ascii) (s : string) (g : groups)
  (k : string -> groups -> option A) :
  rmatch (Chr (chr c)) (String c s) g k = k s g.
Proof. rewrite rmatch_char, expect_cons. reflexivity. Qed.

(** A greedy run in a group, when what follows the run is accepted. *)
Lemma rmatch_grp_run (A : Type) (i : nat) (p : cls) (run rest : string)
  (g : groups) (k : string -> groups -> option A) (x : A) :
  run_of p run -> starts_in p rest = false ->
  k rest ((i, run) :: g) = Some x ->
  rmatch (Grp i (Plus true p)) (run ++ rest) g k = Some x.
Proof.
  intros [Hne Hall] Hrest Hk. destruct run as [|c run]; [congruence |].
  cbn [all_chars] in Hall. apply andb_true_iff in Hall.
  destruct Hall as [Hc Hall].
  unfold Plus. cbn [rmatch append]. rewrite Hc.
  apply star_greedy_max. rewrite drop_while_app by assumption.
  change (String c (run ++ rest)) with (String c run ++ rest).
  now rewrite consumed_app.
Qed.

Lemma rmatch_ws_run (A : Type) (w rest : string) (g : groups)
  (k : string -> groups -> option A) (x : A) :
  all_chars is_space w = true -> starts_in is_space rest = false ->
  k rest g = Some x -> rmatch ws_star (w ++ rest) g k = Some x.
Proof.
  intros Hw Hrest Hk. unfold ws_star. cbn [rmatch].
  apply star_greedy_max. now rewrite drop_while_app.
Qed.

(** A lazy run stops at the first place where what follows is accepted. *)
Lemma star_lazy_run (A : Type) (p q : cls) (k : string -> option A) (x : A)
  (rest : string) :
  (forall c s, q c = true -> k (String c s) = None) ->
  k rest = Some x ->
  forall run, all_chars (fun c => p c && q c) run = true ->
              star_lazy p (run ++ rest) k = Some x.
Proof.
  intros Hav Hk. induction run as [|c run IH]; intro Hall.
  - now apply star_lazy_first.
  - cbn [all_chars] in Hall. rewrite !andb_true_iff in Hall.
    destruct Hall as [[Hp Hq] Hall].
    cbn [append star_lazy]. rewrite (Hav c _ Hq), Hp. now apply IH.
Qed.

Lemma rmatch_grp_lazy_plus (A : Type) (i : nat) (p : cls) (run rest : string)
  (g : groups) (k : string -> groups -> option A) (x : A) :
  run_of p run -> averse p k ->
  k rest ((i, run) :: g) = Some x ->
  rmatch (Grp i (Plus false p)) (run ++ rest) g k = Some x.
Proof.
  intros [Hne Hall] Hav Hk. destruct run as [|c run]; [congruence |].
  cbn [all_chars] in Hall. apply andb_true_iff in Hall.
  destruct Hall as [Hc Hall].
  unfold Plus. cbn [rmatch append]. rewrite Hc.
  apply (star_lazy_run _ p p).
  - intros d s Hd. now apply Hav.
  - change (String c (run ++ rest)) with (String c run ++ rest).
    now rewrite consumed_app.
  - clear -Hall. induction run as [|d run IH]; [reflexivity |].
    cbn [all_chars] in *. apply andb_true_iff in Hall.
    destruct Hall as [Hd Hall]. now rewrite Hd, IH.
Qed.

Lemma rmatch_grp_lazy_star (A : Type) (i : nat) (q : cls) (run rest : string)
  (g : groups) (k : string -> groups -> option A) (x : A) :
  all_chars q run = true -> averse q k ->
  k rest ((i, run) :: g) = Some x ->
  rmatch (Grp i (Star false any)) (run ++ rest) g k = Some x.
Proof.
  intros Hall Hav Hk. cbn [rmatch].
  apply (star_lazy_run _ any q).
  - intros d s Hd. now apply Hav.
  - now rewrite consumed_app.
  - clear -Hall. induction run as [|d run IH]; [reflexivity |].
    cbn [all_chars] in *. apply andb_true_iff in Hall.
    destruct Hall as [Hd Hall]. now rewrite Hd, IH.
Qed.

Lemma next_entry_or_end_at (rest : string) (g : groups) :
  entry_end rest -> rmatch next_entry_or_end rest g final = Some (g, rest).
Proof.
  intros [-> | [r ->]]; unfold next_entry_or_end; cbn [rmatch lit].
  - reflexivity.
  - unfold chr. now rewrite !Ascii.eqb_refl.
Qed.

Lemma next_entry_or_end_averse :
  averse not_ws (fun s g => rmatch next_entry_or_end s g final).
Proof.
  intros c s g Hc. unfold next_entry_or_end. cbn [rmatch lit].
  unfold chr. destruct (Ascii.eqb nl c) eqn:E; [| reflexivity].
  apply Ascii.eqb_eq in E. subst c. discriminate Hc.
Qed.

Lemma colon_averse (A : Type) (r : regex)
  (k : string -> groups -> option A) :
  averse (neg (chr ":")) (fun s g => rmatch (Seq (lit ":") r) s g k).
Proof.
  intros c s g Hc. cbn [rmatch lit]. unfold neg, chr in *.
  apply negb_true_iff in Hc. now rewrite Hc.
Qed.

Lemma starts_in_cons (p : cls) (c : ascii) (s : string) :
  starts_in p (String c s) = p c.
Proof. reflexivity. Qed.

(** The citation pattern at the line of an entry: the four groups are the
    number, the tag, the headline and the URL, and the match ends where
    the entry ends. *)
Ltac lit_char :=
  cbv beta; rewrite ?rmatch_seq; rewrite rmatch_char, expect_cons; cbn [obind].
Ltac next_part := cbv beta; rewrite ?rmatch_seq.

Lemma match_here_entry (ds tag h url rest : string) :
  run_of is_decimal ds ->
  run_of (neg (chr "]")) tag ->
  run_of (neg (chr ":")) h -> starts_in is_space h = false ->
  url <> "" -> all_chars not_ws url = true ->
  entry_end rest ->
  match_here Pat.citation_pattern
    (String "[" (ds ++ String "]" (String " " (String "["
       (tag ++ String "]" (String " "
          (h ++ String ":" (String " " (url ++ rest)))))))))
  = Some ([(4, url); (3, h); (2, tag); (1, ds)]%nat, rest).
Proof.
  intros Hds Htag Hh Hh0 Hu0 Hu Hend.
  unfold match_here, Pat.citation_pattern, tag_re. cbn [seqs lit].
  lit_char.
  next_part. apply rmatch_grp_run; [exact Hds | reflexivity |].
  lit_char.
  next_part. apply (rmatch_ws_run _ " "); [reflexivity | reflexivity |].
  lit_char.
  next_part. apply rmatch_grp_run; [exact Htag | reflexivity |].
  lit_char.
  next_part. apply (rmatch_ws_run _ " "); [reflexivity | |].
  { destruct h as [|c h]; [destruct Hh; congruence | exact Hh0]. }
  next_part. apply rmatch_grp_lazy_plus; [exact Hh | apply colon_averse |].
  lit_char.
  next_part. apply (rmatch_ws_run _ " "); [reflexivity | |].
  { destruct url as [|c url]; [congruence |].
    cbn [all_chars] in Hu. apply andb_true_iff in Hu. destruct Hu as [Hc _].
    cbn [append starts_in]. unfold not_ws, neg in Hc.
    now apply negb_true_iff in Hc. }
  next_part. apply (rmatch_grp_lazy_star _ _ not_ws);
    [exact Hu | apply next_entry_or_end_averse |].
  now apply next_entry_or_end_at.
Qed.

Lemma first_char_nonempty (p : cls) (r : regex) :
  nonempty_matches (Seq (Chr p) r).
Proof.
  intros s g rest. unfold match_here. cbn [rmatch].
  destruct s as [|c s]; [discriminate |]. destruct (p c); [| discriminate].
  intro H. apply rmatch_sound in H. destruct H as [a [s' [d [-> [H _]]]]].
  injection H as _ <-. cbn [String.length]. rewrite append_length. lia.
Qed.

Lemma citation_pattern_nonempty : nonempty_matches Pat.citation_pattern.
Proof. apply first_char_nonempty. Qed.

(** The matches of a scan are determined by the text. *)
Lemma matches_rel_fun (r : regex) (s : string) (l1 : list groups) :
  nonempty_matches r ->
  matches_rel r s l1 -> forall l2, matches_rel r s l2 -> l1 = l2.
Proof.
  intros Hne H. induction H as [| c s l Hm _ IH | s g rest l Hm _ IH];
    intros l2 H2.
  - inversion H2 as [| | s' g' rest' l' Hm' _]; [reflexivity |].
    apply Hne in Hm'. cbn in Hm'. lia.
  - inversion H2 as [| c' s' l' Hm' H' | s' g' rest' l' Hm' H']; subst.
    + now apply IH.
    + congruence.
  - inversion H2 as [| c' s' l' Hm' H' | s' g' rest' l' Hm' H']; subst.
    + apply Hne in Hm. cbn in Hm. lia.
    + congruence.
    + rewrite Hm in Hm'. injection Hm' as <- <-. f_equal. now apply IH.
Qed.

Lemma finditer_groups (r : regex) (s : string) (l : list groups) :
  nonempty_matches r -> matches_rel r s l -> map grps (finditer r s) = l.
Proof.
  intros Hne H. symmetry.
  exact (matches_rel_fun r s l Hne H _ (finditer_rel r s Hne)).
Qed.

Lemma render_app (e : entry) (rest : string) :
  render e ++ rest
  = String "[" (str_of_int (entry_number e) ++ String "]" (String " "
      (String "[" (entry_tag e ++ String "]" (String " "
         (entry_headline e ++ String ":" (String " "
            (entry_url e ++ rest)))))))).
Proof.
  unfold render. cbn [append]. rewrite !append_assoc. cbn [append].
  rewrite !append_assoc. cbn [append]. rewrite !append_assoc. cbn [append].
  reflexivity.
Qed.

Lemma url_shaped_nonempty (u : string) : url_shaped u = true -> u <> "".
Proof. intros H ->. discriminate H. Qed.

Lemma well_formed_parts (e : entry) :
  well_formed e = true ->
  run_of (neg (chr "]")) (entry_tag e)
  /\ run_of (neg (chr ":")) (entry_headline e)
  /\ starts_in is_space (entry_headline e) = false
  /\ url_shaped (entry_url e) = true
  /\ all_chars not_ws (entry_url e) = true
  /\ contains "Govtsource:" (entry_url e) = false.
Proof.
  unfold well_formed. rewrite !andb_true_iff, !negb_true_iff.
  intros [[[[[[[H1 H2] H3] H4] H5] H6] H7] H8].
  repeat split; try assumption.
  - intros E. rewrite E in H1. discriminate.
  - intros E. rewrite E in H3. discriminate.
Qed.

Lemma match_here_render (e : entry) (rest : string) :
  well_formed e = true -> entry_end rest ->
  match_here Pat.citation_pattern (render e ++ rest)
  = Some (entry_groups e, rest).
Proof.
  intros Hwf Hend. apply well_formed_parts in Hwf.
  destruct Hwf as [Ht [Hh [Hh0 [Hu1 [Hu2 _]]]]].
  rewrite render_app. apply match_here_entry; try assumption.
  - apply str_of_int_run.
  - now apply url_shaped_nonempty.
Qed.

Lemma join_render_head (e : entry) (es : list entry) :
  exists r, join_lines (map render (e :: es)) = String "[" r.
Proof.
  cbn [map]. destruct es as [|e' es].
  - cbn [join_lines]. rewrite <- (append_empty_r (render e)), render_app.
    eexists. reflexivity.
  - rewrite join_lines_cons by discriminate. rewrite render_app.
    eexists. reflexivity.
Qed.

Lemma citation_pattern_skip_nl (s : string) :
  match_here Pat.citation_pattern (String nl s) = None.
Proof. reflexivity. Qed.

(** The scan of a list of well-written entries, one per line. *)
Lemma entries_matches (es : list entry) :
  Forall (fun e => well_formed e = true) es ->
  matches_rel Pat.citation_pattern (join_lines (map render es))
              (map entry_groups es).
Proof.
  induction 1 as [|e es Hwf _ IH]; [constructor |].
  cbn [map]. destruct es as [|e' es].
  - cbn [join_lines map]. rewrite <- (append_empty_r (render e)).
    apply mr_hit with (rest := ""); [| constructor].
    apply match_here_render; [exact Hwf | now left].
  - rewrite join_lines_cons by discriminate.
    destruct (join_render_head e' es) as [r Er].
    change (map render (e' :: es)) with (render e' :: map render es) in Er.
    apply mr_hit with (rest := NL ++ join_lines (render e' :: map render es)).
    + apply match_here_render; [exact Hwf |]. right. exists r.
      now rewrite Er.
    + cbn [NL append]. apply mr_skip; [apply citation_pattern_skip_nl |].
      exact IH.
Qed.

Lemma findall4_entries (es : list entry) :
  Forall (fun e => well_formed e = true) es ->
  findall4 Pat.citation_pattern (join_lines (map render es))
  = map entry_fields es.
Proof.
  intro H. unfold findall4.
  rewrite <- (map_map grps
                (fun g => (group 1 g, group 2 g, group 3 g, group 4 g))).
  rewrite (finditer_groups _ _ _ citation_pattern_nonempty (entries_matches es H)).
  rewrite map_map. reflexivity.
Qed.

(** X18: the citation pattern reads a list of well-written entries, one
    per line, entry by entry: the raw matches are the number, tag,
    headline and URL of each entry, in order. *)
Theorem well_written_list_is_read_entry_by_entry (es : list entry) :
  Forall (fun e => well_formed e = true) es ->
  findall4 Pat.citation_pattern (join_lines (map render es))
  = map entry_fields es.
Proof. apply findall4_entries. Qed.

(** X18, at a list of two entries. *)
Lemma well_written_list_is_read_entry_by_entry_witness :
  findall4 Pat.citation_pattern
    ("[1] [Web] First title: https://a.example/x" ++ NL
     ++ "[2] [Internal] Second one: http://b.example")
  = [("1", "Web", "First title", "https://a.example/x");
     ("2", "Internal", "Second one", "http://b.example")].
Proof.
  apply (well_written_list_is_read_entry_by_entry
           [Entry 1 "Web" "First title" "https://a.example/x";
            Entry 2 "Internal" "Second one" "http://b.example"]).
  repeat constructor.
Defined.

(* ------------------------------------------------------------------ *)
(** ** Further properties: the only candidate of a number *)

Lemma dict_get_set_same (k : N) (v : citation) (d : dict) :
  dict_get k (dict_set k v d) = Some v.
Proof.
  induction d as [|[k' v'] d IH]; cbn [dict_set dict_get].
  - now rewrite N.eqb_refl.
  - destruct (N.eqb k k') eqn:E; cbn [dict_get]; rewrite ?N.eqb_refl, ?E; auto.
Qed.

Lemma dict_get_set_other (k k' : N) (v : citation) (d : dict) :
  k <> k' -> dict_get k (dict_set k' v d) = dict_get k d.
Proof.
  intro Hne. induction d as [|[k2 v2] d IH]; cbn [dict_set dict_get].
  - apply N.eqb_neq in Hne. now rewrite Hne.
  - destruct (N.eqb k' k2) eqn:E; cbn [dict_get].
    + apply N.eqb_eq in E. subst k2. apply N.eqb_neq in Hne. now rewrite Hne.
    + now rewrite IH.
Qed.

Lemma choose_best_other (d : dict) (c : citation) (k : N) :
  citation_number c <> k -> dict_get k (choose_best d c) = dict_get k d.
Proof.
  intro Hne. unfold choose_best.
  destruct (dict_get (citation_number c) d);
    repeat match goal with |- context [if ?b then _ else _] => destruct b end;
    try reflexivity; apply dict_get_set_other; congruence.
Qed.

Lemma choose_best_first (d : dict) (c : citation) :
  dict_get (citation_number c) d = None ->
  dict_get (citation_number c) (choose_best d c) = Some c.
Proof. intro H. unfold choose_best. rewrite H. apply dict_get_set_same. Qed.

Lemma primary_fold_other (text : string) (k : N) (ms : list raw_match) :
  Forall (fun m => citation_number (primary_record text m) <> k) ms ->
  forall d,
    dict_get k (fold_left (fun d m => choose_best d (primary_record text m)) ms d)
    = dict_get k d.
Proof.
  induction 1 as [|m ms Hm _ IH]; intro d; cbn [fold_left]; [reflexivity |].
  rewrite IH. now apply choose_best_other.
Qed.

(** The record of a number that has one candidate only is the record
    made from that candidate. *)
Lemma primary_dict_sole (text : string) (pre post : list raw_match)
  (m : raw_match) :
  Forall (fun m' => citation_number (primary_record text m')
                    <> citation_number (primary_record text m))
         (pre ++ post) ->
  In (primary_record text m)
     (dict_values (primary_dict text (pre ++ m :: post))).
Proof.
  intro H. apply Forall_app in H. destruct H as [Hpre Hpost].
  unfold primary_dict. rewrite fold_left_app. cbn [fold_left].
  set (d0 := fold_left (fun d m' => choose_best d (primary_record text m'))
                       pre []).
  assert (E0 : dict_get (citation_number (primary_record text m)) d0 = None)
    by (unfold d0; now rewrite primary_fold_other).
  set (k := citation_number (primary_record text m)) in *.
  assert (E : dict_get k
                (fold_left (fun d m' => choose_best d (primary_record text m'))
                   post (choose_best d0 (primary_record text m)))
              = Some (primary_record text m)).
  { rewrite primary_fold_other by exact Hpost. now apply choose_best_first. }
  apply dict_get_Some in E. unfold dict_values.
  apply in_map_iff. now exists (k, primary_record text m).
Qed.

Lemma parsed_record_in_output (text : string) (c : citation) :
  In c (dict_values
          (primary_dict text
             (map clean_match (raw_matches (find_references_section text))))) ->
  In c (extract_citations_directly text).
Proof.
  intro H. unfold extract_citations_directly.
  rewrite extract_unfold, sort_by_number_In. now apply gap_loop_keeps.
Qed.

Lemma sole_candidate_in_output (text : string)
  (pre post : list raw_match) (m : raw_match) :
  raw_matches (find_references_section text) = (pre ++ m :: post)%list ->
  Forall (fun m' => int_of_string (raw_number m')
                    <> int_of_string (raw_number m)) (pre ++ post) ->
  In (primary_record text (clean_match m)) (extract_citations_directly text).
Proof.
  intros E H. apply parsed_record_in_output. rewrite E, map_app. cbn [map].
  apply primary_dict_sole. rewrite <- map_app. apply Forall_map.
  eapply Forall_impl; [| exact H]. intros m' Hm'.
  now rewrite !primary_record_number.
Qed.

(** X19: on a text for which the function returns (every conversion of
    a number returns), a raw match whose number no other raw match
    carries gives the record of that number: the output holds the record
    made from it. *)
Theorem sole_candidate_gives_the_record (text : string)
  (pre post : list raw_match) (m : raw_match) :
  conversions_return text = true ->
  raw_matches (find_references_section text) = (pre ++ m :: post)%list ->
  Forall (fun m' => int_of_string (raw_number m')
                    <> int_of_string (raw_number m)) (pre ++ post) ->
  In (primary_record text (clean_match m)) (extract_citations_directly text).
Proof. intros _. apply sole_candidate_in_output. Qed.

(** X19, at a text with three raw matches, two of them for citation 1:
    the match of citation 2, between them, is the only one of its number
    and gives the record of citation 2. *)
Lemma sole_candidate_gives_the_record_witness :
  conversions_return text_three_matches = true
  /\ raw_matches (find_references_section text_three_matches)
     = [("1", "Web", "Ab", "https://a.com");
        ("2", "Internal", "Other", "http://b.org");
        ("1", "Web", "Longer title", "")]
  /\ Forall (fun m' => int_of_string (raw_number m') <> int_of_string "2")
            [("1", "Web", "Ab", "https://a.com");
             ("1", "Web", "Longer title", "")]
  /\ In (Citation 2 "Other" "http://b.org" "Internal" 1 "Vector")
        (extract_citations_directly text_three_matches).
Proof.
  assert (Hc : conversions_return text_three_matches = true)
    by (vm_compute; reflexivity).
  assert (E : raw_matches (find_references_section text_three_matches)
              = ([("1", "Web", "Ab", "https://a.com")]
                 ++ ("2", "Internal", "Other", "http://b.org")
                    :: [("1", "Web", "Longer title", "")])%list)
    by (vm_compute; reflexivity).
  assert (H : Forall (fun m' => int_of_string (raw_number m')
                                <> int_of_string "2")
                ([("1", "Web", "Ab", "https://a.com")]
                 ++ [("1", "Web", "Longer title", "")])).
  { repeat constructor; vm_compute; discriminate. }
  split; [exact Hc | split; [exact E | split; [exact H |]]].
  exact (sole_candidate_gives_the_record text_three_matches _ _ _ Hc E H).
Defined.

(* ------------------------------------------------------------------ *)
(** ** Further properties: the record of a well-written entry *)

Lemma lstrip_id (s : string) : starts_in is_space s = false -> lstrip s = s.
Proof. destruct s as [|c s]; [reflexivity |]. cbn. now intros ->. Qed.

Lemma rstrip_id (s : string) : all_chars not_ws s = true -> rstrip s = s.
Proof.
  induction s as [|c s IH]; [reflexivity |]. cbn [all_chars rstrip].
  rewrite andb_true_iff. intros [Hc Hs]. rewrite (IH Hs).
  unfold not_ws, neg in Hc. apply negb_true_iff in Hc. rewrite Hc.
  now destruct s.
Qed.

Lemma strip_id (s : string) : all_chars not_ws s = true -> strip s = s.
Proof.
  intro H. unfold strip. rewrite lstrip_id; [now apply rstrip_id |].
  destruct s as [|c s]; [reflexivity |]. cbn [all_chars] in H.
  apply andb_true_iff in H. destruct H as [Hc _]. unfold not_ws, neg in Hc.
  now apply negb_true_iff in Hc.
Qed.

Lemma sub_ws_id (repl : groups -> string) (s : string) :
  all_chars not_ws s = true -> sub Pat.ws_plus repl s = s.
Proof.
  intro H. apply sub_rel_eq; [apply ws_plus_nonempty |].
  induction s as [|c s IH]; [constructor |].
  cbn [all_chars] in H. apply andb_true_iff in H. destruct H as [Hc Hs].
  constructor; [| now apply IH].
  rewrite match_here_ws_plus. unfold not_ws, neg in Hc.
  apply negb_true_iff in Hc. now rewrite Hc.
Qed.

Lemma replace_fuel_absent (a : ascii) (new : string) : forall s f,
  all_chars (fun c => negb (Ascii.eqb a c)) s = true ->
  replace_fuel f (String a "") new s = s.
Proof.
  induction s as [|c s IH]; intros f H; destruct f as [|f]; try reflexivity.
  cbn [all_chars] in H. apply andb_true_iff in H. destruct H as [Hc Hs].
  apply negb_true_iff in Hc. cbn [replace_fuel starts_with]. rewrite Hc.
  cbn [andb]. now rewrite IH.
Qed.

Lemma replace_absent (a : ascii) (new s : string) :
  all_chars (fun c => negb (Ascii.eqb a c)) s = true ->
  replace (String a "") new s = s.
Proof. apply replace_fuel_absent. Qed.

Lemma all_chars_impl (p q : ascii -> bool) (s : string) :
  (forall c, p c = true -> q c = true) ->
  all_chars p s = true -> all_chars q s = true.
Proof.
  intro Hpq. induction s as [|c s IH]; [reflexivity |]. cbn [all_chars].
  rewrite !andb_true_iff. intros [Hc Hs]. split; [now apply Hpq | now apply IH].
Qed.

Lemma plain_not_break (a : ascii) (s : string) :
  is_space a = true -> Ascii.eqb a " " = false ->
  all_chars plain s = true ->
  all_chars (fun c => negb (Ascii.eqb a c)) s = true.
Proof.
  intros Ha Hsp. apply all_chars_impl. intros c Hc.
  destruct (Ascii.eqb a c) eqn:E; [| reflexivity].
  apply Ascii.eqb_eq in E. subst c. unfold plain in Hc.
  rewrite Ha, Hsp in Hc. discriminate.
Qed.

Lemma not_ws_not_break (a : ascii) (s : string) :
  is_space a = true ->
  all_chars not_ws s = true ->
  all_chars (fun c => negb (Ascii.eqb a c)) s = true.
Proof.
  intros Ha. apply all_chars_impl. intros c Hc.
  destruct (Ascii.eqb a c) eqn:E; [| reflexivity].
  apply Ascii.eqb_eq in E. subst c. unfold not_ws, neg in Hc.
  rewrite Ha in Hc. discriminate.
Qed.

Lemma headline_breaks_id (h : string) :
  replace CR " " (replace NL " " (collapse_ws h)) = collapse_ws h.
Proof.
  assert (H := collapse_ws_plain h). unfold CR, NL.
  rewrite (replace_absent nl) by (now apply plain_not_break).
  now rewrite (replace_absent cr) by (now apply plain_not_break).
Qed.

Lemma link_clean_id (u : string) :
  u <> "" -> all_chars not_ws u = true ->
  replace CR "" (replace NL "" (if nonempty u then remove_ws (strip u) else ""))
  = u.
Proof.
  intros Hne H. destruct u as [|c u]; [congruence |]. cbn [nonempty].
  unfold remove_ws. rewrite strip_id, sub_ws_id by exact H. unfold CR, NL.
  rewrite (replace_absent nl) by (now apply not_ws_not_break).
  now rewrite (replace_absent cr) by (now apply not_ws_not_break).
Qed.

Lemma url_shaped_split (u : string) :
  url_shaped u = true ->
  exists c body, u = "http://" ++ String c body
                 \/ u = "https://" ++ String c body.
Proof.
  unfold url_shaped. rewrite orb_true_iff, !andb_true_iff, !Nat.ltb_lt.
  intros [[H L] | [H L]]; apply starts_with_inv in H.
  - destruct (drop (String.length "http://") u) as [|c body] eqn:E.
    + rewrite H in L. cbn in L. lia.
    + exists c, body. now left.
  - destruct (drop (String.length "https://") u) as [|c body] eqn:E.
    + rewrite H in L. cbn in L. lia.
    + exists c, body. now right.
Qed.

Lemma drop_while_all (p : ascii -> bool) (s : string) :
  all_chars p s = true -> drop_while p s = "".
Proof.
  intro H. rewrite <- (append_empty_r s). now apply drop_while_app.
Qed.

Lemma consumed_all (s : string) : consumed s "" = s.
Proof. rewrite <- (append_empty_r s) at 1. apply consumed_app. Qed.

(** The URL pattern takes a URL without whitespace as a whole. *)
Lemma match_here_url_group (u : string) :
  url_shaped u = true -> all_chars not_ws u = true ->
  match_here Pat.url_group u = Some ([(1, u)]%nat, "").
Proof.
  intros Hs Hall. destruct (url_shaped_split u Hs) as [c [body [E | E]]];
    subst u; unfold match_here, Pat.url_group, url_re, Plus;
    cbn [seqs rmatch]; rewrite !rmatch_lit;
    cbn [starts_with append Ascii.eqb Bool.eqb andb String.length drop];
    rewrite ?rmatch_lit;
    cbn [starts_with append Ascii.eqb Bool.eqb andb String.length drop];
    cbn [rmatch];
    assert (Hb : all_chars not_ws (String c body) = true)
      by (rewrite all_chars_app in Hall; apply andb_true_iff in Hall;
          apply Hall);
    cbn [all_chars] in Hb; apply andb_true_iff in Hb; destruct Hb as [Hc Hb];
    rewrite Hc.
  - rewrite (star_greedy_max _ not_ws _
               ([(1, "http://" ++ String c body)]%nat, "") body);
      [reflexivity |].
    now rewrite (drop_while_all _ _ Hb), consumed_all.
  - rewrite (star_greedy_max _ not_ws _
               ([(1, "https://" ++ String c body)]%nat, "") body);
      [reflexivity |].
    now rewrite (drop_while_all _ _ Hb), consumed_all.
Qed.

Lemma search_at_start (r : regex) (s : string) (g : groups) (rest : string) :
  match_here r s = Some (g, rest) ->
  search r s = Some (Found "" (consumed s rest) g rest).
Proof. intro H. unfold search. destruct s; cbn [search_acc]; now rewrite H. Qed.

Lemma clean_match_entry (e : entry) :
  well_formed e = true -> clean_match (entry_fields e) = entry_fields e.
Proof.
  intro Hwf. apply well_formed_parts in Hwf.
  destruct Hwf as [_ [_ [_ [Hu1 [Hu2 Hg]]]]].
  unfold entry_fields, clean_match, remove_ws.
  rewrite strip_id, sub_ws_id by exact Hu2. rewrite Hg.
  rewrite (search_at_start _ _ _ _ (match_here_url_group _ Hu1 Hu2)).
  reflexivity.
Qed.

Lemma primary_record_entry (text : string) (e : entry) :
  well_formed e = true ->
  primary_record text (entry_fields e) = entry_record text e.
Proof.
  intro Hwf. apply well_formed_parts in Hwf.
  destruct Hwf as [_ [_ [_ [Hu1 [Hu2 _]]]]].
  assert (Hne := url_shaped_nonempty _ Hu1).
  unfold entry_fields, primary_record, entry_record.
  rewrite int_of_str_of_int, headline_breaks_id, link_clean_id by assumption.
  destruct (entry_url e) as [|c u]; [congruence |]. reflexivity.
Qed.

(** The raw matches are those of the citation pattern, with at most one
    more, numbered 15, and that one only when none is written 15. *)
Lemma raw_matches_shape (refs : string) :
  raw_matches refs = findall4 Pat.citation_pattern refs
  \/ (citation_15_found (findall4 Pat.citation_pattern refs) = false
      /\ exists tag headline url,
           raw_matches refs
           = (findall4 Pat.citation_pattern refs
              ++ [("15", tag, headline, url)])%list).
Proof.
  unfold raw_matches.
  destruct (citation_15_found (findall4 Pat.citation_pattern refs)) eqn:E;
    cbn [negb]; [now left |].
  destruct (findall3 Pat.test_pattern refs) as [|[[t h] u] l]; [now left |].
  right. split; [reflexivity |]. now exists t, h, u.
Qed.

Lemma citation_15_found_entry (es : list entry) (e : entry) :
  In e es -> entry_number e = 15%N ->
  citation_15_found (map entry_fields es) = true.
Proof.
  intros Hin Hn. unfold citation_15_found. apply existsb_exists.
  exists (entry_fields e). split; [now apply in_map |].
  unfold entry_fields, raw_number. rewrite Hn. reflexivity.
Qed.

(** X20: on a text for which the function returns (every conversion of
    a number returns), every entry of a well-written reference list with
    pairwise distinct numbers gets its record: the number, the headline
    with its whitespace squeezed, the URL as it is, the origin read off
    the tag, the occurrences counted in the whole text, and the category
    of the URL for an Internal entry, N/A otherwise. *)
Theorem well_written_entries_get_their_records (text : string)
  (es : list entry) :
  conversions_return text = true ->
  find_references_section text = join_lines (map render es) ->
  Forall (fun e => well_formed e = true) es ->
  NoDup (map entry_number es) ->
  Forall (fun e => In (entry_record text e) (extract_citations_directly text))
         es.
Proof.
  intros _ Eref Hwf Hnd. apply Forall_forall. intros e He.
  assert (Hwe : well_formed e = true)
    by (rewrite Forall_forall in Hwf; now apply Hwf).
  destruct (in_split e es He) as [pre [post Ees]].
  assert (Hothers : Forall (fun e' => entry_number e' <> entry_number e)
                           (pre ++ post)).
  { rewrite Ees, map_app in Hnd. cbn [map] in Hnd.
    apply NoDup_remove_2 in Hnd. apply Forall_forall. intros e' He' E.
    apply Hnd. rewrite <- map_app, <- E. now apply in_map. }
  rewrite <- (primary_record_entry text e Hwe),
          <- (clean_match_entry e Hwe).
  assert (E4 : findall4 Pat.citation_pattern (find_references_section text)
               = (map entry_fields pre ++ entry_fields e
                  :: map entry_fields post)%list).
  { rewrite Eref, (findall4_entries es Hwf), Ees.
    now rewrite map_app. }
  assert (Hnum : forall e', int_of_string (raw_number (entry_fields e'))
                            = entry_number e')
    by (intro e'; apply int_of_str_of_int).
  assert (Hfields : Forall (fun m' => int_of_string (raw_number m')
                              <> int_of_string (raw_number (entry_fields e)))
                      (map entry_fields pre ++ map entry_fields post)).
  { rewrite <- map_app. apply Forall_map.
    eapply Forall_impl; [| exact Hothers]. intros e' Hne.
    now rewrite !Hnum. }
  destruct (raw_matches_shape (find_references_section text))
    as [E | [Hnf [t [h [u E]]]]].
  - apply (sole_candidate_in_output text (map entry_fields pre)
             (map entry_fields post)); [now rewrite E, E4 | exact Hfields].
  - apply (sole_candidate_in_output text (map entry_fields pre)
             (map entry_fields post ++ [("15", t, h, u)])).
    + rewrite E, E4, <- app_assoc. reflexivity.
    + rewrite app_assoc. apply Forall_app. split; [exact Hfields |].
      constructor; [| constructor]. rewrite Hnum. intro E15.
      rewrite E4 in Hnf.
      change (entry_fields e :: map entry_fields post)
        with (map entry_fields (e :: post)) in Hnf.
      rewrite <- map_app, <- Ees in Hnf.
      rewrite (citation_15_found_entry es e He (eq_sym E15)) in Hnf.
      discriminate.
Qed.

(** X20, at a text with two entries, the second one Internal with a URL
    of the SQL list. *)
Lemma well_written_entries_get_their_records_witness :
  conversions_return text_two_entries = true
  /\ find_references_section text_two_entries
     = join_lines (map render entries_two)
  /\ In (Citation 1 "First title" "https://a.example/x" "Web" 3 "N/A")
        (extract_citations_directly text_two_entries)
  /\ In (Citation 2 "Second one" "https://mospi.gov.in/GSVA-NSVA" "Internal"
                  2 "SQL")
        (extract_citations_directly text_two_entries).
Proof.
  assert (E : find_references_section text_two_entries
              = join_lines (map render entries_two))
    by (vm_compute; reflexivity).
  assert (Hwf : Forall (fun e => well_formed e = true) entries_two)
    by (repeat constructor).
  assert (Hnd : NoDup (map entry_number entries_two)).
  { cbn. constructor; [| constructor; [| constructor]]; cbn; intuition congruence. }
  assert (Hc : conversions_return text_two_entries = true)
    by (vm_compute; reflexivity).
  assert (H := well_written_entries_get_their_records text_two_entries
                 entries_two Hc E Hwf Hnd).
  split; [exact Hc | split; [exact E |]].
  split.
  - exact (Forall_inv H).
  - exact (Forall_inv (Forall_inv_tail H)).
Defined.

(* ------------------------------------------------------------------ *)
(** ** Further properties: a reference list numbered without gaps *)

Lemma render_split (e : entry) (rest : string) :
  render e ++ rest
  = String "[" (entry_head_text e ++ String "[" (entry_tail_text e ++ rest)).
Proof.
  rewrite render_app. unfold entry_head_text, entry_tail_text.
  rewrite ?append_assoc. cbn [append]. rewrite ?append_assoc. cbn [append].
  rewrite ?append_assoc. cbn [append]. reflexivity.
Qed.

Lemma decimal_not_bracket (s : string) :
  all_chars is_decimal s = true -> all_chars (neg (chr "[")) s = true.
Proof.
  apply all_chars_impl. intros c Hc. unfold neg, chr.
  destruct (Ascii.eqb "[" c) eqn:E; [| reflexivity].
  apply Ascii.eqb_eq in E. subst c. discriminate Hc.
Qed.

Lemma plainly_written_parts (e : entry) :
  plainly_written e = true ->
  well_formed e = true
  /\ all_chars (neg (chr "[")) (entry_head_text e) = true
  /\ all_chars (neg (chr "[")) (entry_tail_text e) = true
  /\ starts_in is_decimal (entry_tag e) = false.
Proof.
  unfold plainly_written. rewrite !andb_true_iff, negb_true_iff.
  intros [[[[Hwf Ht] Hh] Hu] Hd]. split; [exact Hwf |].
  split; [| split; [| exact Hd]].
  - unfold entry_head_text. rewrite all_chars_app, andb_true_iff. split.
    + apply decimal_not_bracket. apply str_of_int_run.
    + reflexivity.
  - unfold entry_tail_text. rewrite !all_chars_app, Ht, Hh, Hu. reflexivity.
Qed.

Section FirstBracket.
Variable r : regex.
Hypothesis Hfirst : forall c s,
  Ascii.eqb "[" c = false -> match_here r (String c s) = None.

(** A stretch without an opening bracket holds no match. *)
Lemma matches_rel_skip (a b : string) (l : list groups) :
  all_chars (neg (chr "[")) a = true ->
  matches_rel r b l -> matches_rel r (a ++ b) l.
Proof.
  intros Ha Hb. induction a as [|c a IH]; [exact Hb |].
  cbn [all_chars] in Ha. apply andb_true_iff in Ha. destruct Ha as [Hc Ha].
  cbn [append]. apply mr_skip; [| now apply IH].
  apply Hfirst. unfold neg, chr in Hc. now apply negb_true_iff in Hc.
Qed.

(** The scan of a reference list by a pattern that begins with an opening
    bracket and matches neither at the numbers nor at the tags. *)
Lemma entries_no_match (es : list entry) :
  Forall (fun e => plainly_written e = true
                   /\ forall rest,
                        match_here r (render e ++ rest) = None
                        /\ match_here r (String "[" (entry_tail_text e ++ rest))
                           = None) es ->
  matches_rel r (join_lines (map render es)) [].
Proof.
  induction 1 as [|e es [Hp Hm] _ IH]; [constructor |].
  apply plainly_written_parts in Hp. destruct Hp as [_ [Hh [Ht _]]].
  assert (Hone : forall rest, matches_rel r rest [] ->
                              matches_rel r (render e ++ rest) []).
  { intros rest Hrest. destruct (Hm rest) as [H0 H1].
    rewrite render_split in *. apply mr_skip; [exact H0 |].
    apply matches_rel_skip; [exact Hh |].
    apply mr_skip; [exact H1 |]. now apply matches_rel_skip. }
  cbn [map]. destruct es as [|e' es].
  - cbn [join_lines map]. rewrite <- (append_empty_r (render e)).
    apply Hone. constructor.
  - rewrite join_lines_cons by discriminate. apply Hone.
    cbn [NL append]. apply mr_skip; [now apply Hfirst | exact IH].
Qed.
End FirstBracket.

Lemma bracket_pattern_first (c : ascii) (s : string) :
  Ascii.eqb "[" c = false -> match_here Pat.bracket_pattern (String c s) = None.
Proof.
  intro H. rewrite match_here_bracket. cbn [expect]. now rewrite H.
Qed.

Lemma bracket_at_tag (e : entry) (rest : string) :
  starts_in is_decimal (entry_tag e) = false -> entry_tag e <> "" ->
  match_here Pat.bracket_pattern (String "[" (entry_tail_text e ++ rest)) = None.
Proof.
  intros Hd Hne. rewrite match_here_bracket. rewrite expect_cons.
  cbn [obind]. unfold entry_tail_text, run1.
  destruct (entry_tag e) as [|c t]; [congruence |].
  cbn [append take_while]. cbn [starts_in] in Hd. now rewrite Hd.
Qed.

(** The bracket pattern finds the numbers of the entries and nothing
    else. *)
Lemma entries_brackets (es : list entry) :
  Forall (fun e => plainly_written e = true) es ->
  matches_rel Pat.bracket_pattern (join_lines (map render es))
              (map (fun e => [(1, str_of_int (entry_number e))]%nat) es).
Proof.
  induction 1 as [|e es Hp _ IH]; [constructor |].
  apply plainly_written_parts in Hp. destruct Hp as [Hwf [Hh [Ht Hd]]].
  apply well_formed_parts in Hwf. destruct Hwf as [[Htne _] _].
  assert (Hone : forall rest l,
            matches_rel Pat.bracket_pattern rest l ->
            matches_rel Pat.bracket_pattern (render e ++ rest)
              ([(1, str_of_int (entry_number e))]%nat :: l)).
  { intros rest l Hrest. rewrite render_app.
    apply mr_hit with (rest := String " " (String "["
             (entry_tag e ++ String "]" (String " "
                (entry_headline e ++ String ":" (String " "
                   (entry_url e ++ rest))))))).
    - apply match_here_bracket_at. apply str_of_int_run.
    - apply mr_skip; [now apply bracket_pattern_first |].
      assert (E : String "[" (entry_tag e ++ String "]" (String " "
                    (entry_headline e ++ String ":" (String " "
                       (entry_url e ++ rest)))))
                  = String "[" (entry_tail_text e ++ rest)).
      { unfold entry_tail_text. rewrite ?append_assoc. cbn [append].
        rewrite ?append_assoc. cbn [append]. reflexivity. }
      rewrite E. apply mr_skip; [now apply bracket_at_tag |].
      apply matches_rel_skip;
        [apply bracket_pattern_first | exact Ht | exact Hrest]. }
  cbn [map]. destruct es as [|e' es].
  - cbn [join_lines map]. rewrite <- (append_empty_r (render e)).
    apply Hone. constructor.
  - rewrite join_lines_cons by discriminate. apply Hone.
    cbn [NL append]. apply mr_skip; [now apply bracket_pattern_first |].
    exact IH.
Qed.

Lemma bracket_numbers_entries (es : list entry) (x : N) :
  Forall (fun e => plainly_written e = true) es ->
  In x (bracket_numbers (join_lines (map render es))) ->
  In x (map entry_number es).
Proof.
  intros Hp. unfold bracket_numbers. rewrite set_of_list_In, in_map_iff.
  intros [ds [<- Hds]]. apply filter_In in Hds. destruct Hds as [Hds _].
  rewrite findall1_groups in Hds.
  rewrite (finditer_groups _ _ _ bracket_pattern_nonempty
             (entries_brackets es Hp)), map_map in Hds.
  apply in_map_iff in Hds. destruct Hds as [e [<- He]].
  cbn [group Nat.eqb]. rewrite int_of_str_of_int. now apply in_map.
Qed.

Lemma test_pattern_first (c : ascii) (s : string) :
  Ascii.eqb "[" c = false -> match_here Pat.test_pattern (String c s) = None.
Proof.
  intro H. unfold match_here, Pat.test_pattern. cbn [seqs].
  rewrite rmatch_seq, rmatch_lit. cbn [starts_with]. now rewrite H.
Qed.

Lemma test_pattern_nonempty : nonempty_matches Pat.test_pattern.
Proof.
  intros s g rest. unfold match_here, Pat.test_pattern. cbn [seqs].
  rewrite rmatch_seq, rmatch_lit.
  destruct (starts_with "[15]" s) eqn:E; [| discriminate].
  intro H. apply rmatch_sound in H. destruct H as [a [s' [d [Ea [H _]]]]].
  injection H as _ <-. apply starts_with_length in E.
  assert (L : String.length (drop (String.length "[15]") s)
              = String.length a + String.length s')
    by (now rewrite Ea, append_length).
  rewrite drop_length in L. cbn [String.length] in *. lia.
Qed.

Lemma starts_with_15 (ds x : string) :
  run_of is_decimal ds ->
  starts_with "15]" (ds ++ String "]" x) = true -> ds = "15".
Proof.
  intros [Hne Hall] H. destruct ds as [|c1 ds]; [congruence |].
  cbn [append starts_with] in H. apply andb_true_iff in H.
  destruct H as [H1 H]. apply Ascii.eqb_eq in H1. subst c1.
  destruct ds as [|c2 ds]; [discriminate H |].
  cbn [append starts_with] in H. apply andb_true_iff in H.
  destruct H as [H2 H]. apply Ascii.eqb_eq in H2. subst c2.
  destruct ds as [|c3 ds]; [reflexivity |].
  cbn [append starts_with] in H. apply andb_true_iff in H.
  destruct H as [H3 _]. apply Ascii.eqb_eq in H3. subst c3.
  discriminate Hall.
Qed.

Lemma test_pattern_at_number (e : entry) (rest : string) :
  entry_number e <> 15%N ->
  match_here Pat.test_pattern (render e ++ rest) = None.
Proof.
  intro Hn. unfold match_here, Pat.test_pattern. cbn [seqs].
  rewrite rmatch_seq, rmatch_lit, render_app.
  destruct (starts_with "[15]" _) eqn:E; [| reflexivity].
  exfalso. apply Hn. cbn [starts_with] in E. apply andb_true_iff in E.
  destruct E as [_ E]. apply starts_with_15 in E; [| apply str_of_int_run].
  rewrite <- (int_of_str_of_int (entry_number e)), E. reflexivity.
Qed.

Lemma test_pattern_at_tag (e : entry) (rest : string) :
  starts_in is_decimal (entry_tag e) = false -> entry_tag e <> "" ->
  match_here Pat.test_pattern (String "[" (entry_tail_text e ++ rest)) = None.
Proof.
  intros Hd Hne. unfold match_here, Pat.test_pattern. cbn [seqs].
  rewrite rmatch_seq, rmatch_lit. unfold entry_tail_text.
  destruct (entry_tag e) as [|c t]; [congruence |].
  cbn [append starts_with]. cbn [starts_in] in Hd.
  destruct (Ascii.eqb "1" c) eqn:E.
  - apply Ascii.eqb_eq in E. subst c. discriminate Hd.
  - rewrite Ascii.eqb_refl. reflexivity.
Qed.

Lemma findall3_test_entries (es : list entry) :
  Forall (fun e => plainly_written e = true) es ->
  ~ In 15%N (map entry_number es) ->
  findall3 Pat.test_pattern (join_lines (map render es)) = [].
Proof.
  intros Hp H15. unfold findall3.
  assert (M : matches_rel Pat.test_pattern (join_lines (map render es)) []).
  { apply entries_no_match; [apply test_pattern_first |].
    apply Forall_forall. intros e He. rewrite Forall_forall in Hp.
    specialize (Hp e He). split; [exact Hp |]. intro rest.
    apply plainly_written_parts in Hp. destruct Hp as [Hwf [_ [_ Hd]]].
    apply well_formed_parts in Hwf. destruct Hwf as [[Htne _] _].
    split; [| now apply test_pattern_at_tag].
    apply test_pattern_at_number. intro E. apply H15. rewrite <- E.
    now apply in_map. }
  apply (finditer_groups _ _ _ test_pattern_nonempty) in M.
  destruct (finditer Pat.test_pattern (join_lines (map render es)));
    [reflexivity | discriminate M].
Qed.

Lemma raw_matches_entries (es : list entry) :
  Forall (fun e => plainly_written e = true) es ->
  raw_matches (join_lines (map render es)) = map entry_fields es.
Proof.
  intro Hp.
  assert (Hwf : Forall (fun e => well_formed e = true) es).
  { eapply Forall_impl; [| exact Hp]. intros e He.
    now apply plainly_written_parts in He. }
  unfold raw_matches. rewrite (findall4_entries es Hwf).
  destruct (citation_15_found (map entry_fields es)) eqn:E; [reflexivity |].
  cbn [negb]. rewrite findall3_test_entries; [reflexivity | exact Hp |].
  intro H. apply in_map_iff in H. destruct H as [e [Hn He]].
  now rewrite (citation_15_found_entry es e He Hn) in E.
Qed.

Lemma dict_set_absent (k : N) (v : citation) (d : dict) :
  dict_get k d = None -> dict_set k v d = (d ++ [(k, v)])%list.
Proof.
  induction d as [|[k' v'] d IH]; cbn [dict_get dict_set app]; [reflexivity |].
  destruct (N.eqb k k'); [discriminate |]. intro H. now rewrite IH.
Qed.

Lemma dict_get_app_other (k k' : N) (v : citation) (d : dict) :
  k <> k' -> dict_get k (d ++ [(k', v)])%list = dict_get k d.
Proof.
  intro Hne. induction d as [|[k2 v2] d IH]; cbn [app dict_get].
  - apply N.eqb_neq in Hne. now rewrite Hne.
  - now rewrite IH.
Qed.

(** With one candidate per number the dict holds the records in the
    order of the candidates. *)
Lemma primary_fold_distinct (text : string) (ms : list raw_match) :
  NoDup (map (fun m => citation_number (primary_record text m)) ms) ->
  forall d,
    (forall m, In m ms ->
               dict_get (citation_number (primary_record text m)) d = None) ->
    fold_left (fun d m => choose_best d (primary_record text m)) ms d
    = (d ++ map (fun m => (citation_number (primary_record text m),
                           primary_record text m)) ms)%list.
Proof.
  induction ms as [|m ms IH]; intros Hnd d Hd; cbn [fold_left map].
  - now rewrite app_nil_r.
  - cbn [map] in Hnd. apply NoDup_cons_iff in Hnd. destruct Hnd as [Hm Hnd].
    assert (E : choose_best d (primary_record text m)
                = (d ++ [(citation_number (primary_record text m),
                          primary_record text m)])%list).
    { unfold choose_best. rewrite (Hd m) by now left.
      apply dict_set_absent. apply Hd. now left. }
    rewrite E, IH; [now rewrite <- app_assoc | exact Hnd |].
    intros m' Hm'. rewrite dict_get_app_other; [apply Hd; now right |].
    intro Eq. apply Hm. rewrite <- Eq.
    apply (in_map (fun m => citation_number (primary_record text m))).
    exact Hm'.
Qed.

Lemma gap_loop_noop (text refs : string) (l : list N) (seen : list N)
  (cs : list citation) :
  (forall n, In n l -> In n seen) ->
  gap_loop text refs l (seen, cs) = (seen, cs).
Proof.
  unfold gap_loop. induction l as [|n l IH]; intro H; [reflexivity |].
  cbn [fold_left]. unfold gap_step at 2.
  assert (Hm : mem n seen = true) by (apply mem_In; apply H; now left).
  rewrite Hm. cbn [negb]. apply IH. intros n' Hn'. apply H. now right.
Qed.

Lemma sort_by_number_sorted_id (l : list citation) :
  StronglySorted N.lt (map citation_number l) -> sort_by_number l = l.
Proof.
  induction l as [|x l IH]; [reflexivity |]. cbn [map]. intro H.
  inversion H as [| a b Hs Hall]; subst. unfold sort_by_number in *.
  cbn [fold_right]. rewrite (IH Hs). destruct l as [|y l]; [reflexivity |].
  cbn [insert_by_number]. cbn [map] in Hall. apply Forall_inv in Hall.
  assert (E : (citation_number x <=? citation_number y)%N = true)
    by (apply N.leb_le; lia).
  now rewrite E.
Qed.

Lemma cleaned_entries (es : list entry) :
  Forall (fun e => well_formed e = true) es ->
  map clean_match (map entry_fields es) = map entry_fields es.
Proof.
  intro H. rewrite map_map. apply map_ext_in. intros e He.
  rewrite Forall_forall in H. now apply clean_match_entry, H.
Qed.

Lemma primary_dict_entries (text : string) (es : list entry) :
  Forall (fun e => well_formed e = true) es ->
  NoDup (map entry_number es) ->
  dict_values (primary_dict text (map entry_fields es))
  = map (entry_record text) es.
Proof.
  intros Hwf Hnd. unfold primary_dict.
  assert (Hrec : forall e, In e es ->
            primary_record text (entry_fields e) = entry_record text e).
  { intros e He. rewrite Forall_forall in Hwf.
    now apply primary_record_entry, Hwf. }
  rewrite primary_fold_distinct.
  - cbn [app]. unfold dict_values. rewrite !map_map. cbn [snd].
    apply map_ext_in. exact Hrec.
  - rewrite map_map.
    rewrite (map_ext_in _ entry_number); [exact Hnd |].
    intros e He. now rewrite (Hrec e He).
  - reflexivity.
Qed.

Lemma max_of_subset (a b : list N) :
  (forall x, In x a -> In x b) -> (max_of a <= max_of b)%N.
Proof.
  intro H. unfold max_of at 1.
  destruct (max_of_attained_acc a 0) as [E | E].
  - rewrite E. lia.
  - apply max_of_ge. now apply H.
Qed.

Lemma list_without_gaps_exact (text : string) (es : list entry) :
  find_references_section text = join_lines (map render es) ->
  Forall (fun e => plainly_written e = true) es ->
  NoDup (map entry_number es) ->
  (forall n, (1 <= n <= max_of (map entry_number es))%N ->
             In n (map entry_number es)) ->
  extract_citations_directly text = sort_by_number (map (entry_record text) es).
Proof.
  intros Eref Hp Hnd Hcov.
  assert (Hwf : Forall (fun e => well_formed e = true) es).
  { eapply Forall_impl; [| exact Hp]. intros e He.
    now apply plainly_written_parts in He. }
  unfold extract_citations_directly. rewrite extract_unfold. rewrite Eref.
  rewrite (raw_matches_entries es Hp), (cleaned_entries es Hwf).
  rewrite (primary_dict_entries text es Hwf Hnd).
  assert (Enum : map citation_number (map (entry_record text) es)
                 = map entry_number es)
    by (rewrite map_map; reflexivity).
  rewrite Enum. rewrite gap_loop_noop; [reflexivity |].
  intros n Hn. rewrite set_of_list_In.
  apply numbers_needed_In in Hn. destruct Hn as [Hn | [Hn Hseen]].
  - now apply bracket_numbers_entries.
  - exfalso. apply Hseen. rewrite set_of_list_In. apply Hcov.
    split; [lia |]. eapply N.le_trans; [apply Hn |].
    apply max_of_subset. intros x Hx. now apply bracket_numbers_entries.
Qed.

(** X21: a reference list of plainly written entries, numbered without
    repetition and without a gap from 1 to the largest number, is
    extracted exactly: the output is the records of the entries sorted by
    number, with no placeholder and nothing else; when the entries come
    in ascending order it is their records in that order. *)
Theorem list_without_gaps_is_extracted_exactly (text : string)
  (es : list entry) :
  find_references_section text = join_lines (map render es) ->
  Forall (fun e => plainly_written e = true) es ->
  NoDup (map entry_number es) ->
  (forall n, (1 <= n <= max_of (map entry_number es))%N ->
             In n (map entry_number es)) ->
  extract_citations_directly text = sort_by_number (map (entry_record text) es)
  /\ (StronglySorted N.lt (map entry_number es) ->
      extract_citations_directly text = map (entry_record text) es).
Proof.
  intros Eref Hp Hnd Hcov.
  assert (E := list_without_gaps_exact text es Eref Hp Hnd Hcov).
  split; [exact E |]. intro Hs. rewrite E. apply sort_by_number_sorted_id.
  rewrite map_map. exact Hs.
Qed.

(** X21, at a text with two entries numbered 1 and 2. *)
Lemma list_without_gaps_is_extracted_exactly_witness :
  find_references_section text_two_entries
  = join_lines (map render entries_two)
  /\ extract_citations_directly text_two_entries
     = [Citation 1 "First title" "https://a.example/x" "Web" 3 "N/A";
        Citation 2 "Second one" "https://mospi.gov.in/GSVA-NSVA" "Internal"
                 2 "SQL"].
Proof.
  assert (E : find_references_section text_two_entries
              = join_lines (map render entries_two))
    by (vm_compute; reflexivity).
  assert (Hp : Forall (fun e => plainly_written e = true) entries_two)
    by (repeat constructor).
  assert (Hnd : NoDup (map entry_number entries_two)).
  { cbn. constructor; [| constructor; [| constructor]]; cbn; intuition congruence. }
  assert (Hcov : forall n, (1 <= n <= max_of (map entry_number entries_two))%N ->
                           In n (map entry_number entries_two)).
  { intros n Hn. change (max_of (map entry_number entries_two)) with 2%N in Hn.
    cbn. destruct (N.eq_dec n 1) as [-> | H1]; [now left |].
    right. left. lia. }
  split; [exact E |].
  exact (proj1 (list_without_gaps_is_extracted_exactly text_two_entries
                  entries_two E Hp Hnd Hcov)).
Defined.

(* ------------------------------------------------------------------ *)
(** ** Further properties: the heading of the reference section *)

Lemma rmatch_lit_i (tok : string) : forall (A : Type) s g
  (k : string -> groups -> option A),
  rmatch (lit_i tok) s g k
  = if starts_with_i tok s then k (drop (String.length tok) s) g else None.
Proof.
  induction tok as [|a tok IH]; intros A s g k; [reflexivity |].
  destruct tok as [|b tok].
  - cbn [lit_i rmatch starts_with_i String.length]. destruct s as [|c s];
      [reflexivity |]. destruct (chr_i a c); reflexivity.
  - change (lit_i (String a (String b tok)))
      with (Seq (Chr (chr_i a)) (lit_i (String b tok))).
    cbn [rmatch]. destruct s as [|c s]; [reflexivity |].
    cbn [starts_with_i String.length drop]. destruct (chr_i a c);
      [| reflexivity].
    rewrite IH. reflexivity.
Qed.

Lemma heading_rest (s : string) :
  star_greedy is_space s k_rest
  = option_map (fun r => ([(1, r)]%nat, "")) (after_last_nl s).
Proof.
  induction s as [|c s IH]; cbn [star_greedy after_last_nl]; [reflexivity |].
  destruct (is_space c) eqn:Ec.
  - rewrite IH. destruct (after_last_nl s) as [r|]; cbn [option_map];
      [reflexivity |].
    cbn [k_rest]. unfold chr. rewrite (Ascii.eqb_sym nl c).
    now destruct (Ascii.eqb c nl).
  - cbn [k_rest]. now rewrite (not_space_not_nl c Ec).
Qed.

Lemma match_here_heading (word s : string) :
  match_here (Pat.heading word) s
  = if starts_with_i word s
    then option_map (fun r => ([(1, r)]%nat, ""))
                    (after_last_nl (drop (String.length word) s))
    else None.
Proof.
  unfold match_here, Pat.heading. cbn [seqs].
  rewrite rmatch_seq, rmatch_lit_i.
  destruct (starts_with_i word s); [| reflexivity].
  rewrite <- heading_rest. unfold ws_star. cbn [rmatch].
  apply star_greedy_ext. intros [|c t]; [reflexivity |].
  cbn [k_rest]. destruct (chr nl c); [| reflexivity].
  apply star_greedy_max. rewrite drop_while_all, consumed_all; [reflexivity |].
  clear. induction t as [|d t IH]; [reflexivity | exact IH].
Qed.

(** The two heading patterns are one: the letter case is ignored. *)
Lemma match_here_heading_upper (s : string) :
  match_here (Pat.heading "REFERENCES") s
  = match_here (Pat.heading "References") s.
Proof. rewrite !match_here_heading. reflexivity. Qed.

Lemma match_here_heading_here (s : string) :
  match_here (Pat.heading "References") s
  = if heading_here s
    then option_map (fun r => ([(1, r)]%nat, ""))
           (after_last_nl (drop (String.length "References") s))
    else None.
Proof.
  rewrite match_here_heading. unfold heading_here.
  destruct (starts_with_i "References" s); [| reflexivity].
  cbn [andb]. now destruct (after_last_nl _).
Qed.

Lemma search_acc_ext (r1 r2 : regex) :
  (forall s, match_here r1 s = match_here r2 s) ->
  forall s skipped, search_acc r1 skipped s = search_acc r2 skipped s.
Proof.
  intro H. induction s as [|c s IH]; intro skipped; cbn [search_acc];
    rewrite H; [reflexivity |].
  destruct (match_here r2 (String c s)) as [[g rest]|]; [reflexivity |].
  apply IH.
Qed.

(** Nothing is found exactly when the pattern matches at no place. *)
Lemma search_acc_None (r : regex) (s : string) : forall skipped,
  search_acc r skipped s = None
  <-> forall a b, s = a ++ b -> match_here r b = None.
Proof.
  induction s as [|c s IH]; intro skipped; cbn [search_acc].
  - destruct (match_here r "") as [[g rest]|] eqn:E.
    + split; [discriminate |]. intro H. specialize (H "" "" eq_refl).
      congruence.
    + split; [| reflexivity]. intros _ a b Hab.
      destruct a; [| discriminate]. cbn in Hab. now subst b.
  - destruct (match_here r (String c s)) as [[g rest]|] eqn:E.
    + split; [discriminate |]. intro H.
      specialize (H "" (String c s) eq_refl). congruence.
    + rewrite IH. split.
      * intros H a b Hab. destruct a as [|d a].
        -- cbn in Hab. now subst b.
        -- cbn [append] in Hab. injection Hab as _ Hab. now apply (H a b).
      * intros H a b Hab. apply (H (String c a) b). cbn [append].
        now rewrite Hab.
Qed.

(** The leftmost place at which the pattern matches is the one found. *)
Lemma search_acc_leftmost (r : regex) (b : string) (g : groups)
  (rest : string) :
  match_here r b = Some (g, rest) ->
  forall a skipped,
    (forall a1 a2, a = a1 ++ a2 -> a2 <> "" ->
                   match_here r (a2 ++ b) = None) ->
    search_acc r skipped (a ++ b)
    = Some (Found (skipped ++ a) (consumed b rest) g rest).
Proof.
  intro Hb. induction a as [|c a IH]; intros skipped Ha.
  - cbn [append]. rewrite append_empty_r.
    destruct b; cbn [search_acc]; now rewrite Hb.
  - cbn [append search_acc].
    assert (E0 : match_here r (String c (a ++ b)) = None)
      by (apply (Ha "" (String c a)); [reflexivity | discriminate]).
    rewrite E0, IH.
    + rewrite append_assoc. reflexivity.
    + intros a1 a2 E Hne. apply (Ha (String c a1) a2); [| exact Hne].
      cbn [append]. now rewrite E.
Qed.

Lemma after_last_nl_split (s r : string) :
  after_last_nl s = Some r ->
  exists w, s = w ++ r /\ all_chars is_space w = true.
Proof.
  revert r. induction s as [|c s IH]; intro r; cbn [after_last_nl];
    [discriminate |].
  destruct (is_space c) eqn:Ec; [| discriminate].
  destruct (after_last_nl s) as [r'|].
  - intros [= <-]. destruct (IH r' eq_refl) as [w [-> Hw]].
    exists (String c w). cbn [append all_chars]. now rewrite Ec, Hw.
  - destruct (Ascii.eqb c nl); [| discriminate]. intros [= <-].
    exists (String c ""). cbn [append all_chars]. now rewrite Ec.
Qed.

Lemma lstrip_ws_app (w s : string) :
  all_chars is_space w = true -> lstrip (w ++ s) = lstrip s.
Proof.
  induction w as [|c w IH]; intro H; [reflexivity |].
  cbn [all_chars] in H. apply andb_true_iff in H. destruct H as [Hc Hw].
  cbn [append lstrip]. rewrite Hc. now apply IH.
Qed.

Lemma strip_after_last_nl (s r : string) :
  after_last_nl s = Some r -> strip r = strip s.
Proof.
  intro H. apply after_last_nl_split in H. destruct H as [w [-> Hw]].
  unfold strip. now rewrite lstrip_ws_app.
Qed.

Lemma first_heading_search (text : string) :
  first_heading Pat.references_patterns text
  = option_map (fun m => strip (group 1 (grps m)))
               (search (Pat.heading "References") text).
Proof.
  unfold Pat.references_patterns. cbn [first_heading].
  destruct (search (Pat.heading "References") text) as [m|] eqn:E;
    [reflexivity |].
  unfold search in *.
  rewrite (search_acc_ext _ _ match_here_heading_upper), E. reflexivity.
Qed.

Lemma heading_found (a s : string) :
  heading_here s = true ->
  (forall a1 a2, a = a1 ++ a2 -> a2 <> "" -> heading_here (a2 ++ s) = false) ->
  first_heading Pat.references_patterns (a ++ s)
  = Some (strip (drop (String.length "References") s)).
Proof.
  intros Hs Ha. rewrite first_heading_search. unfold search.
  assert (Hm := match_here_heading_here s). rewrite Hs in Hm.
  destruct (after_last_nl (drop (String.length "References") s)) as [r|] eqn:Er.
  - cbn [option_map] in Hm.
    rewrite (search_acc_leftmost _ _ _ _ Hm).
    + cbn [option_map grps group Nat.eqb].
      now rewrite (strip_after_last_nl _ _ Er).
    + intros a1 a2 E Hne. rewrite match_here_heading_here.
      now rewrite (Ha a1 a2 E Hne).
  - unfold heading_here in Hs. rewrite Er in Hs.
    rewrite andb_false_r in Hs. discriminate.
Qed.

(** X22: the heading of the reference section is the first place of the
    text at which the word References stands, in any letter case and
    anywhere in a line, followed by whitespace that holds a newline; the
    section returned is everything after the word, stripped. *)
Theorem heading_decides_the_section (a s : string) :
  heading_here s = true ->
  (forall a1 a2, a = a1 ++ a2 -> a2 <> "" -> heading_here (a2 ++ s) = false) ->
  find_references_section (a ++ s)
  = strip (drop (String.length "References") s).
Proof.
  intros Hs Ha. unfold find_references_section.
  now rewrite (heading_found a s Hs Ha).
Qed.

(** X22, at a text whose heading is written in small letters at the end
    of a sentence. *)
Lemma heading_decides_the_section_witness :
  heading_here ("references " ++ NL ++ NL ++ " [1] [Web] T: http://x.y ")
  = true
  /\ find_references_section
       ("As in the " ++ "references " ++ NL ++ NL ++ " [1] [Web] T: http://x.y ")
     = "[1] [Web] T: http://x.y".
Proof.
  assert (H : heading_here
                ("references " ++ NL ++ NL ++ " [1] [Web] T: http://x.y ")
              = true) by (vm_compute; reflexivity).
  split; [exact H |].
  apply (heading_decides_the_section "As in the " _ H).
  intros a1 a2 E Hne.
  repeat (destruct a1 as [|? a1];
          [cbn [append] in E; subst a2; vm_compute; reflexivity |
           cbn [append] in E; injection E as _ E]).
  destruct a1; cbn in E; [subst a2; congruence | discriminate E].
Defined.

(** X23: the heading patterns find nothing exactly when the word
    References, in any letter case, is nowhere followed by whitespace
    that holds a newline; the second pattern, written in capitals, finds
    something exactly when the first does, so it never decides. *)
Theorem heading_patterns_fail_together (text : string) :
  (search (Pat.heading "References") text = None
   <-> forall a s, text = a ++ s -> heading_here s = false)
  /\ (search (Pat.heading "REFERENCES") text = None
      <-> search (Pat.heading "References") text = None).
Proof.
  split.
  - unfold search. rewrite search_acc_None. split; intros H a s E.
    + specialize (H a s E). rewrite match_here_heading_here in H.
      destruct (heading_here s) eqn:Eh; [| reflexivity].
      unfold heading_here in Eh. apply andb_true_iff in Eh.
      destruct Eh as [_ Eh].
      destruct (after_last_nl _); [discriminate H | discriminate Eh].
    + rewrite match_here_heading_here. now rewrite (H a s E).
  - unfold search.
    now rewrite (search_acc_ext _ _ match_here_heading_upper).
Qed.

(* ------------------------------------------------------------------ *)
(** ** Further properties: an entry without a URL *)

Lemma next_entry_or_end_averse_nl :
  averse not_nl (fun s g => rmatch next_entry_or_end s g final).
Proof.
  intros c s g Hc. unfold next_entry_or_end. cbn [rmatch lit].
  unfold chr. unfold not_nl in Hc. apply negb_true_iff in Hc.
  rewrite Ascii.eqb_sym in Hc. now rewrite Hc.
Qed.

(** The citation pattern at an entry whose colon is followed by
    whitespace and then by anything without a newline: the fourth group
    takes all of it, up to the next entry or the end. *)
Lemma match_here_entry_tail (ds tag h w run rest : string) :
  run_of is_decimal ds ->
  run_of (neg (chr "]")) tag ->
  run_of (neg (chr ":")) h -> starts_in is_space h = false ->
  all_chars is_space w = true ->
  starts_in is_space (run ++ rest) = false ->
  all_chars not_nl run = true ->
  entry_end rest ->
  match_here Pat.citation_pattern
    (String "[" (ds ++ String "]" (String " " (String "["
       (tag ++ String "]" (String " "
          (h ++ String ":" (w ++ run ++ rest))))))))
  = Some ([(4, run); (3, h); (2, tag); (1, ds)]%nat, rest).
Proof.
  intros Hds Htag Hh Hh0 Hw Hr0 Hrun Hend.
  unfold match_here, Pat.citation_pattern, tag_re. cbn [seqs lit].
  lit_char.
  next_part. apply rmatch_grp_run; [exact Hds | reflexivity |].
  lit_char.
  next_part. apply (rmatch_ws_run _ " "); [reflexivity | reflexivity |].
  lit_char.
  next_part. apply rmatch_grp_run; [exact Htag | reflexivity |].
  lit_char.
  next_part. apply (rmatch_ws_run _ " "); [reflexivity | |].
  { destruct h as [|c h]; [destruct Hh; congruence | exact Hh0]. }
  next_part. apply rmatch_grp_lazy_plus; [exact Hh | apply colon_averse |].
  lit_char.
  next_part. apply rmatch_ws_run; [exact Hw | exact Hr0 |].
  next_part. apply (rmatch_grp_lazy_star _ _ not_nl);
    [exact Hrun | apply next_entry_or_end_averse_nl |].
  now apply next_entry_or_end_at.
Qed.

Lemma not_ws_not_nl (s : string) :
  all_chars not_ws s = true -> all_chars not_nl s = true.
Proof.
  apply all_chars_impl. intros c Hc. unfold not_nl.
  destruct (Ascii.eqb c nl) eqn:E; [| reflexivity].
  apply Ascii.eqb_eq in E. subst c. discriminate Hc.
Qed.

Lemma render_not_nl (e : entry) :
  well_formed e = true ->
  all_chars not_nl (entry_tag e) = true ->
  all_chars not_nl (entry_headline e) = true ->
  all_chars not_nl (render e) = true.
Proof.
  intros Hwf Ht Hh. apply well_formed_parts in Hwf.
  destruct Hwf as [_ [_ [_ [_ [Hu _]]]]].
  unfold render. rewrite !all_chars_app, Ht, Hh, (not_ws_not_nl _ Hu).
  assert (Hd : all_chars not_nl (str_of_int (entry_number e)) = true).
  { eapply all_chars_impl; [| apply str_of_int_run].
    intros c Hc. unfold not_nl. destruct (Ascii.eqb c nl) eqn:E;
      [| reflexivity].
    apply Ascii.eqb_eq in E. subst c. discriminate Hc. }
  rewrite Hd. reflexivity.
Qed.

Lemma head_formed_parts (e : entry) :
  head_formed e = true ->
  run_of (neg (chr "]")) (entry_tag e)
  /\ run_of (neg (chr ":")) (entry_headline e)
  /\ starts_in is_space (entry_headline e) = false.
Proof.
  unfold head_formed. rewrite !andb_true_iff, !negb_true_iff.
  intros [[[[H1 H2] H3] H4] H5]. repeat split; try assumption.
  - intros E. rewrite E in H1. discriminate.
  - intros E. rewrite E in H3. discriminate.
Qed.

Lemma swallowed_entry (e1 e2 : entry) :
  head_formed e1 = true -> well_formed e2 = true ->
  all_chars not_nl (entry_tag e2) = true ->
  all_chars not_nl (entry_headline e2) = true ->
  match_here Pat.citation_pattern (render_without_url e1 ++ NL ++ render e2)
  = Some ([(4, render e2); (3, entry_headline e1); (2, entry_tag e1);
           (1, str_of_int (entry_number e1))]%nat, "").
Proof.
  intros H1 H2 Ht Hh. apply head_formed_parts in H1.
  destruct H1 as [Htag [Hhead Hh0]].
  assert (E : render_without_url e1 ++ NL ++ render e2
              = String "[" (str_of_int (entry_number e1) ++ String "]"
                  (String " " (String "[" (entry_tag e1 ++ String "]"
                     (String " " (entry_headline e1 ++ String ":"
                        (NL ++ render e2 ++ "")))))))).
  { unfold render_without_url. rewrite append_empty_r.
    rewrite ?append_assoc. cbn [append]. rewrite ?append_assoc.
    cbn [append]. rewrite ?append_assoc. cbn [append]. reflexivity. }
  rewrite E. apply match_here_entry_tail; try assumption.
  - apply str_of_int_run.
  - reflexivity.
  - rewrite append_empty_r. reflexivity.
  - now apply render_not_nl.
  - now left.
Qed.

Lemma swallowed_entry_findall (e1 e2 : entry) :
  head_formed e1 = true -> well_formed e2 = true ->
  all_chars not_nl (entry_tag e2) = true ->
  all_chars not_nl (entry_headline e2) = true ->
  findall4 Pat.citation_pattern (render_without_url e1 ++ NL ++ render e2)
  = [(str_of_int (entry_number e1), entry_tag e1, entry_headline e1,
      render e2)].
Proof.
  intros H1 H2 Ht Hh. unfold findall4.
  rewrite <- (map_map grps
                (fun g => (group 1 g, group 2 g, group 3 g, group 4 g))).
  rewrite (finditer_groups _ _
             [[(4, render e2); (3, entry_headline e1); (2, entry_tag e1);
               (1, str_of_int (entry_number e1))]%nat]
             citation_pattern_nonempty); [reflexivity |].
  apply mr_hit with (rest := ""); [now apply swallowed_entry | constructor].
Qed.

(** X24: an entry whose URL is missing swallows the entry on the next
    line: the citation pattern has one raw match only, with the whole
    next entry as the URL tail of the first, and no raw match for the
    second entry. *)
Theorem entry_without_url_swallows_the_next (e1 e2 : entry) :
  head_formed e1 = true -> well_formed e2 = true ->
  all_chars not_nl (entry_tag e2) = true ->
  all_chars not_nl (entry_headline e2) = true ->
  findall4 Pat.citation_pattern (render_without_url e1 ++ NL ++ render e2)
  = [(str_of_int (entry_number e1), entry_tag e1, entry_headline e1,
      render e2)].
Proof. apply swallowed_entry_findall. Qed.

(** X24, at two entries: the record of the first gets the URL of the
    second. *)
Lemma entry_without_url_swallows_the_next_witness :
  findall4 Pat.citation_pattern
    ("[1] [Web] First:" ++ NL ++ "[2] [Internal] Second: http://b.example")
  = [("1", "Web", "First", "[2] [Internal] Second: http://b.example")]
  /\ In (Citation 1 "First" "http://b.example" "Web" 1 "N/A")
        (extract_citations_directly
           ("[1] [Web] First:" ++ NL
            ++ "[2] [Internal] Second: http://b.example")).
Proof.
  split.
  - apply (entry_without_url_swallows_the_next
             (Entry 1 "Web" "First" "")
             (Entry 2 "Internal" "Second" "http://b.example"));
      reflexivity.
  - vm_compute. left. reflexivity.
Defined.

(* ------------------------------------------------------------------ *)
(** ** Further properties: the normaliser changes whitespace only *)

Lemma visible_app (a b : string) : visible (a ++ b) = visible a ++ visible b.
Proof.
  induction a as [|c a IH]; [reflexivity |]. cbn [append visible].
  destruct (is_space c); [exact IH |]. cbn [append]. now rewrite IH.
Qed.

Lemma visible_ws (w : string) : all_chars is_space w = true -> visible w = "".
Proof.
  induction w as [|c w IH]; [reflexivity |]. cbn [all_chars visible].
  rewrite andb_true_iff. intros [Hc Hw]. now rewrite Hc, IH.
Qed.

Lemma relaxed_visible (ok : ascii -> string -> string -> Prop) (s t : string) :
  relaxed ok s t -> visible s = visible t.
Proof.
  induction 1 as [s | c s s' _ IH | c w b b' Hw _ _ IH].
  - reflexivity.
  - cbn [visible]. now rewrite IH.
  - change (String c (w ++ b)) with (String c "" ++ w ++ b).
    change (String c (String " " b')) with (String c "" ++ " " ++ b').
    rewrite !visible_app, (visible_ws w Hw), IH. reflexivity.
Qed.

Lemma blank_sub_visible (s out : string) :
  sub_rel Pat.blank_run blank_repl s out -> visible s = visible out.
Proof.
  induction 1 as [| c s out _ _ IH | s g rest out Hm _ IH].
  - reflexivity.
  - cbn [visible]. now rewrite IH.
  - rewrite match_here_blank_run in Hm. destruct s as [|c s]; [discriminate |].
    destruct (Ascii.eqb nl c && (2 <=? nl_count_ws s)%nat) eqn:E;
      [| discriminate].
    apply andb_true_iff in E. destruct E as [Ec _].
    apply Ascii.eqb_eq in Ec. subst c.
    destruct (after_last_nl s) as [r|] eqn:Er; [| discriminate].
    cbn [option_map] in Hm. injection Hm as _ <-.
    apply after_last_nl_split in Er. destruct Er as [w [-> Hw]].
    unfold blank_repl. rewrite visible_app, <- IH.
    change (String nl (w ++ r)) with (NL ++ w ++ r).
    rewrite !visible_app, (visible_ws w Hw). reflexivity.
Qed.

Lemma clean_text_visible (text : string) :
  visible (clean_text text) = visible text.
Proof.
  rewrite clean_text_passes.
  rewrite <- (relaxed_visible _ _ _ (relaxed34 text)).
  rewrite <- (relaxed_visible _ _ _ (relaxed23 text)).
  rewrite <- (relaxed_visible _ _ _ (relaxed12 text)).
  symmetry. apply blank_sub_visible, pass1.
Qed.

(** X25: the normaliser changes whitespace only: the characters of the
    text that are not whitespace are the same, in the same order, before
    and after. *)
Theorem clean_text_changes_whitespace_only (text : string) :
  visible (clean_text text) = visible text.
Proof. apply clean_text_visible. Qed.

(* ------------------------------------------------------------------ *)
(** ** Further properties: from the pages to the report *)

Lemma visible_join_pages (pages : list string) :
  visible (join_pages pages) = String.concat "" (map visible pages).
Proof.
  induction pages as [|p pages IH]; [reflexivity |].
  destruct pages as [|q pages]; [reflexivity |].
  change (join_pages (p :: q :: pages))
    with (p ++ NL ++ NL ++ join_pages (q :: pages)).
  rewrite !visible_app, IH. reflexivity.
Qed.

Lemma visible_cleaned_pages (pages : list string) :
  map visible (map clean_text pages) = map visible pages.
Proof. rewrite map_map. apply map_ext. apply clean_text_visible. Qed.

(** X26: the text extracted from a document holds the characters of its
    pages that are not whitespace, page after page, unchanged: the
    cleanup of the pages and the blank lines between them touch
    whitespace only; a document that cannot be read gives no text. *)
Theorem extracted_text_keeps_the_pages (doc : option (list string)) :
  option_map visible (extract_text_from_pdf doc)
  = option_map (fun pages => String.concat "" (map visible pages)) doc.
Proof.
  destruct doc as [pages|]; [| reflexivity]. cbn [extract_text_from_pdf option_map].
  now rewrite visible_join_pages, visible_cleaned_pages.
Qed.

Lemma all_chars_visible (p : ascii -> bool) (s : string) :
  (forall c, is_space c = true -> p c = true) ->
  all_chars p (visible s) = all_chars p s.
Proof.
  intro H. induction s as [|c s IH]; [reflexivity |]. cbn [visible all_chars].
  destruct (is_space c) eqn:E.
  - now rewrite (H c E), IH.
  - cbn [all_chars]. now rewrite IH.
Qed.

Lemma space_not_bracket (c : ascii) :
  is_space c = true -> neg (chr "[") c = true.
Proof.
  intro H. unfold neg, chr. destruct (Ascii.eqb "[" c) eqn:E; [| reflexivity].
  apply Ascii.eqb_eq in E. subst c. discriminate H.
Qed.

Lemma all_chars_concat (p : ascii -> bool) (l : list string) :
  Forall (fun s => all_chars p s = true) l ->
  all_chars p (String.concat "" l) = true.
Proof.
  induction 1 as [|s l Hs _ IH]; [reflexivity |].
  destruct l as [|t l]; [exact Hs |].
  change (String.concat "" (s :: t :: l))
    with (s ++ "" ++ String.concat "" (t :: l)).
  cbn [append]. now rewrite all_chars_app, Hs, IH.
Qed.

Lemma pages_no_bracket (pages : list string) :
  Forall (fun p => all_chars (neg (chr "[")) p = true) pages ->
  all_chars (neg (chr "[")) (join_pages (map clean_text pages)) = true.
Proof.
  intro H. rewrite <- (all_chars_visible _ _ space_not_bracket).
  rewrite visible_join_pages, visible_cleaned_pages.
  apply all_chars_concat. apply Forall_map.
  eapply Forall_impl; [| exact H]. intros p Hp.
  now rewrite (all_chars_visible _ _ space_not_bracket).
Qed.

(** X27: a document none of whose pages holds an opening bracket never
    gives a report: [main] shows the warning that no citation was found,
    or the failure of the extraction when the text is empty. *)
Theorem document_without_bracket_gives_no_report
  (percent : nat -> nat -> string) (pages : list string) :
  Forall (fun p => all_chars (neg (chr "[")) p = true) pages ->
  main percent (Some (Some pages))
  = if nonempty (join_pages (map clean_text pages))
    then NoCitations else Failed.
Proof.
  intro H. unfold main. cbn [extract_text_from_pdf option_map].
  destruct (nonempty (join_pages (map clean_text pages))); [| reflexivity].
  now rewrite (extract_no_bracket _ (pages_no_bracket pages H)).
Qed.

(** X27, at a document of two pages, the second one empty. *)
Lemma document_without_bracket_gives_no_report_witness :
  main (fun _ _ => "0.0%") (Some (Some ["See (1)."; ""])) = NoCitations.
Proof.
  apply (document_without_bracket_gives_no_report (fun _ _ => "0.0%")
           ["See (1)."; ""]).
  repeat constructor.
Defined.

(* ------------------------------------------------------------------ *)
(** ** Further properties: when the function returns *)

Lemma matches_rel_In (r : regex) (s : string) (l : list groups) :
  matches_rel r s l ->
  forall g, In g l ->
            exists a b rest, s = a ++ b /\ match_here r b = Some (g, rest).
Proof.
  induction 1 as [| c s l _ _ IH | s g0 rest l Hm _ IH]; intros g Hg.
  - destruct Hg.
  - destruct (IH g Hg) as [a [b [rest [-> Hb]]]].
    now exists (String c a), b, rest.
  - destruct Hg as [<- | Hg].
    + now exists "", s, rest.
    + destruct (IH g Hg) as [a [b [rest' [-> Hb]]]].
      destruct (match_here_sound _ _ _ _ Hm) as [x [-> _]].
      exists (x ++ a), b, rest'. split; [now rewrite append_assoc | exact Hb].
Qed.

Lemma group_app_absent (i : nat) (d g : groups) :
  ~ In i (map fst d) -> group i (d ++ g)%list = group i g.
Proof.
  induction d as [|[j v] d IH]; intro H; [reflexivity |].
  cbn [app group]. cbn [map fst In] in H.
  destruct (Nat.eqb i j) eqn:E.
  - apply Nat.eqb_eq in E. subst j. exfalso. apply H. now left.
  - apply IH. intro Hin. apply H. now right.
Qed.

(** A match of the citation pattern begins with a bracket number, and
    its first group is that number. *)
Lemma citation_pattern_number (b : string) (g : groups) (rest : string) :
  match_here Pat.citation_pattern b = Some (g, rest) ->
  exists x, b = String "[" (group 1 g ++ String "]" x)
            /\ run_of is_decimal (group 1 g).
Proof.
  unfold match_here, Pat.citation_pattern. cbn [seqs lit]. intro H.
  rewrite rmatch_seq, rmatch_char in H.
  destruct (expect "[" b) as [s0|] eqn:E0; [| discriminate H].
  apply expect_inv in E0. subst b. cbn [obind] in H.
  rewrite rmatch_seq in H. rewrite rmatch_grp_plus in H.
  - destruct (run1 is_decimal s0) as [[d r1]|] eqn:Er; [| discriminate H].
    apply run1_inv in Er. cbn [fst snd] in Er. destruct Er as [-> [Hd _]].
    cbn [obind fst snd] in H. rewrite rmatch_seq, rmatch_char in H.
    destruct (expect "]" r1) as [x|] eqn:E1; [| discriminate H].
    apply expect_inv in E1. subst r1. cbn [obind] in H.
    match type of H with
    | rmatch ?R _ _ _ = _ =>
        assert (Hg : ~ In 1 (gids R)) by (vm_compute; intuition discriminate)
    end.
    apply rmatch_sound in H. destruct H as [a [s' [dd [_ [H F]]]]].
    injection H as <- _.
    assert (E : group 1 (dd ++ [(1, d)])%list = d).
    { rewrite group_app_absent; [reflexivity |].
      intro Hin. apply Hg. apply in_map_iff in Hin.
      destruct Hin as [kv [Ekv Hkv]]. rewrite Forall_forall in F.
      destruct (F kv Hkv) as [Hi _]. now rewrite Ekv in Hi. }
    rewrite E. exists x. now split.
  - intros c s' g' Hc. rewrite rmatch_seq, rmatch_char.
    now rewrite (expect_class is_decimal "]" c s').
Qed.

Lemma raw_number_occurs (refs : string) (m : raw_match) :
  In m (raw_matches refs) ->
  raw_number m = "15" \/ bracket_occurs (raw_number m) refs.
Proof.
  intro Hm.
  assert (H4 : In m (findall4 Pat.citation_pattern refs)
               -> bracket_occurs (raw_number m) refs).
  { unfold findall4. rewrite in_map_iff. intros [fd [<- Hfd]].
    cbn [raw_number].
    assert (Hg : In (grps fd) (map grps (finditer Pat.citation_pattern refs)))
      by now apply in_map.
    destruct (matches_rel_In _ _ _
                (finditer_rel _ refs citation_pattern_nonempty) _ Hg)
      as [a [b [rest [E Hb]]]].
    apply citation_pattern_number in Hb. destruct Hb as [x [Eb Hd]].
    exists a, x. split; [now rewrite E, Eb | exact Hd]. }
  destruct (raw_matches_shape refs) as [E | [_ [t [h [u E]]]]];
    rewrite E in Hm.
  - right. now apply H4.
  - apply in_app_iff in Hm. destruct Hm as [Hm | [<- | []]].
    + right. now apply H4.
    + now left.
Qed.

Lemma clean_match_number (m : raw_match) :
  raw_number (clean_match m) = raw_number m.
Proof. destruct m as [[[num tag] h] url]. reflexivity. Qed.

Lemma findall1_bracket_occurs (refs ds : string) :
  In ds (findall1 Pat.bracket_pattern refs) <-> bracket_occurs ds refs.
Proof.
  rewrite findall1_groups. split.
  - intro H. apply in_map_iff in H. destruct H as [g [<- Hg]].
    apply (bracket_matches_sound refs _
             (finditer_rel _ refs bracket_pattern_nonempty) g Hg).
  - apply (bracket_matches_complete refs _
             (finditer_rel _ refs bracket_pattern_nonempty)).
Qed.

(** Every conversion of the function returns exactly when no bracket
    number of the reference section has more than 4300 digits. *)
Lemma conversions_return_spec (text : string) :
  conversions_return text = true
  <-> forall ds, bracket_occurs ds (find_references_section text) ->
                 String.length ds <= int_max_str_digits.
Proof.
  unfold conversions_return. rewrite andb_true_iff, !forallb_forall. split.
  - intros [_ H] ds Hds. apply Nat.leb_le. apply H.
    now apply findall1_bracket_occurs.
  - intro H. split.
    + intros m Hm. apply in_map_iff in Hm. destruct Hm as [m0 [<- Hm0]].
      rewrite clean_match_number. apply Nat.leb_le.
      destruct (raw_number_occurs _ _ Hm0) as [E | Ho].
      * rewrite E. unfold int_max_str_digits. cbn [String.length]. lia.
      * now apply H.
    + intros ds Hds. apply Nat.leb_le. apply H.
      now apply findall1_bracket_occurs.
Qed.

Lemma forallb_false_In {A : Type} (f : A -> bool) (l : list A) :
  forallb f l = false -> exists x, In x l /\ f x = false.
Proof.
  induction l as [|a l IH]; cbn [forallb]; [discriminate |].
  destruct (f a) eqn:E; cbn [andb].
  - intro H. destruct (IH H) as [x [Hx Hf]]. exists x. split; [now right | exact Hf].
  - intros _. exists a. split; [now left | exact E].
Qed.

Lemma conversions_fail_spec (text : string) :
  conversions_return text = false
  <-> exists ds, bracket_occurs ds (find_references_section text)
                 /\ int_max_str_digits < String.length ds.
Proof.
  split.
  - unfold conversions_return. intro H. apply andb_false_iff in H.
    destruct H as [H | H]; apply forallb_false_In in H;
      destruct H as [x [Hx Hf]]; apply Nat.leb_gt in Hf.
    + apply in_map_iff in Hx. destruct Hx as [m0 [<- Hm0]].
      rewrite clean_match_number in Hf.
      destruct (raw_number_occurs _ _ Hm0) as [E | Ho].
      * rewrite E in Hf. unfold int_max_str_digits in Hf.
        cbn [String.length] in Hf. lia.
      * now exists (raw_number m0).
    + exists x. split; [now apply findall1_bracket_occurs | exact Hf].
  - intros [ds [Ho Hl]].
    destruct (conversions_return text) eqn:E; [| reflexivity].
    assert (B := proj1 (conversions_return_spec text) E ds Ho). lia.
Qed.

(** X28: the function fails, with the ValueError of the conversion that
    it does not catch, exactly when the reference section holds a bracket
    number of more than 4300 digits; when there is none it returns its
    list. *)
Theorem extraction_fails_on_long_numbers_only (text : string) :
  (extract_citations_checked text = None
   <-> exists ds, bracket_occurs ds (find_references_section text)
                  /\ int_max_str_digits < String.length ds)
  /\ ((forall ds, bracket_occurs ds (find_references_section text) ->
                  String.length ds <= int_max_str_digits) ->
      extract_citations_checked text = Some (extract_citations_directly text)).
Proof.
  unfold extract_citations_checked. split.
  - rewrite <- conversions_fail_spec.
    destruct (conversions_return text); split; congruence.
  - intro H. now rewrite (proj2 (conversions_return_spec text) H).
Qed.

(** X28, at a text whose second bracket number has 4301 digits: the
    function fails. *)
Lemma extraction_fails_on_long_numbers_only_witness :
  String.length long_number = S int_max_str_digits
  /\ extract_citations_checked text_long_number = None.
Proof.
  assert (L : String.length long_number = S int_max_str_digits)
    by (vm_compute; reflexivity).
  split; [exact L |].
  apply (proj2 (proj1 (extraction_fails_on_long_numbers_only text_long_number))).
  exists long_number. split.
  - exists ("[1] [Web] T: http://x" ++ NL), "". split.
    + vm_compute. reflexivity.
    + split; [discriminate | vm_compute; reflexivity].
  - rewrite L. apply Nat.lt_succ_diag_r.
Defined.
